(** * text-creator: the "vimified" console editor (src/main.cpp)

    A shallow embedding of the editor core: the line buffer and cursor,
    the edit operations, the command dispatcher with its file and shell
    collaborators, and the token analytics engine.

    Conventions of the embedding.
    - [std::string] is [text], a list of bytes ([ascii]); the buffer
      [std::vector<std::string>] is a [list text], indexed with stdpp's
      lookup and insert.
    - [int] fields (cursor, offsets) are [Z]; the casts between [int] and
      [std::size_t] are exact on the values an in-memory buffer can have, a
      negative [int] cast to [std::size_t] is an index past every container.
    - [std::size_t] counters are [nat]: they count bytes or tokens of one
      in-memory string and stay below [2^64].  The [std::uint64_t]
      arithmetic of the permutation composer is [N] with its overflow test.
    - An operation can return, throw a C++ exception, or run into undefined
      behaviour (an index past the end of a vector): [Res]. *)

From Stdlib Require Import ZArith NArith Ascii String List Lia QArith.
From Stdlib Require Import Permutation Sorted DecimalString.
From Stdlib Require DecimalN DecimalPos.
From stdpp Require Import base option list gmap strings sorting.

Local Open Scope Z_scope.

(** ** Results of an operation *)

Inductive Exn := InvalidArgument | OutOfRange.

Inductive Res (A : Type) : Type :=
| Ok (a : A)
| Throw (e : Exn)
| Undefined.
Arguments Ok {A} a.
Arguments Throw {A} e.
Arguments Undefined {A}.

Global Instance Res_ret : MRet Res := fun A a => Ok a.
Global Instance Res_bind : MBind Res := fun A B f m =>
  match m with
  | Ok a => f a
  | Throw e => Throw e
  | Undefined => Undefined
  end.

(** ** Text *)

Abbreviation text := (list ascii).

Definition str (s : string) : text := list_ascii_of_string s.

Definition LF : ascii := ascii_of_nat 10.
Definition CR : ascii := ascii_of_nat 13.

(** [v.size()] seen as an [int]. *)
Definition len {A} (l : list A) : Z := Z.of_nat (length l).

(** [v[(std::size_t)i]] on a vector: undefined behaviour out of range. *)
Definition at_ {A} (v : list A) (i : Z) : Res A :=
  if i <? 0 then Undefined
  else match v !! Z.to_nat i with
       | Some x => Ok x
       | None => Undefined
       end.

(** [s.substr((std::size_t)pos)]: throws [std::out_of_range] past the end. *)
Definition substr_from (s : text) (pos : Z) : Res text :=
  if (pos <? 0) || (len s <? pos) then Throw OutOfRange
  else Ok (drop (Z.to_nat pos) s).

(** [s.substr(0, (std::size_t)n)]: the count is cut at the end. *)
Definition substr_to (s : text) (n : Z) : text :=
  if n <? 0 then s else take (Z.to_nat n) s.

(** [s.erase((std::size_t)pos, 1)]. *)
Definition erase1 (s : text) (pos : Z) : Res text :=
  if (pos <? 0) || (len s <? pos) then Throw OutOfRange
  else Ok (take (Z.to_nat pos) s ++ drop (S (Z.to_nat pos)) s).

(** [s.insert((std::size_t)pos, 1, c)]. *)
Definition insert1 (s : text) (pos : Z) (c : ascii) : Res text :=
  if (pos <? 0) || (len s <? pos) then Throw OutOfRange
  else Ok (take (Z.to_nat pos) s ++ c :: drop (Z.to_nat pos) s).

(** [std::clamp(v, lo, hi)]; the behaviour is undefined when [hi < lo]. *)
Definition clamp (v lo hi : Z) : Res Z :=
  if hi <? lo then Undefined
  else Ok (if v <? lo then lo else if hi <? v then hi else v).

(** ** The editor state *)

Record Editor := mkEditor {
  buffer_ : list text;
  filename_ : text;
  status_ : text;
  mode_ : text;
  cmdbuf_ : text;
  dirty_ : bool;
  cur_y_ : Z;
  cur_x_ : Z;
  off_y_ : Z;
  off_x_ : Z
}.

Definition set_buffer (b : list text) (e : Editor) : Editor :=
  mkEditor b (filename_ e) (status_ e) (mode_ e) (cmdbuf_ e) (dirty_ e)
           (cur_y_ e) (cur_x_ e) (off_y_ e) (off_x_ e).
Definition set_filename (f : text) (e : Editor) : Editor :=
  mkEditor (buffer_ e) f (status_ e) (mode_ e) (cmdbuf_ e) (dirty_ e)
           (cur_y_ e) (cur_x_ e) (off_y_ e) (off_x_ e).
Definition set_status (s : text) (e : Editor) : Editor :=
  mkEditor (buffer_ e) (filename_ e) s (mode_ e) (cmdbuf_ e) (dirty_ e)
           (cur_y_ e) (cur_x_ e) (off_y_ e) (off_x_ e).
Definition set_mode (m : text) (e : Editor) : Editor :=
  mkEditor (buffer_ e) (filename_ e) (status_ e) m (cmdbuf_ e) (dirty_ e)
           (cur_y_ e) (cur_x_ e) (off_y_ e) (off_x_ e).
Definition set_cmdbuf (c : text) (e : Editor) : Editor :=
  mkEditor (buffer_ e) (filename_ e) (status_ e) (mode_ e) c (dirty_ e)
           (cur_y_ e) (cur_x_ e) (off_y_ e) (off_x_ e).
Definition set_dirty (d : bool) (e : Editor) : Editor :=
  mkEditor (buffer_ e) (filename_ e) (status_ e) (mode_ e) (cmdbuf_ e) d
           (cur_y_ e) (cur_x_ e) (off_y_ e) (off_x_ e).
Definition set_cur_y (y : Z) (e : Editor) : Editor :=
  mkEditor (buffer_ e) (filename_ e) (status_ e) (mode_ e) (cmdbuf_ e) (dirty_ e)
           y (cur_x_ e) (off_y_ e) (off_x_ e).
Definition set_cur_x (x : Z) (e : Editor) : Editor :=
  mkEditor (buffer_ e) (filename_ e) (status_ e) (mode_ e) (cmdbuf_ e) (dirty_ e)
           (cur_y_ e) x (off_y_ e) (off_x_ e).
Definition set_off (y x : Z) (e : Editor) : Editor :=
  mkEditor (buffer_ e) (filename_ e) (status_ e) (mode_ e) (cmdbuf_ e) (dirty_ e)
           (cur_y_ e) (cur_x_ e) y x.

(** The member initialisers of the class: an editor before its constructor
    body has run. *)
Definition Editor_fields (filename : text) : Editor :=
  mkEditor [] filename (str "ready") (str "EDIT") [] false 0 0 0 0.

(** ** Edit operations *)

Definition insert_char (c : ascii) (e : Editor) : Res Editor :=
  let e := if decide (buffer_ e = []) then set_buffer [[]] e else e in
  line ← at_ (buffer_ e) (cur_y_ e);
  x ← clamp (cur_x_ e) 0 (len line);
  line' ← insert1 line x c;
  Ok (set_dirty true
       (set_cur_x (x + 1)
          (set_buffer (<[Z.to_nat (cur_y_ e) := line']> (buffer_ e)) e))).

Definition newline (e : Editor) : Res Editor :=
  line ← at_ (buffer_ e) (cur_y_ e);
  tail ← substr_from line (cur_x_ e);
  let line' := take (Z.to_nat (cur_x_ e)) line in
  let y := Z.to_nat (cur_y_ e) in
  let b := <[y := line']> (buffer_ e) in
  Ok (set_dirty true
       (set_cur_x 0
          (set_cur_y (cur_y_ e + 1)
             (set_buffer (take (S y) b ++ tail :: drop (S y) b) e)))).

Definition backspace (e : Editor) : Res Editor :=
  if 0 <? cur_x_ e then
    line ← at_ (buffer_ e) (cur_y_ e);
    line' ← erase1 line (cur_x_ e - 1);
    Ok (set_dirty true
         (set_cur_x (cur_x_ e - 1)
            (set_buffer (<[Z.to_nat (cur_y_ e) := line']> (buffer_ e)) e)))
  else if 0 <? cur_y_ e then
    prev ← at_ (buffer_ e) (cur_y_ e - 1);
    cur ← at_ (buffer_ e) (cur_y_ e);
    let y := Z.to_nat (cur_y_ e) in
    let b := <[Nat.pred y := prev ++ cur]> (buffer_ e) in
    Ok (set_dirty true
         (set_cur_x (len prev)
            (set_cur_y (cur_y_ e - 1)
               (set_buffer (take y b ++ drop (S y) b) e))))
  else Ok e.

Definition del_key (e : Editor) : Res Editor :=
  line ← at_ (buffer_ e) (cur_y_ e);
  let y := Z.to_nat (cur_y_ e) in
  if cur_x_ e <? len line then
    line' ← erase1 line (cur_x_ e);
    Ok (set_dirty true (set_buffer (<[y := line']> (buffer_ e)) e))
  else if cur_y_ e <? len (buffer_ e) - 1 then
    next ← at_ (buffer_ e) (cur_y_ e + 1);
    let b := <[y := line ++ next]> (buffer_ e) in
    Ok (set_dirty true (set_buffer (take (S y) b ++ drop (S (S y)) b) e))
  else Ok e.

(** The four cursor moves of [edit_loop] (arrow keys and h/j/k/l). *)
Definition move_up (e : Editor) : Res Editor :=
  let e := if 0 <? cur_y_ e then set_cur_y (cur_y_ e - 1) e else e in
  line ← at_ (buffer_ e) (cur_y_ e);
  Ok (set_cur_x (Z.min (cur_x_ e) (len line)) e).

Definition move_down (e : Editor) : Res Editor :=
  let e := if cur_y_ e <? len (buffer_ e) - 1
           then set_cur_y (cur_y_ e + 1) e else e in
  line ← at_ (buffer_ e) (cur_y_ e);
  Ok (set_cur_x (Z.min (cur_x_ e) (len line)) e).

Definition move_left (e : Editor) : Res Editor :=
  if 0 <? cur_x_ e then Ok (set_cur_x (cur_x_ e - 1) e)
  else if 0 <? cur_y_ e then
    line ← at_ (buffer_ e) (cur_y_ e - 1);
    Ok (set_cur_x (len line) (set_cur_y (cur_y_ e - 1) e))
  else Ok e.

Definition move_right (e : Editor) : Res Editor :=
  line ← at_ (buffer_ e) (cur_y_ e);
  if cur_x_ e <? len line then Ok (set_cur_x (cur_x_ e + 1) e)
  else if cur_y_ e <? len (buffer_ e) - 1
  then Ok (set_cur_x 0 (set_cur_y (cur_y_ e + 1) e))
  else Ok e.

(** The two clamps that close [edit_loop]. *)
Definition clamp_cursor (e : Editor) : Res Editor :=
  y ← clamp (cur_y_ e) 0 (len (buffer_ e) - 1);
  line ← at_ (buffer_ e) y;
  x ← clamp (cur_x_ e) 0 (len line);
  Ok (set_cur_x x (set_cur_y y e)).

(** [edit_loop] on the key [ch] that [_getch] returned; [c2] is the second
    code, read only after the prefix 224 of an extended key. *)
Definition edit_loop (ch c2 : Z) (e : Editor) : Res Editor :=
  e' ← (if ch =? 27 then
          Ok (set_cmdbuf [] (set_status [] (set_mode (str "COMMAND") e)))
        else if (ch =? 13) || (ch =? 10) then newline e
        else if ch =? 8 then backspace e
        else if ch =? 224 then
          if c2 =? 72 then move_up e
          else if c2 =? 80 then move_down e
          else if c2 =? 75 then move_left e
          else if c2 =? 77 then move_right e
          else if c2 =? 83 then del_key e
          else Ok e
        else if ch =? 127 then del_key e
        else if ch =? 104 then move_left e
        else if ch =? 106 then move_down e
        else if ch =? 107 then move_up e
        else if ch =? 108 then move_right e
        else if (32 <=? ch) && (ch <=? 126)
        then insert_char (ascii_of_nat (Z.to_nat ch)) e
        else Ok e);
  clamp_cursor e'.

(** ** The document and cursor invariant *)

Definition cursor_ok (e : Editor) : Prop :=
  buffer_ e <> [] /\
  0 <= cur_y_ e < len (buffer_ e) /\
  exists line, buffer_ e !! Z.to_nat (cur_y_ e) = Some line /\
               0 <= cur_x_ e <= len line.

Inductive EditOp := Insert (c : ascii) | Backspace.

Definition apply_op (op : EditOp) (e : Editor) : Res Editor :=
  match op with
  | Insert c => insert_char c e
  | Backspace => backspace e
  end.

(** The states reached after each operation of a sequence, in order. *)
Fixpoint run_ops (ops : list EditOp) (e : Editor) : Res (list Editor) :=
  match ops with
  | [] => Ok []
  | op :: ops' =>
      e' ← apply_op op e;
      rest ← run_ops ops' e';
      Ok (e' :: rest)
  end.


(** ** Character classes and small string helpers *)

(** [<cctype>] in the "C" locale, on an [unsigned char]. *)
Definition isspace (c : ascii) : bool :=
  let n := nat_of_ascii c in ((9 <=? n) && (n <=? 13) || (n =? 32))%nat.
Definition isdigit (c : ascii) : bool :=
  let n := nat_of_ascii c in ((48 <=? n) && (n <=? 57))%nat.
Definition isalpha (c : ascii) : bool :=
  let n := nat_of_ascii c in
  ((65 <=? n) && (n <=? 90) || (97 <=? n) && (n <=? 122))%nat.

Definition is_char (c d : ascii) : bool := bool_decide (c = d).

Definition DQ : ascii := ascii_of_nat 34.
Definition quoted (s : text) : text := DQ :: s ++ [DQ].

(** [std::find_if_not(first, last, p)]: the range from the first element
    that does not satisfy [p]. *)
Fixpoint find_if_not (p : ascii -> bool) (s : text) : text :=
  match s with
  | [] => []
  | c :: s' => if p c then find_if_not p s' else s
  end.

Definition trim_copy (s : text) : text :=
  let b := find_if_not isspace s in
  rev (find_if_not isspace (rev b)).

(** The maximal runs of characters that satisfy [p]: [cur] is the run being
    read.  Both [operator>>] on a string stream and the regex iterator of
    [tokenize_words] cut their input this way. *)
Fixpoint runs (p : ascii -> bool) (s cur : text) : list text :=
  match s with
  | [] => if decide (cur = []) then [] else [cur]
  | c :: s' =>
      if p c then runs p s' (cur ++ [c])
      else if decide (cur = []) then runs p s' []
      else cur :: runs p s' []
  end.

Definition split_ws (s : text) : list text :=
  runs (fun c => negb (isspace c)) s [].

(** [oss << n] for a [std::size_t]. *)
Definition show_nat (n : nat) : text :=
  str (NilEmpty.string_of_uint (Nat.to_uint n)).
Definition show_N (n : N) : text :=
  str (NilEmpty.string_of_uint (N.to_uint n)).

Definition hex_digit (n : nat) : ascii :=
  if (n <? 10)%nat then ascii_of_nat (48 + n) else ascii_of_nat (87 + n).

Definition json_escape_char (c : ascii) : text :=
  let n := nat_of_ascii c in
  if (n =? 34)%nat then str "\" ++ [DQ]
  else if (n =? 92)%nat then str "\\"
  else if (n =? 8)%nat then str "\b"
  else if (n =? 12)%nat then str "\f"
  else if (n =? 10)%nat then str "\n"
  else if (n =? 13)%nat then str "\r"
  else if (n =? 9)%nat then str "\t"
  else if (n <? 32)%nat
  then str "\u00" ++ [hex_digit (n / 16); hex_digit (n mod 16)]
  else [c].

Definition json_escape (s : text) : text := concat (map json_escape_char s).

(** [std::stoul] and [std::stoull] in base 10, after [strtoul]: leading white
    space, an optional sign, then digits.  No digit throws
    [std::invalid_argument], a magnitude above [umax] throws
    [std::out_of_range], a minus sign negates in unsigned arithmetic, and
    what follows the digits is ignored. *)
Fixpoint digits_value (s : text) (acc : N) : N :=
  match s with
  | [] => acc
  | c :: s' =>
      if isdigit c then digits_value s' (10 * acc + (N_of_ascii c - 48))%N
      else acc
  end.

Definition sto (umax : N) (s : text) : Res N :=
  let s1 := find_if_not isspace s in
  let '(neg, s2) :=
    match s1 with
    | c :: r => if is_char c "-" then (true, r)
                else if is_char c "+" then (false, r)
                else (false, s1)
    | [] => (false, s1)
    end in
  match s2 with
  | c :: _ =>
      if isdigit c then
        let v := digits_value s2 0 in
        if (umax <? v)%N then Throw OutOfRange
        else Ok (if neg then ((umax + 1 - v) mod (umax + 1))%N else v)
      else Throw InvalidArgument
  | [] => Throw InvalidArgument
  end.

(** The program is Windows-only: [unsigned long] has 32 bits there. *)
Definition ULONG_MAX : N := 2 ^ 32 - 1.
Definition ULLONG_MAX : N := 2 ^ 64 - 1.
Definition stoul : text -> Res N := sto ULONG_MAX.
Definition stoull : text -> Res N := sto ULLONG_MAX.

(** ** Token analytics *)

(** The two ratios of [TokenStats] are [double]s in the source; here they
    are the exact quotients of the two [std::size_t] operands.  The two
    entropies are sums of [p * log2 p] over [double]s and have no exact
    counterpart: the record keeps the frequency tables they are computed
    from ([charfreq] is a local variable of [compute_token_stats]). *)
Record TokenStats := mkTokenStats {
  chars : nat; lines : nat; tokens : nat; unique_tokens : nat;
  ttr : Q; avg_token_len : Q;
  digits : nat; letters : nat; whitespace : nat; punctuation : nat;
  freq : gmap text nat;
  charfreq : gmap ascii nat
}.

Definition is_word_char (c : ascii) : bool :=
  isalpha c || isdigit c || is_char c "_".

(** The matches of the regex [[A-Za-z0-9_]+], left to right. *)
Definition tokenize_words (s : text) : list text := runs is_word_char s [].

(** [m[k]++] on an [unordered_map]: a missing key starts at 0. *)
Definition incr `{Countable K} (k : K) (m : gmap K nat) : gmap K nat :=
  <[k := S (default O (m !! k))]> m.

(** The byte loop of [compute_token_stats]. *)
Record ByteCounts := mkByteCounts {
  bc_chars : nat; bc_lines : nat;
  bc_digits : nat; bc_letters : nat; bc_whitespace : nat; bc_punctuation : nat;
  bc_charfreq : gmap ascii nat
}.

Definition count_byte (st : ByteCounts) (c : ascii) : ByteCounts :=
  let lines' := if is_char c LF then S (bc_lines st) else bc_lines st in
  let cf := incr c (bc_charfreq st) in
  if isdigit c then
    mkByteCounts (S (bc_chars st)) lines' (S (bc_digits st)) (bc_letters st)
                 (bc_whitespace st) (bc_punctuation st) cf
  else if isalpha c then
    mkByteCounts (S (bc_chars st)) lines' (bc_digits st) (S (bc_letters st))
                 (bc_whitespace st) (bc_punctuation st) cf
  else if isspace c then
    mkByteCounts (S (bc_chars st)) lines' (bc_digits st) (bc_letters st)
                 (S (bc_whitespace st)) (bc_punctuation st) cf
  else
    mkByteCounts (S (bc_chars st)) lines' (bc_digits st) (bc_letters st)
                 (bc_whitespace st) (S (bc_punctuation st)) cf.

Definition ratio (a b : nat) : Q :=
  if (b =? 0)%nat then 0%Q else (Z.of_nat a # Pos.of_nat b).

Definition compute_token_stats (content : text) : TokenStats :=
  let bc := fold_left count_byte content (mkByteCounts 0 1 0 0 0 0 ∅) in
  let toks := tokenize_words content in
  let '(totlen, fr) :=
    fold_left (fun '(totlen, fr) t => ((totlen + length t)%nat, incr t fr))
              toks (O, ∅) in
  let ntok := length toks in
  let uniq := size fr in
  mkTokenStats (bc_chars bc) (bc_lines bc) ntok uniq
               (ratio uniq ntok) (ratio totlen ntok)
               (bc_digits bc) (bc_letters bc) (bc_whitespace bc)
               (bc_punctuation bc) fr (bc_charfreq bc).

(** *** N-grams *)

(** [std::map<std::vector<std::string>, std::size_t>]: an association list
    kept in the key order of the map, which is what iterating it yields.
    Strings compare byte by byte, vectors of strings element by element. *)
Fixpoint list_compare {A} (cmp : A -> A -> comparison) (a b : list A)
  : comparison :=
  match a, b with
  | [], [] => Eq
  | [], _ :: _ => Lt
  | _ :: _, [] => Gt
  | x :: a', y :: b' =>
      match cmp x y with
      | Eq => list_compare cmp a' b'
      | o => o
      end
  end.

Definition byte_compare (x y : ascii) : comparison :=
  Nat.compare (nat_of_ascii x) (nat_of_ascii y).
Definition text_compare : text -> text -> comparison :=
  list_compare byte_compare.
Definition key_compare : list text -> list text -> comparison :=
  list_compare text_compare.

Abbreviation ngram_entry := (list text * nat)%type.

(** [counts[key]++]. *)
Fixpoint map_incr (key : list text) (counts : list ngram_entry)
  : list ngram_entry :=
  match counts with
  | [] => [(key, 1%nat)]
  | (k, c) :: rest =>
      match key_compare key k with
      | Lt => (key, 1%nat) :: counts
      | Eq => (k, S c) :: rest
      | Gt => (k, c) :: map_incr key rest
      end
  end.

(** The comparator passed to [std::sort]. *)
Definition count_gt (a b : ngram_entry) : bool := (b.2 <? a.2)%nat.

(** [std::sort] promises a permutation of its input in which no element
    compares before an earlier one; the order among equal counts is not
    specified, so the algorithm is an interface. *)
Class StdSort := {
  std_sort : list ngram_entry -> list ngram_entry;
  std_sort_perm : forall v, Permutation (std_sort v) v;
  std_sort_sorted : forall v,
    StronglySorted (fun a b => count_gt b a = false) (std_sort v)
}.

(** One such algorithm: insertion sort. *)
Fixpoint insert_desc (x : ngram_entry) (v : list ngram_entry)
  : list ngram_entry :=
  match v with
  | [] => [x]
  | y :: v' => if count_gt y x then y :: insert_desc x v' else x :: v
  end.

Definition insertion_sort (v : list ngram_entry) : list ngram_entry :=
  foldr insert_desc [] v.

(** The window loop of [top_ngrams]: [count] windows starting at [i]. *)
Fixpoint ngram_loop (toks : list text) (n : nat) (count i : nat)
    (counts : list ngram_entry) : list ngram_entry :=
  match count with
  | O => counts
  | S count' =>
      let key := take n (drop i toks) in
      ngram_loop toks n count' (S i) (map_incr key counts)
  end.

Definition top_ngrams `{StdSort} (toks : list text) (n topk : N)
  : list ngram_entry :=
  if (n =? 0)%N || (N.of_nat (length toks) <? n)%N then []
  else
    let n' := N.to_nat n in
    let counts := ngram_loop toks n' (length toks - n' + 1) 0 [] in
    let vec := std_sort counts in
    if (topk <? N.of_nat (length vec))%N then take (N.to_nat topk) vec
    else vec.

(** *** Token composition (alphabet = {1,2,3}) *)

Definition SAFE_ALPHABET : list ascii := ["1"; "2"; "3"]%char.

Definition UINT64_MAX : N := 2 ^ 64 - 1.

(** [safe_pow_u64]: [None] is the [false] return; [exp] rounds remain. *)
Fixpoint safe_pow_loop (base : N) (exp : nat) (out : N) : option N :=
  match exp with
  | O => Some out
  | S exp' =>
      if (UINT64_MAX / base <? out)%N then None
      else safe_pow_loop base exp' (out * base)%N
  end.

Definition safe_pow_u64 (base exp : N) : option N :=
  safe_pow_loop base (N.to_nat exp) 1%N.

(** The inner loop: positions [j-1] down to [0] of [line] are overwritten
    with the digits of [t], least significant first. *)
Fixpoint fill_line (j : nat) (t : N) (line : text) : text :=
  match j with
  | O => line
  | S j' =>
      let idx := (t mod N.of_nat (length SAFE_ALPHABET))%N in
      fill_line j' (t / N.of_nat (length SAFE_ALPHABET))%N
                (<[j' := nth (N.to_nat idx) SAFE_ALPHABET "1"%char]> line)
  end.

(** The outer loop: [count] rounds remain, [i] is the counter; [line] is
    the one string object written in place by every round. *)
Fixpoint perm_loop (len : nat) (count : nat) (i : N) (line out : text) : text :=
  match count with
  | O => out
  | S count' =>
      let line' := fill_line len i line in
      perm_loop len count' (i + 1)%N line' (out ++ line' ++ [LF])
  end.

Definition compose_permutations (len limit : N) : text :=
  if (len =? 0)%N || (10 <? len)%N || (limit =? 0)%N then []
  else
    let total := match safe_pow_u64 (N.of_nat (length SAFE_ALPHABET)) len with
                 | Some t => t
                 | None => limit
                 end in
    let total := N.min total limit in
    perm_loop (N.to_nat len) (N.to_nat total) 0%N
              (replicate (N.to_nat len) "1"%char) [].

(** The clamp at the head of [Editor::tok_perm]. *)
Definition MAXL : N := 5000.
Definition clamp_limit (limit : N) : N :=
  if (MAXL <? limit)%N then MAXL else limit.

(** ** The collaborators of the editor *)

(** What the editor sees of its platform: the files it can read and their
    contents, the paths it can write, the captured output of a shell
    command line, the directory of temporary files, and the text an
    [ostream] prints for a [double] (a quotient, or the entropy of a table
    of counts). *)
Record World := mkWorld {
  files : gmap text text;
  writable : text -> bool;
  shell : text -> text;
  temp_path : text;
  show_double : Q -> text;
  show_entropy : list nat -> text
}.

Definition set_files (f : gmap text text) (w : World) : World :=
  mkWorld f (writable w) (shell w) (temp_path w) (show_double w)
          (show_entropy w).

Definition read_text_file (path : text) (w : World) : option text :=
  files w !! path.

Definition write_text_file (path content : text) (w : World) : bool * World :=
  if writable w path then (true, set_files (<[path := content]> (files w)) w)
  else (false, w).

(** [_popen] on the PowerShell command line; the oracle answers for a pipe
    that failed to open as well. *)
Definition run_shell_capture (cmd : text) (w : World) : text :=
  shell w (str "powershell -NoProfile -Command " ++ quoted cmd).

(** ** Buffer and files *)

(** Strings written one after the other with a separator between two of
    them; with a newline it is the text that [save_file], [tok_stats] and
    [tok_export] build from the buffer. *)
Fixpoint join_with (sep : text) (b : list text) : text :=
  match b with
  | [] => []
  | [l] => l
  | l :: b' => l ++ sep ++ join_with sep b'
  end.

Definition join_lines (b : list text) : text := join_with [LF] b.

(** [std::getline(iss, line)]: [None] when the stream is at its end, else
    the line read and the rest of the stream. *)
Fixpoint read_until_lf (s : text) : text * text :=
  match s with
  | [] => ([], [])
  | c :: s' =>
      if is_char c LF then ([], s')
      else let '(l, r) := read_until_lf s' in (c :: l, r)
  end.

Definition getline (iss : text) : option (text * text) :=
  match iss with
  | [] => None
  | _ => Some (read_until_lf iss)
  end.

Definition pop_cr (line : text) : text :=
  match last line with
  | Some c => if is_char c CR then removelast line else line
  | None => line
  end.

(** The [while (std::getline(...))] loop of [open_file]; every round
    consumes at least one byte, so one round per byte is enough. *)
Fixpoint getline_loop (fuel : nat) (iss : text) (buffer : list text)
  : list text :=
  match fuel with
  | O => buffer
  | S fuel' =>
      match getline iss with
      | None => buffer
      | Some (line, iss') => getline_loop fuel' iss' (buffer ++ [pop_cr line])
      end
  end.

Definition load_lines (txt : text) : list text :=
  let buffer := getline_loop (length txt) txt [] in
  if bool_decide (last txt = Some LF) &&
     (bool_decide (buffer = []) || negb (bool_decide (last buffer = Some [])))
  then buffer ++ [[]]
  else buffer.

Definition open_file (path : text) (w : World) (e : Editor) : Editor :=
  let '(buffer, status) :=
    match read_text_file path w with
    | None => ([[]], str "New file: " ++ path)
    | Some txt => (load_lines txt, str "Opened " ++ path)
    end in
  mkEditor buffer path status (mode_ e) (cmdbuf_ e) false 0 0 0 0.

Definition save_file (path : text) (w : World) (e : Editor) : World * Editor :=
  let '(ok, w') := write_text_file path (join_lines (buffer_ e)) w in
  if ok
  then (w', set_dirty false
              (set_status (str "Saved " ++ path) (set_filename path e)))
  else (w', set_status (str "Error: could not save " ++ path) e).

(** The constructor: [initial] is the command-line argument, if any. *)
Definition Editor_new (initial : option text) (w : World) : Editor :=
  match initial with
  | Some path =>
      if decide (is_Some (files w !! path))
      then set_dirty false (open_file path w (Editor_fields path))
      else set_buffer [[]] (Editor_fields path)
  | None => set_buffer [[]] (Editor_fields (str "untitled.txt"))
  end.

(** ** Buffer insertion *)

(** The splitting loop of [insert_text_block]: [s] is the segment being
    read, [lines] the segments closed so far. *)
Fixpoint block_lines (txt s : text) (lines : list text) : list text :=
  match txt with
  | [] => lines ++ [s]
  | c :: txt' =>
      if is_char c LF then block_lines txt' [] (lines ++ [s])
      else if is_char c CR then block_lines txt' s lines
      else block_lines txt' (s ++ [c]) lines
  end.

Definition insert_text_block (txt : text) (e : Editor) : Res Editor :=
  if decide (txt = []) then Ok e
  else
    let lines := block_lines txt [] [] in
    cur ← at_ (buffer_ e) (cur_y_ e);
    tail ← substr_from cur (cur_x_ e);
    let y := Z.to_nat (cur_y_ e) in
    let b1 := <[y := substr_to cur (cur_x_ e) ++ default [] (head lines)]>
                (buffer_ e) in
    let b2 := take (S y) b1 ++ drop 1 lines ++ drop (S y) b1 in
    let y' := cur_y_ e + (len lines - 1) in
    last_line ← at_ b2 y';
    let b3 := <[Z.to_nat y' := last_line ++ tail]> b2 in
    Ok (set_dirty true
         (set_cur_x (len last_line) (set_cur_y y' (set_buffer b3 e)))).

(** ** Shell and compile/run *)

Definition command_shell (cmd : text) (w : World) (e : Editor) : Res Editor :=
  let e := set_status
             (str "Executing: " ++
              (if 40 <? len cmd then take 40 cmd ++ str "..." else cmd)) e in
  let out := trim_copy (run_shell_capture cmd w) in
  if decide (out = [])
  then Ok (set_status (str "Command produced no output.") e)
  else e' ← insert_text_block out e;
       Ok (set_status (str "Command finished.") e').

Definition command_cpp (w : World) (e : Editor) : Res (World * Editor) :=
  let e := set_status (str "Compiling C++23…") e in
  let src := temp_path w ++ str "vimified_main.cpp" in
  let exe := temp_path w ++ str "vimified_run.exe" in
  let dump := concat (map (fun l => l ++ [LF]) (buffer_ e)) in
  let '(ok, w') := write_text_file src dump w in
  if negb ok then Ok (w', set_status (str "Failed to write temp source.") e)
  else
    let ccmd := str "g++ -std=c++23 " ++ quoted src ++ str " -o " ++ quoted exe in
    let compile_out := run_shell_capture ccmd w' in
    let run_out := run_shell_capture (quoted exe) w' in
    if negb (bool_decide (trim_copy run_out = [])) then
      e' ← insert_text_block (trim_copy run_out) e;
      Ok (w', set_status (str "Program ran (output inserted).") e')
    else if negb (bool_decide (trim_copy compile_out = [])) then
      e' ← insert_text_block (trim_copy compile_out) e;
      Ok (w', set_status (str "Compilation failed (diagnostics inserted).") e')
    else Ok (w', set_status (str "Program produced no output.") e).

(** ** The [tok] commands *)

Section Tok.
Context `{StdSort}.

Definition json_field (key value : text) : text :=
  str "  " ++ quoted key ++ str ": " ++ value.

(** The fields that [tok_stats] and [tok_export] print alike. *)
Definition json_common (w : World) (st : TokenStats) : text :=
  json_field (str "lines") (show_nat (lines st)) ++ str "," ++ [LF] ++
  json_field (str "chars") (show_nat (chars st)) ++ str "," ++ [LF] ++
  json_field (str "tokens") (show_nat (tokens st)) ++ str "," ++ [LF] ++
  json_field (str "unique_tokens") (show_nat (unique_tokens st))
    ++ str "," ++ [LF] ++
  json_field (str "type_token_ratio") (show_double w (ttr st))
    ++ str "," ++ [LF] ++
  json_field (str "avg_token_length") (show_double w (avg_token_len st))
    ++ str "," ++ [LF] ++
  json_field (str "char_entropy_bits")
    (show_entropy w (map snd (map_to_list (charfreq st))))
    ++ str "," ++ [LF] ++
  json_field (str "token_entropy_bits")
    (show_entropy w (map snd (map_to_list (freq st))))
    ++ str "," ++ [LF].

Definition tok_stats (path_opt : option text) (w : World) (e : Editor)
  : Res Editor :=
  let content :=
    match path_opt with
    | Some path => read_text_file path w
    | None => Some (join_lines (buffer_ e))
    end in
  match content with
  | None => Ok (set_status (str "tok: cannot open " ++ default [] path_opt) e)
  | Some content =>
      let st := compute_token_stats content in
      let js :=
        str "{" ++ [LF] ++ json_common w st ++
        str "  " ++ quoted (str "class_counts") ++ str ": { " ++
        quoted (str "digits") ++ str ": " ++ show_nat (digits st) ++
        str ", " ++ quoted (str "letters") ++ str ": "
          ++ show_nat (letters st) ++
        str ", " ++ quoted (str "whitespace") ++ str ": "
          ++ show_nat (whitespace st) ++
        str ", " ++ quoted (str "punctuation") ++ str ": "
          ++ show_nat (punctuation st) ++ str " }" ++ [LF] ++ str "}" in
      e' ← insert_text_block js e;
      Ok (set_status (str "Token stats inserted.") e')
  end.

Definition show_ngram (entry : ngram_entry) : text :=
  str "  " ++ join_with (str " ") entry.1
  ++ str "  -> " ++ show_nat entry.2 ++ [LF].

Definition tok_ngram (N K : N) (e : Editor) : Res Editor :=
  if (N =? 0)%N then Ok (set_status (str "tok: N must be >=1") e)
  else
    let content := concat (map (fun l => l ++ [LF]) (buffer_ e)) in
    let toks := tokenize_words content in
    let res := top_ngrams toks N K in
    let oss := str "Top " ++ show_N K ++ str " " ++ show_N N
               ++ str "-grams:" ++ [LF] ++ concat (map show_ngram res) in
    e' ← insert_text_block oss e;
    Ok (set_status (str "N-grams inserted.") e').

Definition tok_export (outpath : text) (w : World) (e : Editor)
  : World * Editor :=
  let st := compute_token_stats (join_lines (buffer_ e)) in
  let entries :=
    map (fun '(tok, cnt) =>
           [LF] ++ str "    " ++ quoted (json_escape tok) ++ str ": "
           ++ show_nat cnt)
        (map_to_list (freq st)) in
  let js :=
    str "{" ++ [LF] ++
    json_field (str "file") (quoted (json_escape outpath))
      ++ str "," ++ [LF] ++
    json_common w st ++
    str "  " ++ quoted (str "freq") ++ str ": {" ++
    join_with (str ",") entries ++
    (if decide (freq st = ∅) then [] else [LF] ++ str "  ") ++
    str "}" ++ [LF] ++ str "}" ++ [LF] in
  let '(ok, w') := write_text_file outpath js w in
  if ok then (w', set_status (str "Exported token stats -> " ++ outpath) e)
  else (w', set_status (str "tok: export failed") e).

Definition tok_perm (len limit : N) (e : Editor) : Res Editor :=
  let out := compose_permutations len (clamp_limit limit) in
  if decide (out = []) then Ok (set_status (str "tok: no permutations") e)
  else e' ← insert_text_block out e;
       Ok (set_status (str "Permutations inserted.") e').

(** ** The command dispatcher *)

(** [parts[i]] after a size check of the caller. *)
Definition part (parts : list text) (i : nat) : text :=
  default [] (parts !! i).

(** [execute_command(raw)]: the world and editor after the command, and
    the return value ([true] asks the session loop to quit).  [show_help]
    draws and waits for a key; it changes no field. *)
Definition execute_command (raw : text) (w : World) (e : Editor)
  : Res (World * Editor * bool) :=
  let s := trim_copy raw in
  if decide (s = []) then Ok (w, set_status [] e, false)
  else
    let parts := split_ws s in
    let cmd := part parts 0 in
    if decide (cmd = str "q") then
      if dirty_ e
      then Ok (w, set_status (str "Unsaved changes! Use :q! to force quit.") e,
               false)
      else Ok (w, e, true)
    else if decide (cmd = str "q!") then Ok (w, e, true)
    else if decide (cmd = str "w") then
      let path := if (2 <=? length parts)%nat then part parts 1
                  else filename_ e in
      let '(w', e') := save_file path w e in Ok (w', e', false)
    else if decide (cmd = str "o") then
      if (length parts <? 2)%nat
      then Ok (w, set_status (str "Usage: :o <filename>") e, false)
      else if dirty_ e
      then Ok (w, set_status (str "Unsaved changes! Save with :w first.") e,
               false)
      else Ok (w, open_file (part parts 1) w e, false)
    else if decide (cmd = str "help") then Ok (w, e, false)
    else if decide (cmd = str "cpp") then
      '(w', e') ← command_cpp w e; Ok (w', e', false)
    else if bool_decide (head cmd = Some "!"%char) then
      let rest := drop 1 s in
      let rest := if bool_decide (head rest = Some " "%char)
                  then drop 1 rest else rest in
      e' ← command_shell rest w e; Ok (w, e', false)
    else if decide (cmd = str "tok") then
      if (length parts =? 1)%nat
      then Ok (w, set_status
                    (str "tok: usage -> :tok stats|ngram|export|perm ...") e,
               false)
      else if decide (part parts 1 = str "stats") then
        e' ← tok_stats (if (3 <=? length parts)%nat
                        then Some (part parts 2) else None) w e;
        Ok (w, e', false)
      else if decide (part parts 1 = str "ngram") then
        N ← (if (3 <=? length parts)%nat then stoul (part parts 2)
             else Ok 2%N);
        K ← (if (4 <=? length parts)%nat then stoul (part parts 3)
             else Ok 20%N);
        e' ← tok_ngram N K e;
        Ok (w, e', false)
      else if decide (part parts 1 = str "export") then
        if (length parts <? 3)%nat
        then Ok (w, set_status (str "tok: export <file.json>") e, false)
        else let '(w', e') := tok_export (part parts 2) w e in
             Ok (w', e', false)
      else if decide (part parts 1 = str "perm") then
        if (length parts <? 4)%nat
        then Ok (w, set_status (str "tok: perm <len> <limit>") e, false)
        else
          (* both conversions are arguments of one call *)
          len ← stoull (part parts 2);
          limit ← stoull (part parts 3);
          e' ← tok_perm len limit e;
          Ok (w, e', false)
      else Ok (w, set_status (str "tok: unknown subcommand") e, false)
    else Ok (w, set_status (str "Unknown command: " ++ cmd) e, false).

(** [command_loop] on the key [ch]; no handler stands between
    [execute_command] and its caller, so what the dispatcher throws leaves
    [command_loop], [run] and [main] and ends the process. *)
Definition command_loop (ch : Z) (w : World) (e : Editor)
  : Res (World * Editor * bool) :=
  let e := set_status (str ":" ++ cmdbuf_ e) e in
  if ch =? 27
  then Ok (w, set_cmdbuf [] (set_status [] (set_mode (str "EDIT") e)), false)
  else if ch =? 8
  then Ok (w, set_cmdbuf (removelast (cmdbuf_ e)) e, false)
  else if (ch =? 13) || (ch =? 10) then
    '(w', e', quit) ← execute_command (cmdbuf_ e) w e;
    Ok (w', set_mode (str "EDIT") (set_cmdbuf [] e'), quit)
  else if (ch =? 58) && bool_decide (cmdbuf_ e = []) then Ok (w, e, false)
  else if (32 <=? ch) && (ch <=? 126)
  then Ok (w, set_cmdbuf (cmdbuf_ e ++ [ascii_of_nat (Z.to_nat ch)]) e, false)
  else Ok (w, e, false).

End Tok.

(** ** Vocabulary of the statements *)

(** The class a byte is counted in: the first test of the chain in
    [compute_token_stats] that it passes. *)
Inductive ByteClass := Digit | Letter | Whitespace | Punctuation.

Global Instance ByteClass_eq_dec : EqDecision ByteClass.
Proof. solve_decision. Defined.

Definition classify (c : ascii) : ByteClass :=
  if isdigit c then Digit
  else if isalpha c then Letter
  else if isspace c then Whitespace
  else Punctuation.

Definition count_class (k : ByteClass) (content : text) : nat :=
  length (filter (fun c => classify c = k) content).

Definition count_char (d : ascii) (content : text) : nat :=
  length (filter (fun c => c = d) content).

(** The sliding windows of [n] tokens, and how often one n-gram occurs. *)
Definition windows (n : nat) (toks : list text) : list (list text) :=
  if (n =? 0)%nat || (length toks <? n)%nat then []
  else map (fun i => take n (drop i toks)) (seq 0 (length toks - n + 1)).

Definition occurrences (n : nat) (toks : list text) (key : list text) : nat :=
  length (filter (fun w => w = key) (windows n toks)).

(** A string over the alphabet read as a number in base 3, first symbol
    most significant: ['1'], ['2'], ['3'] are the digits 0, 1, 2. *)
Definition symbol_value (c : ascii) : N := (N_of_ascii c - 49)%N.

Definition base3_value (s : text) : N :=
  fold_left (fun acc c => (3 * acc + symbol_value c)%N) s 0%N.

(** The lines of a text in which every line ends with a newline. *)
Definition unlines (strs : list text) : text :=
  concat (map (fun s => s ++ [LF]) strs).

(** A line that [open_file] reads back as it was written. *)
Definition plain_line (l : text) : Prop :=
  (LF ∉ l) /\ (last l <> Some CR).

(** The last two lines of a document are not both empty, and a document of
    one line is not the empty line alone. *)
Definition ends_plainly (b : list text) : Prop :=
  (last b <> Some []) \/
  (exists b' l, b = b' ++ [l; []] /\ l <> []).

(** Sample states for the closed statements. *)
Definition sample_world : World :=
  mkWorld ∅ (fun p => bool_decide (p <> str "/ro/x")) (fun _ => [])
          (str "C:\Temp\") (fun _ => str "0") (fun _ => str "0").

Definition sample_editor : Editor :=
  mkEditor [str "abc"; str "de"] (str "notes.txt") (str "ready") (str "EDIT")
           [] false 1 2 0 0.

(** [save_file] to [path], then [open_file] of the same path in the world
    the save left. *)
Definition save_then_open (path : text) (w : World) (e : Editor) : Editor :=
  let '(w', e') := save_file path w e in open_file path w' e'.

(** What the [getline] loop returns on a saved document: its lines but
    for an empty last one. *)
Definition without_empty_last (b : list text) : list text :=
  if decide (last b = Some []) then removelast b else b.

(** The symbol of a digit, and the [j] low digits of [t] in base 3, most
    significant first. *)
Definition symbol (d : N) : ascii := nth (N.to_nat d) SAFE_ALPHABET "1"%char.

Fixpoint digits_msb (j : nat) (t : N) : text :=
  match j with
  | O => []
  | S j' => digits_msb j' (t / 3)%N ++ [symbol (t mod 3)%N]
  end.

(** The count a map of n-grams holds for a key, 0 when it has none. *)
Fixpoint get_count (key : list text) (counts : list ngram_entry) : nat :=
  match counts with
  | [] => O
  | (k, c) :: rest => if decide (k = key) then c else get_count key rest
  end.

(** The order of the keys in a map of n-grams. *)
Definition key_lt (a b : ngram_entry) : Prop := key_compare a.1 b.1 = Lt.

(** ** Rendering and the session loop *)

(** [info.srWindow] of the console. *)
Record SmallRect := mkSmallRect {
  Left : Z; Top : Z; Right : Z; Bottom : Z
}.

Definition get_console_size (win : SmallRect) : Z * Z :=
  let rows := Bottom win - Top win + 1 in
  let cols := Right win - Left win + 1 in
  (if rows <? 4 then 24 else rows, if cols <? 20 then 80 else cols).

Definition ensure_visible (win : SmallRect) (e : Editor) : Editor :=
  let '(rows, cols) := get_console_size win in
  let view_h := Z.max 1 (rows - 1) in
  let view_w := Z.max 1 cols in
  let oy := off_y_ e in
  let ox := off_x_ e in
  let oy := if cur_y_ e <? oy then cur_y_ e else oy in
  let oy := if oy + view_h <=? cur_y_ e then cur_y_ e - view_h + 1 else oy in
  let ox := if cur_x_ e <? ox then cur_x_ e else ox in
  let ox := if ox + view_w <=? cur_x_ e then cur_x_ e - view_w + 1 else ox in
  let oy := if oy <? 0 then 0 else oy in
  let ox := if ox <? 0 then 0 else ox in
  set_off oy ox e.

(** [std::cout << n] for an [int]. *)
Definition show_Z (n : Z) : text :=
  if n <? 0 then str "-" ++ show_N (Z.to_N (- n)) else show_N (Z.to_N n).

Definition ESC : ascii := ascii_of_nat 27.
Definition clear_screen : text := ESC :: str "[2J" ++ ESC :: str "[H".
Definition move_cursor (row col : Z) : text :=
  ESC :: str "[" ++ show_Z (row + 1) ++ str ";" ++ show_Z (col + 1) ++ str "H".
Definition invert_on : text := ESC :: str "[7m".
Definition invert_off : text := ESC :: str "[0m".

(** The part of a buffer line that [draw] prints. *)
Definition slice_of (full : text) (off_x : Z) : Res text :=
  if off_x <? len full then substr_from full off_x else Ok [].

(** The row loop of [draw]: [count] rows remain, [y] is the screen row; a
    row past the buffer ends the loop. *)
Fixpoint draw_rows (count : nat) (y : Z) (e : Editor) : Res text :=
  match count with
  | O => Ok []
  | S count' =>
      let by_ := off_y_ e + y in
      if (by_ <? 0) || (len (buffer_ e) <=? by_) then Ok []
      else
        full ← at_ (buffer_ e) by_;
        slice ← slice_of full (off_x_ e);
        rest ← draw_rows count' (y + 1) e;
        Ok (move_cursor y 0 ++ slice ++ rest)
  end.

Definition status_left (e : Editor) : text :=
  str " " ++ mode_ e ++ str " | " ++ filename_ e
  ++ (if dirty_ e then str " [+]" else [])
  ++ str " | L" ++ show_Z (cur_y_ e + 1) ++ str ", C" ++ show_Z (cur_x_ e + 1)
  ++ str " ".

Definition status_right (e : Editor) : text := str " " ++ status_ e ++ str " ".

(** The bytes of the status bar between the two colour switches. *)
Definition status_bar (cols : Z) (e : Editor) : text :=
  let L := status_left e in
  let R := status_right e in
  let fill := cols - len L - len R in
  let fill := if fill <? 0 then 0 else fill in
  L ++ replicate (Z.to_nat fill) " "%char ++ R.

(** [draw]: what is written to the console. *)
Definition draw (win : SmallRect) (e : Editor) : Res text :=
  let '(rows, cols) := get_console_size win in
  body ← draw_rows (Z.to_nat (rows - 1)) 0 e;
  let dy := cur_y_ e - off_y_ e in
  let dx := cur_x_ e - off_x_ e in
  Ok (clear_screen ++ body
      ++ move_cursor (rows - 1) 0 ++ invert_on ++ status_bar cols e
      ++ invert_off
      ++ (if (0 <=? dy) && (dy <? rows - 1) && (0 <=? dx) && (dx <? cols)
          then move_cursor dy dx else [])).

Section Session.
Context `{StdSort}.

(** One round of the loop of [run]: the key [ch] (and [c2] after the
    prefix of an extended key) is what [_getch] returns in this round.
    [command_loop] draws once more, with the status line changed, before
    it reads the key; that second [draw] writes the same rows from the same
    offsets as the first. *)
Definition run_step (win : SmallRect) (ch c2 : Z) (w : World) (e : Editor)
  : Res (World * Editor * bool) :=
  let e := ensure_visible win e in
  _ ← draw win e;
  if decide (mode_ e = str "COMMAND") then command_loop ch w e
  else e' ← edit_loop ch c2 e; Ok (w, e', false).

(** [run], on the keys of a session: it returns with the first round that
    asks to quit; [None] when the keys end before that. *)
Fixpoint run_keys (win : SmallRect) (keys : list (Z * Z)) (w : World)
    (e : Editor) : Res (World * Editor * option Z) :=
  match keys with
  | [] => Ok (w, e, None)
  | (ch, c2) :: keys' =>
      '(w', e', quit) ← run_step win ch c2 w e;
      if (quit : bool) then Ok (w', e', Some 0)
      else run_keys win keys' w' e'
  end.

(** [Editor::run] sets the first status text before its loop. *)
Definition run (win : SmallRect) (keys : list (Z * Z)) (w : World)
    (e : Editor) : Res (World * Editor * option Z) :=
  run_keys win keys w
    (set_status (str "Press ESC for COMMAND mode (:help)") e).

End Session.

(** ** More vocabulary of the statements *)

(** No line of the document holds a newline. *)
Definition lines_clean (e : Editor) : Prop :=
  Forall (fun l => LF ∉ l) (buffer_ e).

(** The viewport offsets are not negative. *)
Definition offsets_ok (e : Editor) : Prop := 0 <= off_y_ e /\ 0 <= off_x_ e.

(** The cursor lies in the window of [view_h] rows and [view_w] columns
    that starts at the offsets. *)
Definition in_view (win : SmallRect) (e : Editor) : Prop :=
  let '(rows, cols) := get_console_size win in
  off_y_ e <= cur_y_ e < off_y_ e + Z.max 1 (rows - 1) /\
  off_x_ e <= cur_x_ e < off_x_ e + Z.max 1 cols.

Definition mode_ok (e : Editor) : Prop :=
  mode_ e = str "EDIT" \/ mode_ e = str "COMMAND".

(** A key that [edit_loop] and [command_loop] take as text. *)
Definition printable (ch : Z) : Prop := 32 <= ch <= 126.

Definition key_char (ch : Z) : ascii := ascii_of_nat (Z.to_nat ch).

(** The keys of a text, as [_getch] returns them. *)
Definition keys_of (s : text) : list Z :=
  map (fun c => Z.of_nat (nat_of_ascii c)) s.

(** [command_loop] on a run of keys that do not end the command line. *)
Fixpoint type_keys `{StdSort} (keys : list Z) (w : World) (e : Editor)
  : Res (World * Editor * bool) :=
  match keys with
  | [] => Ok (w, e, false)
  | ch :: keys' =>
      '(w', e', quit) ← command_loop ch w e;
      if (quit : bool) then Ok (w', e', true) else type_keys keys' w' e'
  end.



(** [e'] is [e] with the cursor somewhere else. *)
Definition only_cursor_moved (e e' : Editor) : Prop :=
  e' = set_cur_x (cur_x_ e') (set_cur_y (cur_y_ e') e).

(** What a session keeps from round to round. *)
Definition session_ok (e : Editor) : Prop :=
  cursor_ok e /\ lines_clean e /\ offsets_ok e /\ mode_ok e.

(** The keys h, j, k and l. *)
Definition vi_keys : list Z := [104; 106; 107; 108].

(** [e'] keeps what a session needs from [e], the cursor apart: clean
    lines stay clean, the viewport, the mode and the file name are as
    before. *)
Definition keeps_frame (e e' : Editor) : Prop :=
  (lines_clean e -> lines_clean e') /\
  off_y_ e' = off_y_ e /\ off_x_ e' = off_x_ e /\ mode_ e' = mode_ e /\
  filename_ e' = filename_ e.

(** A text without the colons it starts with. *)
Fixpoint strip_colons (s : text) : text :=
  match s with
  | c :: r => if is_char c ":" then strip_colons r else s
  | [] => []
  end.

(** Every byte of the text is a key that the loops take as text. *)
Definition printable_text (s : text) : Prop :=
  Forall (fun c => printable (Z.of_nat (nat_of_ascii c))) s.

(** A non-empty text of bytes that satisfy [p]. *)
Definition run_of (p : ascii -> bool) (t : text) : Prop :=
  t <> [] /\ Forall (fun c => p c = true) t.

(** [main]: [argv] are the arguments of the process, [argv[0]] included;
    [keys] is what [_getch] returns during the session. *)
Definition main `{StdSort} (win : SmallRect) (argv : list text)
    (keys : list (Z * Z)) (w : World) : Res (World * Editor * option Z) :=
  run win keys w (Editor_new (argv !! 1%nat) w).
Section CursorInvariant.

Lemma at_Ok {A} (v : list A) (i : Z) (x : A) :
  0 <= i -> v !! Z.to_nat i = Some x -> at_ v i = Ok x.
Proof.
  intros Hi Hx. unfold at_.
  destruct (Z.ltb_spec i 0); [lia|]. now rewrite Hx.
Qed.

Lemma clamp_in (v lo hi : Z) : lo <= v <= hi -> clamp v lo hi = Ok v.
Proof.
  intros H. unfold clamp.
  destruct (Z.ltb_spec hi lo); [lia|].
  destruct (Z.ltb_spec v lo); [lia|].
  destruct (Z.ltb_spec hi v); [lia|]. reflexivity.
Qed.

Lemma len_lookup {A} (v : list A) (i : nat) (x : A) :
  v !! i = Some x -> Z.of_nat i < len v.
Proof. intros H%lookup_lt_Some. unfold len. lia. Qed.

Lemma cursor_ok_intro (e : Editor) (line : text) :
  0 <= cur_y_ e ->
  buffer_ e !! Z.to_nat (cur_y_ e) = Some line ->
  0 <= cur_x_ e <= len line ->
  cursor_ok e.
Proof.
  intros Hy Hl Hx. split; [|split].
  - intros E. rewrite E in Hl. discriminate.
  - apply len_lookup in Hl. lia.
  - eauto.
Qed.

Lemma insert_char_ok (c : ascii) (e : Editor) :
  cursor_ok e ->
  exists e', insert_char c e = Ok e' /\ cursor_ok e' /\ dirty_ e' = true.
Proof.
  intros (Hne & Hy & line & Hl & Hx). unfold insert_char.
  destruct (decide (buffer_ e = [])) as [E|_]; [contradiction|].
  rewrite (at_Ok _ _ line) by (lia || assumption). cbn.
  rewrite clamp_in by assumption. cbn.
  unfold insert1.
  destruct (Z.ltb_spec (cur_x_ e) 0); [lia|].
  destruct (Z.ltb_spec (len line) (cur_x_ e)); [lia|]. cbn.
  eexists; split; [reflexivity|]. split; [|reflexivity].
  eapply cursor_ok_intro; cbn.
  - lia.
  - apply list_lookup_insert_eq. now apply lookup_lt_Some in Hl.
  - unfold len in *. rewrite length_app. cbn.
    rewrite length_take, length_drop. lia.
Qed.

Lemma backspace_ok (e : Editor) :
  cursor_ok e -> exists e', backspace e = Ok e' /\ cursor_ok e'.
Proof.
  intros (Hne & Hy & line & Hl & Hx). unfold backspace.
  destruct (Z.ltb_spec 0 (cur_x_ e)) as [Hpos|Hzero].
  - rewrite (at_Ok _ _ line) by (lia || assumption). cbn.
    unfold erase1.
    destruct (Z.ltb_spec (cur_x_ e - 1) 0); [lia|].
    destruct (Z.ltb_spec (len line) (cur_x_ e - 1)); [lia|]. cbn.
    eexists; split; [reflexivity|].
    eapply cursor_ok_intro; cbn.
    + lia.
    + apply list_lookup_insert_eq. now apply lookup_lt_Some in Hl.
    + unfold len in *. rewrite length_app, length_take, length_drop. lia.
  - destruct (Z.ltb_spec 0 (cur_y_ e)) as [Hrow|Hrow].
    + assert (Hlt : (Nat.pred (Z.to_nat (cur_y_ e)) < length (buffer_ e))%nat).
      { apply lookup_lt_Some in Hl. lia. }
      destruct (lookup_lt_is_Some_2 _ _ Hlt) as [prev Hprev].
      assert (Hidx : Z.to_nat (cur_y_ e - 1) = Nat.pred (Z.to_nat (cur_y_ e)))
        by lia.
      rewrite <- Hidx in Hprev.
      rewrite (at_Ok (buffer_ e) (cur_y_ e - 1) prev) by (lia || assumption).
      cbn. rewrite (at_Ok _ _ line) by (lia || assumption). cbn.
      eexists; split; [reflexivity|].
      eapply cursor_ok_intro with (line := prev ++ line); cbn.
      * lia.
      * rewrite Hidx. rewrite lookup_app_l
          by (rewrite length_take, length_insert; lia).
        rewrite lookup_take_lt by lia.
        now apply list_lookup_insert_eq.
      * unfold len. rewrite length_app. lia.
    + eexists; split; [reflexivity|].
      apply (cursor_ok_intro e line); [lia | assumption | assumption].
Qed.

Lemma apply_op_ok (op : EditOp) (e : Editor) :
  cursor_ok e -> exists e', apply_op op e = Ok e' /\ cursor_ok e'.
Proof.
  intros H. destruct op as [c|]; cbn.
  - destruct (insert_char_ok c e H) as (e' & ? & ? & _). eauto.
  - now apply backspace_ok.
Qed.

End CursorInvariant.

(** C5. Every sequence of [insert_char] and [backspace] operations, started
    in a state with a non-empty document and the cursor inside it, runs to
    completion, and each state it passes through again has a non-empty
    document with [0 <= row < line_count] and [0 <= col <= len(line[row])]. *)
Theorem insert_backspace_keep_cursor_ok (ops : list EditOp) (e : Editor) :
  cursor_ok e ->
  exists trace, run_ops ops e = Ok trace /\
                length trace = length ops /\
                Forall cursor_ok trace.
Proof.
  revert e. induction ops as [|op ops IH]; intros e He.
  - exists []. repeat split; constructor.
  - destruct (apply_op_ok op e He) as (e' & Hop & He').
    destruct (IH e' He') as (trace & Hrun & Hlen & Hall).
    exists (e' :: trace). cbn [run_ops]. rewrite Hop. cbn.
    rewrite Hrun. cbn. repeat split.
    + now rewrite Hlen.
    + now constructor.
Qed.

(** Six operations on the sample document: the backspaces run into the
    start of the second line, join it to the first, and go on. *)
Lemma insert_backspace_keep_cursor_ok_witness :
  exists trace,
    run_ops [Insert "a"; Backspace; Backspace; Backspace; Backspace; Insert "b"]
            sample_editor = Ok trace /\
    length trace = 6%nat /\
    Forall cursor_ok trace.
Proof.
  apply (insert_backspace_keep_cursor_ok
           [Insert "a"; Backspace; Backspace; Backspace; Backspace; Insert "b"]
           sample_editor).
  apply (cursor_ok_intro sample_editor (str "de"));
    [unfold sample_editor; cbn; lia | reflexivity
    | unfold sample_editor, len; cbn; lia].
Defined.

(** ** Token statistics *)

Section TokenStatsFacts.

Lemma count_byte_classify (st : ByteCounts) (c : ascii) :
  count_byte st c =
  let lines' := if is_char c LF then S (bc_lines st) else bc_lines st in
  let cf := incr c (bc_charfreq st) in
  let n k := if decide (classify c = k) then 1%nat else 0%nat in
  mkByteCounts (S (bc_chars st)) lines'
               (n Digit + bc_digits st) (n Letter + bc_letters st)
               (n Whitespace + bc_whitespace st)
               (n Punctuation + bc_punctuation st) cf.
Proof.
  unfold count_byte, classify.
  destruct (isdigit c); [|destruct (isalpha c); [|destruct (isspace c)]];
    reflexivity.
Qed.

Lemma count_class_cons (k : ByteClass) (c : ascii) (content : text) :
  count_class k (c :: content)
  = ((if decide (classify c = k) then 1 else 0) + count_class k content)%nat.
Proof.
  unfold count_class. rewrite filter_cons. now case_decide.
Qed.

Lemma count_byte_fold (content : text) (st : ByteCounts) :
  let st' := fold_left count_byte content st in
  bc_chars st' = (bc_chars st + length content)%nat /\
  bc_lines st' = (bc_lines st + count_char LF content)%nat /\
  bc_digits st' = (bc_digits st + count_class Digit content)%nat /\
  bc_letters st' = (bc_letters st + count_class Letter content)%nat /\
  bc_whitespace st' = (bc_whitespace st + count_class Whitespace content)%nat /\
  bc_punctuation st' =
    (bc_punctuation st + count_class Punctuation content)%nat.
Proof.
  revert st. induction content as [|c content IH]; intros st; cbn zeta.
  - cbn. unfold count_char, count_class. cbn. repeat split; lia.
  - cbn [fold_left].
    destruct (IH (count_byte st c)) as (H1 & H2 & H3 & H4 & H5 & H6).
    rewrite H1, H2, H3, H4, H5, H6. clear IH H1 H2 H3 H4 H5 H6.
    rewrite count_byte_classify, !count_class_cons. cbn zeta.
    cbn [bc_chars bc_lines bc_digits bc_letters bc_whitespace bc_punctuation].
    repeat split; try (cbn [length]; lia).
    unfold count_char, is_char. rewrite filter_cons.
    case_bool_decide; case_decide; try congruence; cbn [length]; lia.
Qed.

Lemma token_fold (toks : list text) (n : nat) (fr : gmap text nat) :
  fold_left (fun '(totlen, fr) t => ((totlen + length t)%nat, incr t fr))
            toks (n, fr)
  = ((n + length (concat toks))%nat, fold_left (fun m t => incr t m) toks fr).
Proof.
  revert n fr. induction toks as [|t toks IH]; intros n fr; cbn.
  - f_equal. lia.
  - rewrite IH. f_equal. rewrite length_app. lia.
Qed.

Lemma incr_fold_lookup_None (toks : list text) (fr : gmap text nat) (k : text) :
  fold_left (fun m t => incr t m) toks fr !! k = None <->
  fr !! k = None /\ k ∉ toks.
Proof.
  revert fr. induction toks as [|t toks IH]; intros fr; cbn.
  - split; [intros ?; split; [done | apply not_elem_of_nil] | tauto].
  - rewrite IH. unfold incr. rewrite not_elem_of_cons.
    destruct (decide (t = k)) as [->|Hne].
    + rewrite lookup_insert_eq. split; [intros [? _]; discriminate | tauto].
    + rewrite lookup_insert_ne by done. split; intros; intuition congruence.
Qed.

Lemma incr_fold_size_le (toks : list text) (fr : gmap text nat) :
  (size (fold_left (fun m t => incr t m) toks fr) <= size fr + length toks)%nat.
Proof.
  revert fr. induction toks as [|t toks IH]; intros fr; cbn; [lia|].
  etransitivity; [apply IH|]. unfold incr. rewrite map_size_insert.
  destruct (fr !! t); cbn; lia.
Qed.

Lemma incr_fold_size_NoDup (toks : list text) (fr : gmap text nat) :
  NoDup toks -> Forall (fun t => fr !! t = None) toks ->
  size (fold_left (fun m t => incr t m) toks fr)
  = (size fr + length toks)%nat.
Proof.
  revert fr. induction toks as [|t toks IH]; intros fr Hnd Hfresh; cbn; [lia|].
  apply NoDup_cons in Hnd as [Hnotin Hnd].
  apply Forall_cons in Hfresh as [Ht Hfresh].
  rewrite IH; [| done |].
  - unfold incr. rewrite map_size_insert_None by done. lia.
  - apply Forall_forall. intros k Hk. unfold incr.
    rewrite lookup_insert_ne by (intros ->; contradiction).
    eapply Forall_forall in Hfresh; eauto.
Qed.

Lemma incr_fold_size_same (toks : list text) (fr : gmap text nat) (t : text) :
  Forall (fun k => k = t) toks -> is_Some (fr !! t) ->
  size (fold_left (fun m t => incr t m) toks fr) = size fr.
Proof.
  revert fr. induction toks as [|k toks IH]; intros fr Hall Hin; cbn; [done|].
  apply Forall_cons in Hall as [-> Hall].
  rewrite IH; [| done |].
  - unfold incr. now rewrite map_size_insert_Some.
  - unfold incr. rewrite lookup_insert_eq. eauto.
Qed.

Lemma stats_fields (content : text) :
  let st := compute_token_stats content in
  let toks := tokenize_words content in
  let bc := fold_left count_byte content (mkByteCounts 0 1 0 0 0 0 ∅) in
  tokens st = length toks /\
  unique_tokens st
    = size (fold_left (fun m t => incr t m) toks (∅ : gmap text nat)) /\
  ttr st = ratio (unique_tokens st) (tokens st) /\
  chars st = bc_chars bc /\ lines st = bc_lines bc /\
  digits st = bc_digits bc /\ letters st = bc_letters bc /\
  whitespace st = bc_whitespace bc /\ punctuation st = bc_punctuation bc.
Proof.
  cbn zeta. unfold compute_token_stats. rewrite token_fold. cbn.
  repeat split.
Qed.

End TokenStatsFacts.

(** C8. For every content, [compute_token_stats] reports
    [lines = 1 + number of newline bytes] and [chars = number of bytes]; each
    byte is counted in exactly one of the classes digit, letter, whitespace,
    punctuation (the first of that order whose test it passes), so the four
    counts are counts of disjoint sets of bytes and add up to [chars]. *)
Theorem token_stats_byte_counts (content : text) :
  let st := compute_token_stats content in
  lines st = (1 + count_char LF content)%nat /\
  chars st = length content /\
  digits st = count_class Digit content /\
  letters st = count_class Letter content /\
  whitespace st = count_class Whitespace content /\
  punctuation st = count_class Punctuation content /\
  (digits st + letters st + whitespace st + punctuation st)%nat = chars st.
Proof.
  cbn zeta.
  destruct (stats_fields content) as (_ & _ & _ & Hc & Hl & Hd & Ha & Hw & Hp).
  destruct (count_byte_fold content (mkByteCounts 0 1 0 0 0 0 ∅))
    as (H1 & H2 & H3 & H4 & H5 & H6).
  cbn zeta in *. rewrite Hc, Hl, Hd, Ha, Hw, Hp, H1, H2, H3, H4, H5, H6.
  cbn [bc_chars bc_lines bc_digits bc_letters bc_whitespace bc_punctuation].
  repeat split; try lia.
  clear. induction content as [|c content IH]; [done|].
  rewrite !count_class_cons. cbn [length].
  destruct (classify c); repeat case_decide; try congruence; lia.
Qed.

(** C9. For every content, the type-token ratio of [compute_token_stats]
    (taken as the exact quotient of the two counters) lies in [0,1] and is
    0 when there is no token; with at least one token it is 1 when the
    tokens are pairwise distinct and [1/tokens] when they are all the same
    token.  The counters themselves: there are never more unique tokens
    than tokens, as many when the tokens are distinct, and one when they
    are all the same. *)
Theorem type_token_ratio_range (content : text) :
  let st := compute_token_stats content in
  let toks := tokenize_words content in
  tokens st = length toks /\
  (unique_tokens st <= tokens st)%nat /\
  (0 <= ttr st <= 1)%Q /\
  (toks = [] -> ttr st = 0%Q) /\
  (toks <> [] -> NoDup toks ->
   unique_tokens st = tokens st /\ (ttr st == 1)%Q) /\
  (forall t, toks <> [] -> Forall (fun k => k = t) toks ->
             unique_tokens st = 1%nat /\
             ttr st = (1 # Pos.of_nat (tokens st))%Q).
Proof.
  cbn zeta.
  destruct (stats_fields content) as (Htok & Huniq & Httr & _).
  cbn zeta in *. rewrite Httr, Huniq, Htok. clear Httr Huniq Htok.
  set (toks := tokenize_words content).
  pose proof (incr_fold_size_le toks ∅) as Hle.
  rewrite map_size_empty in Hle. cbn in Hle.
  set (u := size _) in *.
  split; [done|]. split; [done|]. split; [|split; [|split]].
  - unfold ratio. destruct (Nat.eqb_spec (length toks) 0) as [|Hn].
    + split; [apply Qle_refl | discriminate].
    + unfold Qle. cbn. split; [lia|].
      rewrite Z.mul_1_r, Z.mul_1_l. rewrite <- positive_nat_Z.
      rewrite Nat2Pos.id by done. lia.
  - intros E. unfold ratio. now rewrite E.
  - intros Hne Hnd.
    assert (Hu : u = length toks).
    { subst u. rewrite incr_fold_size_NoDup; [| done |].
      - now rewrite map_size_empty.
      - apply Forall_forall. intros k _. apply lookup_empty. }
    split; [exact Hu|]. rewrite Hu. unfold ratio.
    destruct (Nat.eqb_spec (length toks) 0) as [E|Hn].
    + destruct toks; [done | discriminate].
    + unfold Qeq. cbn. rewrite Z.mul_1_r, Z.mul_1_l.
      rewrite <- positive_nat_Z. now rewrite Nat2Pos.id.
  - intros t Hne Hall.
    assert (Hu : u = 1%nat).
    { subst u. destruct toks as [|k toks']; [done|].
      apply Forall_cons in Hall as [-> Hall]. cbn [fold_left].
      rewrite (incr_fold_size_same toks' _ t Hall).
      - unfold incr. rewrite map_size_insert_None by apply lookup_empty.
        now rewrite map_size_empty.
      - unfold incr. rewrite lookup_insert_eq. eauto. }
    split; [exact Hu|]. rewrite Hu. unfold ratio.
    destruct (Nat.eqb_spec (length toks) 0) as [E|Hn]; [|reflexivity].
    destruct toks; [done | discriminate].
Qed.

(** The ratio at a content of three different tokens, and at one token
    written three times. *)
Lemma type_token_ratio_range_witness :
  (ttr (compute_token_stats (str "to be or")) == 1)%Q /\
  ttr (compute_token_stats (str "go go go"))
  = (1 # Pos.of_nat (tokens (compute_token_stats (str "go go go"))))%Q.
Proof.
  split.
  - apply (type_token_ratio_range (str "to be or")).
    + vm_compute. discriminate.
    + apply (bool_decide_unpack _). vm_compute. exact I.
  - apply (type_token_ratio_range (str "go go go")) with (t := str "go").
    + vm_compute. discriminate.
    + apply (bool_decide_unpack _). vm_compute. exact I.
Defined.

(** ** Insertion sort is a [std::sort] *)

Section InsertionSort.

Lemma insert_desc_perm (x : ngram_entry) (v : list ngram_entry) :
  Permutation (insert_desc x v) (x :: v).
Proof.
  induction v as [|y v IH]; cbn [insert_desc]; [reflexivity|].
  destruct (count_gt y x); [|reflexivity].
  rewrite IH. apply perm_swap.
Qed.

Lemma insertion_sort_perm (v : list ngram_entry) :
  Permutation (insertion_sort v) v.
Proof.
  induction v as [|x v IH]; [reflexivity|].
  change (insertion_sort (x :: v)) with (insert_desc x (insertion_sort v)).
  rewrite insert_desc_perm. now constructor.
Qed.

Lemma insert_desc_sorted (x : ngram_entry) (v : list ngram_entry) :
  StronglySorted (fun a b => count_gt b a = false) v ->
  StronglySorted (fun a b => count_gt b a = false) (insert_desc x v).
Proof.
  induction 1 as [|y v Hs IH Hall]; cbn [insert_desc].
  - repeat constructor.
  - destruct (count_gt y x) eqn:Hyx.
    + constructor; [done|].
      rewrite insert_desc_perm. constructor; [|done].
      unfold count_gt in *. apply Nat.ltb_lt in Hyx. apply Nat.ltb_ge. lia.
    + constructor; [now constructor|].
      constructor; [done|].
      eapply Forall_impl; [exact Hall|]. cbn. intros z Hz.
      unfold count_gt in *. apply Nat.ltb_ge in Hyx, Hz. apply Nat.ltb_ge. lia.
Qed.

Lemma insertion_sort_sorted (v : list ngram_entry) :
  StronglySorted (fun a b => count_gt b a = false) (insertion_sort v).
Proof.
  induction v as [|x v IH]; [constructor|].
  change (insertion_sort (x :: v)) with (insert_desc x (insertion_sort v)).
  now apply insert_desc_sorted.
Qed.

End InsertionSort.

Global Instance insertion_StdSort : StdSort := {|
  std_sort := insertion_sort;
  std_sort_perm := insertion_sort_perm;
  std_sort_sorted := insertion_sort_sorted
|}.

(** ** The command dispatcher *)

Ltac decide_text :=
  match goal with
  | |- context [decide (?a = ?b)] =>
      let E := fresh "E" in
      destruct (decide (a = b)) as [E|E];
      [ try (exfalso; vm_compute in E; discriminate E)
      | try (exfalso; apply E; reflexivity) ]
  end.

Section Dispatcher.
Context `{StdSort}.

Lemma parsed_nonempty (raw : text) (cmd : text) (args : list text) :
  split_ws (trim_copy raw) = cmd :: args -> trim_copy raw <> [].
Proof. intros Hp E. rewrite E in Hp. discriminate Hp. Qed.

(** [w]: the buffer is saved under the argument, or under the current
    file name when there is none. *)
Lemma execute_w (raw : text) (args : list text) (w : World) (e : Editor) :
  split_ws (trim_copy raw) = str "w" :: args ->
  execute_command raw w e
  = let '(w', e') := save_file (default (filename_ e) (head args)) w e in
    Ok (w', e', false).
Proof.
  intros Hp. unfold execute_command. cbn zeta.
  destruct (decide (trim_copy raw = [])) as [E|_];
    [now apply parsed_nonempty in Hp|].
  rewrite Hp. change (part (str "w" :: args) 0) with (str "w").
  do 3 decide_text.
  destruct args as [|a args]; reflexivity.
Qed.

Lemma execute_q (raw : text) (args : list text) (w : World) (e : Editor) :
  split_ws (trim_copy raw) = str "q" :: args ->
  execute_command raw w e
  = if dirty_ e
    then Ok (w, set_status (str "Unsaved changes! Use :q! to force quit.") e,
             false)
    else Ok (w, e, true).
Proof.
  intros Hp. unfold execute_command. cbn zeta.
  destruct (decide (trim_copy raw = [])) as [E|_];
    [now apply parsed_nonempty in Hp|].
  rewrite Hp. change (part (str "q" :: args) 0) with (str "q").
  decide_text. reflexivity.
Qed.

Lemma execute_o (raw : text) (path : text) (rest : list text)
    (w : World) (e : Editor) :
  split_ws (trim_copy raw) = str "o" :: path :: rest ->
  execute_command raw w e
  = if dirty_ e
    then Ok (w, set_status (str "Unsaved changes! Save with :w first.") e,
             false)
    else Ok (w, open_file path w e, false).
Proof.
  intros Hp. unfold execute_command. cbn zeta.
  destruct (decide (trim_copy raw = [])) as [E|_];
    [now apply parsed_nonempty in Hp|].
  rewrite Hp. change (part (str "o" :: path :: rest) 0) with (str "o").
  do 4 decide_text. reflexivity.
Qed.

Lemma save_file_ok (path : text) (w : World) (e : Editor) :
  writable w path = true ->
  save_file path w e
  = (set_files (<[path := join_lines (buffer_ e)]> (files w)) w,
     set_dirty false (set_status (str "Saved " ++ path) (set_filename path e))).
Proof. intros Hw. unfold save_file, write_text_file. now rewrite Hw. Qed.

Lemma save_file_fails (path : text) (w : World) (e : Editor) :
  writable w path = false ->
  save_file path w e
  = (w, set_status (str "Error: could not save " ++ path) e).
Proof. intros Hw. unfold save_file, write_text_file. now rewrite Hw. Qed.

End Dispatcher.

(** C6. [insert_char] leaves the dirty flag set (and it returns whenever
    the cursor is inside the document); a [w] command whose write succeeds
    leaves it clear; a [q] command given while it is set does not ask to
    quit and leaves the lines of the document as they were. *)
Theorem dirty_flag_scenario `{StdSort} (c : ascii) (raw_w raw_q : text)
    (args_w args_q : list text) (w : World) (e : Editor) :
  (forall e', insert_char c e = Ok e' -> dirty_ e' = true) /\
  (cursor_ok e -> exists e', insert_char c e = Ok e' /\ dirty_ e' = true) /\
  (split_ws (trim_copy raw_w) = str "w" :: args_w ->
   writable w (default (filename_ e) (head args_w)) = true ->
   exists w' e', execute_command raw_w w e = Ok (w', e', false) /\
                 dirty_ e' = false) /\
  (split_ws (trim_copy raw_q) = str "q" :: args_q ->
   dirty_ e = true ->
   exists e', execute_command raw_q w e = Ok (w, e', false) /\
              buffer_ e' = buffer_ e).
Proof.
  split; [|split; [|split]].
  - intros e'. unfold insert_char.
    destruct (at_ _ _) as [line| |]; cbn; try discriminate.
    destruct (clamp _ _ _) as [x| |]; cbn; try discriminate.
    destruct (insert1 _ _ _) as [line'| |]; cbn; try discriminate.
    now intros [= <-].
  - intros He. destruct (insert_char_ok c e He) as (e' & ? & _ & ?). eauto.
  - intros Hp Hw. rewrite (execute_w _ _ _ _ Hp), (save_file_ok _ _ _ Hw).
    eauto.
  - intros Hp Hd. rewrite (execute_q _ _ _ _ Hp), Hd. eauto.
Qed.

(** The scenario at a sample session: type a character, save, and ask to
    quit with unsaved changes. *)
Lemma dirty_flag_scenario_witness :
  (exists e', insert_char "x" sample_editor = Ok e' /\ dirty_ e' = true) /\
  (exists w' e', execute_command (str "w") sample_world sample_editor
                 = Ok (w', e', false) /\ dirty_ e' = false) /\
  (exists e', execute_command (str " q ") sample_world
                (set_dirty true sample_editor) = Ok (sample_world, e', false) /\
              buffer_ e' = buffer_ (set_dirty true sample_editor)).
Proof.
  split; [|split].
  - apply (dirty_flag_scenario "x" [] [] [] [] sample_world sample_editor).
    apply (cursor_ok_intro _ (str "de"));
      [unfold sample_editor; cbn; lia | reflexivity
      | unfold sample_editor, len; cbn; lia].
  - apply (dirty_flag_scenario "x" (str "w") [] [] [] sample_world
             sample_editor); reflexivity.
  - apply (dirty_flag_scenario "x" [] (str " q ") [] [] sample_world
             (set_dirty true sample_editor)); reflexivity.
Defined.

(** C1 (the code departs from the claim).  A [tok ngram] or [tok perm]
    line whose number does not parse makes [std::stoul] or [std::stoull]
    throw; the dispatcher has no handler, and neither has [command_loop]
    above it, so the exception leaves both instead of becoming a status
    text. *)
Theorem dispatcher_throws_on_bad_number `{StdSort} (w : World) (e : Editor) :
  execute_command (str "tok ngram abc") w e = Throw InvalidArgument /\
  execute_command (str "tok perm 2 x") w e = Throw InvalidArgument /\
  execute_command (str "tok ngram 99999999999999999999999") w e = Throw OutOfRange /\
  command_loop 13 w (set_cmdbuf (str "tok ngram abc") e)
  = Throw InvalidArgument.
Proof. repeat split; vm_compute; reflexivity. Qed.

(** C3, as stated, fails: opening a path that cannot be read replaces the
    two lines of the sample document by one empty line. *)
Lemma open_unreadable_replaces_document :
  read_text_file (str "nofile") sample_world = None /\
  dirty_ sample_editor = false /\
  buffer_ sample_editor = [str "abc"; str "de"] /\
  exists e', execute_command (str "o nofile") sample_world sample_editor
             = Ok (sample_world, e', false) /\
             buffer_ e' = [[]] /\
             buffer_ e' <> buffer_ sample_editor.
Proof.
  repeat split. eexists. split; [vm_compute; reflexivity|].
  split; [reflexivity | discriminate].
Qed.

(** C3, amended.  With the dirty flag clear, [o <path>] on a path that
    cannot be read starts a new file: the status reads "New file: <path>",
    the document becomes one empty line, [<path>] becomes the current file
    name, cursor and viewport return to the origin, the dirty flag stays
    clear, and the world is untouched. *)
Theorem open_unreadable_starts_new_file `{StdSort} (raw path : text)
    (rest : list text) (w : World) (e : Editor) :
  split_ws (trim_copy raw) = str "o" :: path :: rest ->
  read_text_file path w = None ->
  dirty_ e = false ->
  execute_command raw w e
  = Ok (w, mkEditor [[]] path (str "New file: " ++ path) (mode_ e) (cmdbuf_ e)
                    false 0 0 0 0, false).
Proof.
  intros Hp Hr Hd. rewrite (execute_o _ _ _ _ _ Hp), Hd.
  unfold open_file. now rewrite Hr.
Qed.

Lemma open_unreadable_starts_new_file_witness :
  execute_command (str "o nofile") sample_world sample_editor
  = Ok (sample_world,
        mkEditor [[]] (str "nofile") (str "New file: " ++ str "nofile")
                 (mode_ sample_editor) (cmdbuf_ sample_editor) false 0 0 0 0,
        false).
Proof.
  apply (open_unreadable_starts_new_file (str "o nofile") (str "nofile") []);
    reflexivity.
Defined.

Section FileName.

Lemma apply_op_filename (op : EditOp) (e e' : Editor) :
  apply_op op e = Ok e' -> filename_ e' = filename_ e.
Proof.
  destruct op as [c|]; cbn [apply_op].
  - unfold insert_char.
    destruct (decide (buffer_ e = [])); cbn;
      (destruct (at_ _ _) as [line| |]; cbn; try discriminate;
       destruct (clamp _ _ _) as [x| |]; cbn; try discriminate;
       destruct (insert1 _ _ _) as [line'| |]; cbn; try discriminate;
       now intros [= <-]).
  - unfold backspace.
    destruct (0 <? cur_x_ e).
    + destruct (at_ _ _) as [line| |]; cbn; try discriminate.
      destruct (erase1 _ _) as [line'| |]; cbn; try discriminate.
      now intros [= <-].
    + destruct (0 <? cur_y_ e); [|now intros [= <-]].
      destruct (at_ _ (cur_y_ e - 1)) as [prev| |]; cbn; try discriminate.
      destruct (at_ _ _) as [cur| |]; cbn; try discriminate.
      now intros [= <-].
Qed.

Lemma run_ops_filename (ops : list EditOp) (e : Editor) (trace : list Editor) :
  run_ops ops e = Ok trace ->
  filename_ (default e (last trace)) = filename_ e.
Proof.
  revert e trace. induction ops as [|op ops IH]; intros e trace; cbn.
  - now intros [= <-].
  - destruct (apply_op op e) as [e1| |] eqn:Hop; cbn; try discriminate.
    destruct (run_ops ops e1) as [rest| |] eqn:Hrun; cbn; try discriminate.
    intros [= <-]. specialize (IH e1 rest Hrun).
    apply apply_op_filename in Hop.
    assert (Hlast : last (e1 :: rest) = Some (default e1 (last rest))).
    { destruct rest as [|e2 rest]; [reflexivity|]. rewrite last_cons_cons.
      destruct (last (e2 :: rest)) eqn:E; [reflexivity|].
      apply last_None in E. discriminate E. }
    rewrite Hlast. cbn [default from_option id]. congruence.
Qed.

End FileName.

(** C10.  A [w <path>] whose write succeeds makes [<path>] the current
    file name; after any further insert and backspace operations a [w]
    without argument writes the buffer to [<path>] and to no other file,
    and keeps the name.  A [w <path>] whose write fails leaves the current
    file name as it was. *)
Theorem save_as_renames `{StdSort} (raw path : text) (rest : list text)
    (w : World) (e : Editor) :
  split_ws (trim_copy raw) = str "w" :: path :: rest ->
  (writable w path = true ->
   exists w1 e1,
     execute_command raw w e = Ok (w1, e1, false) /\
     filename_ e1 = path /\
     forall (ops : list EditOp) (trace : list Editor) (raw2 : text) (w2 : World),
       run_ops ops e1 = Ok trace ->
       split_ws (trim_copy raw2) = [str "w"] ->
       writable w2 path = true ->
       let e2 := default e1 (last trace) in
       exists w3 e3,
         execute_command raw2 w2 e2 = Ok (w3, e3, false) /\
         files w3 !! path = Some (join_lines (buffer_ e2)) /\
         (forall p, p <> path -> files w3 !! p = files w2 !! p) /\
         filename_ e3 = path) /\
  (writable w path = false ->
   exists e1, execute_command raw w e = Ok (w, e1, false) /\
              filename_ e1 = filename_ e).
Proof.
  intros Hp. split.
  - intros Hw. rewrite (execute_w _ _ _ _ Hp). cbn [head default from_option id].
    rewrite (save_file_ok _ _ _ Hw). do 2 eexists.
    split; [reflexivity|]. split; [reflexivity|].
    intros ops trace raw2 w2 Hrun Hp2 Hw2.
    set (e2 := default _ (last trace)).
    assert (Hname : filename_ e2 = path) by apply (run_ops_filename _ _ _ Hrun).
    rewrite (execute_w _ _ _ _ Hp2). cbn [head default from_option id]. rewrite Hname.
    rewrite (save_file_ok _ _ _ Hw2). do 2 eexists.
    split; [reflexivity|]. cbn. split; [apply lookup_insert_eq|].
    split; [|reflexivity].
    intros p Hne. now apply lookup_insert_ne.
  - intros Hw. rewrite (execute_w _ _ _ _ Hp). cbn [head default from_option id].
    rewrite (save_file_fails _ _ _ Hw). eauto.
Qed.

(** Save the sample document as [copy.txt], type a character, and save
    again; and try to save it under a path that cannot be written. *)
Lemma save_as_renames_witness :
  (exists w1 e1 trace w3 e3,
     execute_command (str "w copy.txt") sample_world sample_editor
     = Ok (w1, e1, false) /\
     filename_ e1 = str "copy.txt" /\
     run_ops [Insert "!"] e1 = Ok trace /\
     execute_command (str "w") w1 (default e1 (last trace))
     = Ok (w3, e3, false) /\
     files w3 !! str "copy.txt"
     = Some (join_lines (buffer_ (default e1 (last trace)))) /\
     filename_ e3 = str "copy.txt") /\
  (exists e1, execute_command (str "w /ro/x") sample_world sample_editor
              = Ok (sample_world, e1, false) /\
              filename_ e1 = filename_ sample_editor).
Proof.
  split.
  - destruct (proj1 (save_as_renames (str "w copy.txt") (str "copy.txt") []
                       sample_world sample_editor eq_refl) eq_refl)
      as (w1 & e1 & H1 & H2 & H3).
    assert (Hrun : exists trace, run_ops [Insert "!"] e1 = Ok trace).
    { rewrite (execute_w _ [str "copy.txt"]) in H1 by reflexivity.
      injection H1 as _ <-. eexists. vm_compute. reflexivity. }
    destruct Hrun as [trace Hrun].
    assert (Hw1 : writable w1 (str "copy.txt") = true).
    { rewrite (execute_w _ [str "copy.txt"]) in H1 by reflexivity.
      injection H1 as <- _. reflexivity. }
    destruct (H3 [Insert "!"] trace (str "w") w1 Hrun eq_refl Hw1)
      as (w3 & e3 & H4 & H5 & _ & H6).
    exists w1, e1, trace, w3, e3. repeat split; assumption.
  - apply (save_as_renames (str "w /ro/x") (str "/ro/x") []); reflexivity.
Defined.

(** ** Saving and loading *)

Section SaveLoad.

Lemma read_until_lf_line (l r : text) :
  LF ∉ l -> read_until_lf (l ++ LF :: r) = (l, r).
Proof.
  induction l as [|c l IH]; intros Hl; cbn.
  - unfold is_char. now rewrite bool_decide_eq_true_2.
  - apply not_elem_of_cons in Hl as [Hc Hl]. unfold is_char.
    rewrite bool_decide_eq_false_2 by congruence. now rewrite IH.
Qed.

Lemma read_until_lf_last (l : text) :
  LF ∉ l -> read_until_lf l = (l, []).
Proof.
  induction l as [|c l IH]; intros Hl; cbn; [done|].
  apply not_elem_of_cons in Hl as [Hc Hl]. unfold is_char.
  rewrite bool_decide_eq_false_2 by congruence. now rewrite IH.
Qed.

Lemma pop_cr_plain (l : text) : last l <> Some CR -> pop_cr l = l.
Proof.
  intros Hl. unfold pop_cr. destruct (last l) as [c|]; [|done].
  unfold is_char. rewrite bool_decide_eq_false_2; [done | congruence].
Qed.

Lemma join_lines_cons (l l2 : text) (b : list text) :
  join_lines (l :: l2 :: b) = l ++ LF :: join_lines (l2 :: b).
Proof. reflexivity. Qed.

Lemma join_lines_snoc (b : list text) (l x : text) :
  join_lines (b ++ [l; x]) = join_lines (b ++ [l]) ++ LF :: x.
Proof.
  induction b as [|y b IH]; [reflexivity|].
  destruct b as [|y2 b].
  - cbn. now rewrite <- app_assoc.
  - cbn [app] in *. rewrite !join_lines_cons, IH. now rewrite <- app_assoc.
Qed.

Lemma without_empty_last_cons (l l2 : text) (b : list text) :
  without_empty_last (l :: l2 :: b) = l :: without_empty_last (l2 :: b).
Proof.
  unfold without_empty_last. rewrite last_cons_cons.
  destruct (decide (last (l2 :: b) = Some [])); reflexivity.
Qed.

(** The loop has fuel for every byte, and returns the lines written. *)
Lemma getline_loop_join (b : list text) (fuel : nat) (acc : list text) :
  Forall plain_line b ->
  (length (join_lines b) <= fuel)%nat ->
  getline_loop fuel (join_lines b) acc = acc ++ without_empty_last b.
Proof.
  revert fuel acc. induction b as [|l b IH]; intros fuel acc Hb Hfuel.
  - destruct fuel; cbn; now rewrite app_nil_r.
  - apply Forall_cons in Hb as [[Hlf Hcr] Hb].
    destruct b as [|l2 b].
    + change (join_lines [l]) with l in *.
      destruct l as [|c l].
      * destruct fuel; cbn; now rewrite app_nil_r.
      * destruct fuel as [|fuel]; [cbn in Hfuel; lia|].
        cbn [getline_loop getline]. rewrite read_until_lf_last by done.
        rewrite pop_cr_plain by done.
        destruct fuel; reflexivity.
    + rewrite join_lines_cons in *. rewrite length_app in Hfuel.
      cbn [length] in Hfuel.
      destruct fuel as [|fuel]; [lia|].
      cbn [getline_loop].
      assert (Hget : getline (l ++ LF :: join_lines (l2 :: b))
                     = Some (l, join_lines (l2 :: b))).
      { unfold getline. rewrite read_until_lf_line by done.
        now destruct l. }
      rewrite Hget, pop_cr_plain by done.
      rewrite IH by (done || lia).
      rewrite without_empty_last_cons. now rewrite <- app_assoc.
Qed.

Lemma last_join_lines (b : list text) (l : text) :
  last b = Some l -> l <> [] -> last (join_lines b) = last l.
Proof.
  induction b as [|y b IH]; [discriminate|].
  destruct b as [|y2 b].
  - now intros [= ->].
  - rewrite last_cons_cons, join_lines_cons. intros Hl Hne.
    specialize (IH Hl Hne). rewrite last_app_cons.
    destruct (join_lines (y2 :: b)) as [|c r] eqn:E.
    + cbn in IH. symmetry in IH. apply last_None in IH. contradiction.
    + now rewrite last_cons_cons.
Qed.

Lemma load_lines_join (b : list text) :
  Forall plain_line b -> ends_plainly b -> load_lines (join_lines b) = b.
Proof.
  intros Hb Hend. unfold load_lines.
  rewrite getline_loop_join by (done || lia). cbn [app].
  destruct Hend as [Hlast | (b' & l & -> & Hl)].
  - unfold without_empty_last.
    destruct (decide (last b = Some [])) as [|_]; [done|].
    rewrite bool_decide_eq_false_2; [reflexivity|].
    destruct (last b) as [l|] eqn:El.
    + assert (Hne : l <> []) by congruence.
      rewrite (last_join_lines b l El Hne).
      assert (Hin : plain_line l).
      { eapply Forall_forall; [exact Hb|]. apply last_Some_elem_of, El. }
      destruct Hin as [Hlf _]. intros E. apply Hlf.
      now apply last_Some_elem_of.
    + apply last_None in El. now subst b.
  - rewrite join_lines_snoc. unfold without_empty_last.
    replace (b' ++ [l; []]) with ((b' ++ [l]) ++ [[]])
      by now rewrite <- app_assoc.
    rewrite !last_snoc.
    destruct (decide (Some [] = Some ([] : text))) as [_|]; [|done].
    rewrite removelast_last, !last_snoc.
    rewrite bool_decide_eq_true_2 by done.
    rewrite (bool_decide_eq_false_2 (Some l = Some [])) by congruence.
    now rewrite orb_true_r.
Qed.

End SaveLoad.

(** C2, as stated, fails: a document that ends in two empty lines comes
    back one line shorter, and a line that ends in a carriage return comes
    back without it. *)
Lemma save_then_open_loses_lines :
  let doc := [str "a"; []; []] in
  let doc' := [str "a" ++ [CR]] in
  writable sample_world (str "f.txt") = true /\
  Forall (fun l => LF ∉ l) doc /\ Forall (fun l => LF ∉ l) doc' /\
  buffer_ (save_then_open (str "f.txt") sample_world
             (set_buffer doc sample_editor)) = [str "a"; []] /\
  buffer_ (save_then_open (str "f.txt") sample_world
             (set_buffer doc sample_editor)) <> doc /\
  buffer_ (save_then_open (str "f.txt") sample_world
             (set_buffer doc' sample_editor)) = [str "a"] /\
  buffer_ (save_then_open (str "f.txt") sample_world
             (set_buffer doc' sample_editor)) <> doc'.
Proof.
  cbn zeta. split; [reflexivity|].
  split; [repeat constructor; apply (bool_decide_unpack _); vm_compute; exact I|].
  split; [repeat constructor; apply (bool_decide_unpack _); vm_compute; exact I|].
  split; [vm_compute; reflexivity|].
  split; [vm_compute; discriminate|].
  split; [vm_compute; reflexivity | vm_compute; discriminate].
Qed.

(** C2, amended.  When the write succeeds, no line contains a newline or
    ends in a carriage return, and the document ends in a non-empty line
    or in a non-empty line followed by one empty line, saving it and
    opening the saved file gives back the same sequence of lines. *)
Theorem save_then_open_roundtrip (path : text) (w : World) (e : Editor) :
  writable w path = true ->
  Forall plain_line (buffer_ e) ->
  ends_plainly (buffer_ e) ->
  buffer_ (save_then_open path w e) = buffer_ e.
Proof.
  intros Hw Hb Hend. unfold save_then_open, save_file, write_text_file.
  rewrite Hw. unfold open_file, read_text_file. cbn [files set_files].
  rewrite lookup_insert_eq. cbn [buffer_].
  now apply load_lines_join.
Qed.

Lemma save_then_open_roundtrip_witness :
  buffer_ (save_then_open (str "f.txt") sample_world
             (set_buffer [str "a b"; []; str "c" ++ CR :: str "d"; []]
                sample_editor))
  = [str "a b"; []; str "c" ++ CR :: str "d"; []].
Proof.
  apply (save_then_open_roundtrip (str "f.txt") sample_world
           (set_buffer [str "a b"; []; str "c" ++ CR :: str "d"; []]
              sample_editor)).
  - reflexivity.
  - repeat constructor; try discriminate;
      apply (bool_decide_unpack _); vm_compute; exact I.
  - right. exists [str "a b"; []], (str "c" ++ CR :: str "d").
    split; [reflexivity | discriminate].
Defined.

(** ** The permutation composer *)

Section Permutations.

Lemma fill_line_digits (j : nat) (t : N) (line : text) :
  (j <= length line)%nat ->
  fill_line j t line = digits_msb j t ++ drop j line.
Proof.
  revert t line. induction j as [|j IH]; intros t line Hj; [reflexivity|].
  cbn [fill_line digits_msb].
  change (N.of_nat (length SAFE_ALPHABET)) with 3%N.
  rewrite IH by (rewrite length_insert; lia).
  rewrite insert_take_drop by lia.
  rewrite drop_app_length' by (rewrite length_take; lia).
  now rewrite <- app_assoc.
Qed.

Lemma digits_msb_length (j : nat) (t : N) : length (digits_msb j t) = j.
Proof.
  revert t. induction j as [|j IH]; intros t; [reflexivity|].
  cbn [digits_msb]. rewrite length_app, IH. cbn. lia.
Qed.

Lemma symbol_cases (d : N) :
  (d < 3)%N -> symbol d ∈ SAFE_ALPHABET /\ symbol_value (symbol d) = d.
Proof.
  intros Hd.
  assert (Hc : d = 0%N \/ d = 1%N \/ d = 2%N) by lia.
  destruct Hc as [-> | [-> | ->]]; (split; [|reflexivity]);
    apply (bool_decide_unpack _); vm_compute; exact I.
Qed.

Lemma digits_msb_alphabet (j : nat) (t : N) :
  Forall (fun c => c ∈ SAFE_ALPHABET) (digits_msb j t).
Proof.
  revert t. induction j as [|j IH]; intros t; cbn [digits_msb]; [constructor|].
  apply Forall_app. split; [apply IH|].
  constructor; [|constructor].
  apply symbol_cases. apply N.mod_lt. discriminate.
Qed.

Lemma base3_value_snoc (s : text) (c : ascii) :
  base3_value (s ++ [c]) = (3 * base3_value s + symbol_value c)%N.
Proof. unfold base3_value. now rewrite fold_left_app. Qed.

Lemma digits_msb_value (j : nat) (t : N) :
  base3_value (digits_msb j t) = (t mod 3 ^ N.of_nat j)%N.
Proof.
  revert t. induction j as [|j IH]; intros t.
  - cbn. now rewrite N.mod_1_r.
  - cbn [digits_msb]. rewrite base3_value_snoc, IH.
    destruct (symbol_cases (t mod 3)%N) as [_ ->];
      [apply N.mod_lt; discriminate|].
    rewrite Nat2N.inj_succ, N.pow_succ_r'.
    rewrite N.Div0.mod_mul_r. lia.
Qed.

Lemma unlines_cons (s : text) (strs : list text) :
  unlines (s :: strs) = s ++ [LF] ++ unlines strs.
Proof. unfold unlines. cbn. now rewrite <- app_assoc. Qed.

Lemma perm_loop_unlines (len count : nat) (i : N) (line out : text) :
  length line = len ->
  perm_loop len count i line out
  = out ++ unlines (map (fun k => digits_msb len (i + N.of_nat k)%N)
                        (seq 0 count)).
Proof.
  revert i line out. induction count as [|count IH]; intros i line out Hlen.
  - cbn. now rewrite app_nil_r.
  - cbn [perm_loop].
    rewrite fill_line_digits by lia.
    rewrite drop_ge, app_nil_r by lia.
    rewrite IH by apply digits_msb_length.
    cbn [seq map]. rewrite unlines_cons, <- seq_shift, map_map.
    rewrite N.add_0_r, <- !app_assoc. do 4 f_equal.
    apply map_ext. intros k. f_equal. lia.
Qed.

Lemma safe_pow_u64_small (len : N) :
  (len <= 10)%N -> safe_pow_u64 3 len = Some (3 ^ len)%N.
Proof.
  intros Hlen.
  assert (Hc : In len [0; 1; 2; 3; 4; 5; 6; 7; 8; 9; 10]%N).
  { cbn. lia. }
  cbn in Hc. intuition subst; reflexivity.
Qed.

Lemma clamp_limit_min (limit : N) : clamp_limit limit = N.min limit MAXL.
Proof. unfold clamp_limit. destruct (N.ltb_spec MAXL limit); lia. Qed.

End Permutations.

(** C4.  For [len] in [1,10] and [limit >= 1] the composer, with the clamp
    of [tok_perm] on [limit], writes [min(limit, 3^len, 5000)] lines; the
    line of index [i] has [len] symbols of the alphabet and is the number
    [i] in base 3, first symbol most significant, so the lines come in
    increasing counting order.  For [len = 0], [len > 10] or [limit = 0]
    the output is empty; for [len = 2] and [limit = 100] it is the nine
    lines 11, 12, 13, 21, 22, 23, 31, 32, 33. *)
Theorem permutations_enumerate (len limit : N) :
  ((1 <= len <= 10)%N -> (1 <= limit)%N ->
   exists strs,
     compose_permutations len (clamp_limit limit) = unlines strs /\
     N.of_nat (length strs) = N.min limit (N.min (3 ^ len) 5000) /\
     forall i s, strs !! i = Some s ->
       length s = N.to_nat len /\
       Forall (fun c => c ∈ SAFE_ALPHABET) s /\
       base3_value s = N.of_nat i) /\
  ((len = 0 \/ 10 < len \/ limit = 0)%N ->
   compose_permutations len (clamp_limit limit) = []) /\
  compose_permutations 2 (clamp_limit 100)
  = unlines (map str ["11"; "12"; "13"; "21"; "22"; "23"; "31"; "32"; "33"]%string).
Proof.
  split; [|split].
  - intros Hlen Hlimit.
    set (total := N.min (3 ^ len) (clamp_limit limit)).
    exists (map (fun k => digits_msb (N.to_nat len) (N.of_nat k))
                (seq 0 (N.to_nat total))).
    split; [|split].
    + unfold compose_permutations.
      destruct (N.eqb_spec len 0); [lia|].
      destruct (N.ltb_spec 10 len); [lia|].
      destruct (N.eqb_spec (clamp_limit limit) 0);
        [rewrite clamp_limit_min in *; unfold MAXL in *; lia|].
      cbn [orb]. change (N.of_nat (length SAFE_ALPHABET)) with 3%N.
      rewrite safe_pow_u64_small by lia. fold total.
      rewrite perm_loop_unlines by apply length_replicate.
      reflexivity.
    + rewrite length_map, length_seq, N2Nat.id. subst total.
      rewrite clamp_limit_min. unfold MAXL. lia.
    + intros i s Hs.
      apply list_lookup_fmap_Some in Hs as (k & -> & Hk).
      apply lookup_seq in Hk as [-> Hi]. cbn [Nat.add].
      split; [apply digits_msb_length|].
      split; [apply digits_msb_alphabet|].
      rewrite digits_msb_value, N2Nat.id. apply N.mod_small.
      subst total. lia.
  - intros Hc. unfold compose_permutations.
    destruct (N.eqb_spec len 0); [reflexivity|].
    destruct (N.ltb_spec 10 len); [reflexivity|].
    destruct (N.eqb_spec (clamp_limit limit) 0); [reflexivity|].
    exfalso. rewrite clamp_limit_min in *. unfold MAXL in *. lia.
  - vm_compute. reflexivity.
Qed.

(** The first seven strings of length three. *)
Lemma permutations_enumerate_witness :
  exists strs,
    compose_permutations 3 (clamp_limit 7) = unlines strs /\
    N.of_nat (length strs) = N.min 7 (N.min (3 ^ 3) 5000) /\
    forall i s, strs !! i = Some s ->
      length s = N.to_nat 3 /\
      Forall (fun c => c ∈ SAFE_ALPHABET) s /\
      base3_value s = N.of_nat i.
Proof. apply (permutations_enumerate 3 7); lia. Defined.

(** ** N-grams *)

(** Lexicographic comparison is a strict total order when the comparison
    of the elements is one. *)
Section ListCompare.
Context {A : Type} (cmp : A -> A -> comparison).
Hypothesis cmp_eq : forall x y, cmp x y = Eq <-> x = y.
Hypothesis cmp_trans : forall x y z, cmp x y = Lt -> cmp y z = Lt -> cmp x z = Lt.
Hypothesis cmp_gt : forall x y, cmp x y = Gt -> cmp y x = Lt.

Lemma list_compare_eq (a b : list A) : list_compare cmp a b = Eq <-> a = b.
Proof.
  revert b. induction a as [|x a IH]; intros [|y b]; cbn;
    try (split; intros; discriminate); [tauto|].
  destruct (cmp x y) eqn:E.
  - apply cmp_eq in E as ->. rewrite IH. split; congruence.
  - split; [discriminate|]. intros [= -> ->].
    rewrite (proj2 (cmp_eq y y) eq_refl) in E. discriminate.
  - split; [discriminate|]. intros [= -> ->].
    rewrite (proj2 (cmp_eq y y) eq_refl) in E. discriminate.
Qed.

Lemma list_compare_trans (a b c : list A) :
  list_compare cmp a b = Lt -> list_compare cmp b c = Lt ->
  list_compare cmp a c = Lt.
Proof.
  revert b c. induction a as [|x a IH]; intros [|y b] [|z c]; cbn;
    try discriminate; try reflexivity.
  destruct (cmp x y) eqn:Exy; try discriminate.
  - apply cmp_eq in Exy as ->.
    destruct (cmp y z); try discriminate; [apply IH | reflexivity].
  - intros _. destruct (cmp y z) eqn:Eyz; try discriminate.
    + apply cmp_eq in Eyz as <-. now rewrite Exy.
    + now rewrite (cmp_trans _ _ _ Exy Eyz).
Qed.

Lemma list_compare_gt (a b : list A) :
  list_compare cmp a b = Gt -> list_compare cmp b a = Lt.
Proof.
  revert b. induction a as [|x a IH]; intros [|y b]; cbn;
    try discriminate; try reflexivity.
  destruct (cmp x y) eqn:Exy; try discriminate.
  - apply cmp_eq in Exy as ->.
    rewrite (proj2 (cmp_eq y y) eq_refl). apply IH.
  - intros _. now rewrite (cmp_gt _ _ Exy).
Qed.

End ListCompare.

Section KeyOrder.

Lemma byte_compare_eq (x y : ascii) : byte_compare x y = Eq <-> x = y.
Proof.
  unfold byte_compare. rewrite Nat.compare_eq_iff. split; [|congruence].
  intros E. rewrite <- (ascii_nat_embedding x), <- (ascii_nat_embedding y).
  now rewrite E.
Qed.

Lemma byte_compare_trans (x y z : ascii) :
  byte_compare x y = Lt -> byte_compare y z = Lt -> byte_compare x z = Lt.
Proof. unfold byte_compare. rewrite !Nat.compare_lt_iff. lia. Qed.

Lemma byte_compare_gt (x y : ascii) :
  byte_compare x y = Gt -> byte_compare y x = Lt.
Proof.
  unfold byte_compare. rewrite Nat.compare_gt_iff, Nat.compare_lt_iff. lia.
Qed.

Lemma key_compare_eq (a b : list text) : key_compare a b = Eq <-> a = b.
Proof.
  apply list_compare_eq. apply list_compare_eq. apply byte_compare_eq.
Qed.

Lemma key_compare_trans (a b c : list text) :
  key_compare a b = Lt -> key_compare b c = Lt -> key_compare a c = Lt.
Proof.
  apply list_compare_trans.
  - apply list_compare_eq, byte_compare_eq.
  - apply list_compare_trans; [apply byte_compare_eq | apply byte_compare_trans].
Qed.

Lemma key_compare_gt (a b : list text) :
  key_compare a b = Gt -> key_compare b a = Lt.
Proof.
  apply list_compare_gt.
  - apply list_compare_eq, byte_compare_eq.
  - apply list_compare_gt; [apply byte_compare_eq | apply byte_compare_gt].
Qed.

Lemma key_compare_lt_ne (a b : list text) : key_compare a b = Lt -> a <> b.
Proof. intros E ->. rewrite (proj2 (key_compare_eq b b) eq_refl) in E. discriminate. Qed.

End KeyOrder.

Section NgramMap.

Lemma get_count_absent (key : list text) (m : list ngram_entry) :
  Forall (fun e => e.1 <> key) m -> get_count key m = O.
Proof.
  induction 1 as [|[k c] m Hk _ IH]; cbn; [reflexivity|].
  now destruct (decide (k = key)).
Qed.

Lemma key_lt_absent (k : list text) (m : list ngram_entry) :
  Forall (fun e => key_compare k e.1 = Lt) m -> Forall (fun e => e.1 <> k) m.
Proof.
  intros Hall. eapply Forall_impl; [exact Hall|].
  intros e He E. symmetry in E. now apply key_compare_lt_ne in He.
Qed.

Lemma map_incr_elem (k : list text) (m : list ngram_entry) (e : ngram_entry) :
  e ∈ map_incr k m -> e.1 = k \/ e ∈ m.
Proof.
  induction m as [|[k0 c] m IH]; cbn [map_incr].
  - intros ->%list_elem_of_singleton. now left.
  - destruct (key_compare k k0) eqn:E.
    + apply key_compare_eq in E as ->.
      intros [->|He]%elem_of_cons; [now left|]. right. now right.
    + intros [->|He]%elem_of_cons; [now left | now right].
    + intros [->|He]%elem_of_cons; [right; now left|].
      destruct (IH He); [now left | right; now right].
Qed.

Lemma map_incr_sorted (k : list text) (m : list ngram_entry) :
  StronglySorted key_lt m -> StronglySorted key_lt (map_incr k m).
Proof.
  induction 1 as [|[k0 c] m Hs IH Hall]; cbn [map_incr].
  - repeat constructor.
  - destruct (key_compare k k0) eqn:E.
    + constructor; [done|]. exact Hall.
    + constructor; [now constructor|].
      constructor; [exact E|].
      eapply Forall_impl; [exact Hall|]. intros e He.
      exact (key_compare_trans _ _ _ E He).
    + constructor; [exact IH|].
      apply Forall_forall. intros e He.
      destruct (map_incr_elem _ _ _ He) as [Hk|Hin].
      * unfold key_lt. cbn. rewrite Hk. now apply key_compare_gt.
      * eapply Forall_forall in Hall; eauto.
Qed.

Lemma map_incr_get (k key : list text) (m : list ngram_entry) :
  StronglySorted key_lt m ->
  get_count key (map_incr k m)
  = if decide (key = k) then S (get_count k m) else get_count key m.
Proof.
  induction 1 as [|[k0 c] m Hs IH Hall]; cbn [map_incr].
  - cbn. destruct (decide (k = key)), (decide (key = k)); congruence.
  - destruct (key_compare k k0) eqn:E.
    + apply key_compare_eq in E as ->. cbn.
      destruct (decide (k0 = key)), (decide (key = k0)); try congruence.
      now destruct (decide (k0 = k0)).
    + assert (Habs : get_count k ((k0, c) :: m) = O).
      { apply get_count_absent, key_lt_absent. constructor; [exact E|].
        eapply Forall_impl; [exact Hall|]. intros e He.
        exact (key_compare_trans _ _ _ E He). }
      rewrite Habs. cbn [get_count].
      destruct (decide (k = key)), (decide (key = k)); congruence.
    + assert (Hne : k0 <> k).
      { apply key_compare_gt in E. now apply key_compare_lt_ne. }
      cbn [get_count]. rewrite IH.
      destruct (decide (k0 = key)), (decide (key = k)), (decide (k0 = k));
        congruence.
Qed.

Lemma sorted_get_count (key : list text) (c : nat) (m : list ngram_entry) :
  StronglySorted key_lt m -> (key, c) ∈ m -> get_count key m = c.
Proof.
  induction 1 as [|[k0 c0] m Hs IH Hall]; [now intros ?%elem_of_nil|].
  intros [[= -> ->]|Hin]%elem_of_cons; cbn.
  - now destruct (decide (k0 = k0)).
  - destruct (decide (k0 = key)) as [->|_]; [|now apply IH].
    eapply Forall_forall in Hall; eauto.
    now apply key_compare_lt_ne in Hall.
Qed.

Lemma get_count_elem (key : list text) (m : list ngram_entry) :
  (0 < get_count key m)%nat -> (key, get_count key m) ∈ m.
Proof.
  induction m as [|[k0 c0] m IH]; cbn; [lia|].
  destruct (decide (k0 = key)) as [->|_]; [now left|].
  intros Hpos. right. now apply IH.
Qed.

Lemma map_incr_nonempty (k : list text) (m : list ngram_entry) :
  map_incr k m <> [].
Proof.
  destruct m as [|[k0 c] m]; cbn; [discriminate|].
  now destruct (key_compare k k0).
Qed.

Lemma ngram_loop_nonempty (toks : list text) (n count i : nat)
    (counts : list ngram_entry) :
  counts <> [] \/ (0 < count)%nat -> ngram_loop toks n count i counts <> [].
Proof.
  revert i counts. induction count as [|count IH]; intros i counts Hc; cbn.
  - destruct Hc; [done | lia].
  - apply IH. left. apply map_incr_nonempty.
Qed.

Lemma ngram_loop_sorted (toks : list text) (n count i : nat)
    (counts : list ngram_entry) :
  StronglySorted key_lt counts ->
  StronglySorted key_lt (ngram_loop toks n count i counts).
Proof.
  revert i counts. induction count as [|count IH]; intros i counts Hs; cbn;
    [done|].
  apply IH. now apply map_incr_sorted.
Qed.

Lemma ngram_loop_get (toks : list text) (n count i : nat)
    (counts : list ngram_entry) (key : list text) :
  StronglySorted key_lt counts ->
  get_count key (ngram_loop toks n count i counts)
  = (get_count key counts
     + length (filter (fun w => w = key)
                 (map (fun j => take n (drop j toks)) (seq i count))))%nat.
Proof.
  revert i counts. induction count as [|count IH]; intros i counts Hs.
  - cbn. lia.
  - cbn [ngram_loop seq map]. rewrite IH by now apply map_incr_sorted.
    rewrite map_incr_get by done. rewrite filter_cons.
    destruct (decide (key = take n (drop i toks))) as [->|Hne].
    + destruct (decide (take n (drop i toks) = take n (drop i toks)));
        [cbn [length]; lia | done].
    + destruct (decide (take n (drop i toks) = key)); [congruence | lia].
Qed.

End NgramMap.

Section TopNgrams.
Context `{StdSort}.

Lemma sorted_keys_NoDup (m : list ngram_entry) :
  StronglySorted key_lt m -> NoDup m.*1.
Proof.
  induction 1 as [|[k c] m Hs IH Hall]; cbn; constructor; [|exact IH].
  intros (e & Hk & Hin)%list_elem_of_fmap. cbn in Hk.
  eapply Forall_forall in Hall; eauto.
  apply key_compare_lt_ne in Hall. cbn in Hall. congruence.
Qed.

Lemma sorted_by_count (v : list ngram_entry) :
  StronglySorted (fun a b => count_gt b a = false) v ->
  StronglySorted (fun a b => (b.2 <= a.2)%nat) v.
Proof.
  induction 1 as [|x v Hs IH Hall]; constructor; [exact IH|].
  eapply Forall_impl; [exact Hall|]. intros y Hy. cbn in Hy.
  unfold count_gt in Hy. now apply Nat.ltb_ge in Hy.
Qed.

(** What [top_ngrams] returns once its guard has let the input pass. *)
Lemma top_ngrams_take (toks : list text) (n topk : N) :
  (n <> 0)%N -> (n <= N.of_nat (length toks))%N ->
  let counts :=
    ngram_loop toks (N.to_nat n) (length toks - N.to_nat n + 1) 0 [] in
  top_ngrams toks n topk = take (N.to_nat topk) (std_sort counts) /\
  StronglySorted key_lt counts /\
  counts <> [] /\
  forall key, get_count key counts = occurrences (N.to_nat n) toks key.
Proof.
  intros Hn Hlen counts. split; [|split; [|split]].
  - unfold top_ngrams.
    destruct (N.eqb_spec n 0); [done|].
    destruct (N.ltb_spec (N.of_nat (length toks)) n); [lia|]. cbn [orb].
    fold counts.
    destruct (N.ltb_spec topk (N.of_nat (length (std_sort counts))));
      [reflexivity|].
    symmetry. apply take_ge. lia.
  - apply ngram_loop_sorted. constructor.
  - apply ngram_loop_nonempty. right. lia.
  - intros key. subst counts. rewrite ngram_loop_get by constructor.
    unfold occurrences, windows.
    destruct (Nat.eqb_spec (N.to_nat n) 0); [lia|].
    destruct (Nat.ltb_spec (length toks) (N.to_nat n)); [lia|].
    reflexivity.
Qed.

Lemma top_ngrams_guard (toks : list text) (n topk : N) :
  (n = 0 \/ N.of_nat (length toks) < n)%N ->
  top_ngrams toks n topk = [] /\
  forall key, occurrences (N.to_nat n) toks key = O.
Proof.
  intros Hg. split.
  - unfold top_ngrams.
    destruct (N.eqb_spec n 0); [reflexivity|].
    destruct (N.ltb_spec (N.of_nat (length toks)) n); [reflexivity | lia].
  - intros key. unfold occurrences, windows.
    destruct (Nat.eqb_spec (N.to_nat n) 0); [reflexivity|].
    destruct (Nat.ltb_spec (length toks) (N.to_nat n)); [reflexivity | lia].
Qed.

End TopNgrams.

(** C7, as stated, fails: with [K = 0] the result is empty although [N] is
    1 and there is a token. *)
Lemma top_ngrams_empty_for_zero_k :
  top_ngrams [str "a"] 1 0 = [] /\
  (1 <> 0)%N /\
  (1 <= N.of_nat (length [str "a"]))%N.
Proof. repeat split; [discriminate | vm_compute; discriminate]. Qed.

(** C7, amended.  [top_ngrams] returns the empty list exactly when [N] is
    0, the token list has fewer than [N] tokens, or [K] is 0.  It returns
    at most [K] entries, of pairwise different n-grams; the count of each
    entry is the number of windows of the token list equal to its n-gram;
    the entries are in descending order of count; and an n-gram that
    occurs and is not among them occurs no more often than any of them,
    the list then being full. *)
Theorem top_ngrams_counts `{StdSort} (toks : list text) (n topk : N) :
  let res := top_ngrams toks n topk in
  (res = [] <-> (n = 0 \/ N.of_nat (length toks) < n \/ topk = 0)%N) /\
  (N.of_nat (length res) <= topk)%N /\
  NoDup res.*1 /\
  (forall key c, (key, c) ∈ res -> c = occurrences (N.to_nat n) toks key) /\
  StronglySorted (fun a b => (b.2 <= a.2)%nat) res /\
  (forall key, (0 < occurrences (N.to_nat n) toks key)%nat ->
     key ∈ res.*1 \/
     (N.of_nat (length res) = topk /\
      Forall (fun e => (occurrences (N.to_nat n) toks key <= e.2)%nat) res)).
Proof.
  cbn zeta.
  destruct (N.eq_dec n 0%N) as [Hn|Hn];
    [|destruct (N.lt_ge_cases (N.of_nat (length toks)) n) as [Hlen|Hlen]].
  1, 2: destruct (top_ngrams_guard toks n topk) as [-> Hocc]; [lia|];
    (split; [|split; [|split; [|split; [|split]]]]);
    [ split; [intros _; lia | reflexivity]
    | cbn; lia
    | cbn; constructor
    | intros key c ?%elem_of_nil; done
    | constructor
    | intros key Hpos; rewrite Hocc in Hpos; lia ].
  destruct (top_ngrams_take toks n topk Hn Hlen) as (-> & Hs & Hne & Hget).
  set (counts := ngram_loop _ _ _ _ _) in *.
  pose proof (std_sort_perm counts) as Hperm.
  pose proof (std_sort_sorted counts) as Hsorted.
  set (vec := std_sort counts) in *.
  set (k := N.to_nat topk).
  assert (Hvec : vec <> []).
  { intros E. rewrite E in Hperm. symmetry in Hperm.
    now apply Permutation_nil_r in Hperm. }
  assert (Hin : forall key c, (key, c) ∈ vec ->
                              c = occurrences (N.to_nat n) toks key).
  { intros key c Hkc. rewrite Hperm in Hkc. rewrite <- Hget.
    symmetry. now apply sorted_get_count. }
  split; [|split; [|split; [|split; [|split]]]].
  - split.
    + intros E. right. right.
      destruct vec as [|x vec]; [done|].
      destruct k eqn:Ek; [lia | discriminate].
    + intros [?|[?| ->]]; [lia | lia | reflexivity].
  - rewrite length_take. lia.
  - rewrite fmap_take. eapply sublist_NoDup; [|apply sublist_take].
    rewrite Hperm. now apply sorted_keys_NoDup.
  - intros key c Hkc. apply Hin. eapply subseteq_take, Hkc.
  - apply sorted_by_count.
    rewrite <- (take_drop k vec) in Hsorted.
    now apply StronglySorted_app_1_l in Hsorted.
  - intros key Hpos. rewrite <- Hget in *.
    pose proof (get_count_elem key counts Hpos) as Hel.
    set (c := get_count key counts) in *.
    assert (Hel' : (key, c) ∈ take k vec ++ drop k vec)
      by (rewrite take_drop; now rewrite Hperm).
    apply elem_of_app in Hel' as [Hl|Hr].
    + left. apply (list_elem_of_fmap_2 fst) in Hl. exact Hl.
    + right. split.
      * rewrite length_take.
        assert (k < length vec)%nat; [|lia].
        destruct (Nat.lt_ge_cases k (length vec)) as [|Hge]; [done|].
        rewrite drop_ge in Hr by done. now apply elem_of_nil in Hr.
      * apply Forall_forall. intros e He.
        rewrite <- (take_drop k vec) in Hsorted.
        pose proof (StronglySorted_app_1_elem_of _ _ _ _ _ Hsorted He Hr)
          as Hord.
        unfold count_gt in Hord. cbn in Hord. now apply Nat.ltb_ge in Hord.
Qed.

(** The bigrams of the tokens a b a b a, cut to the most frequent one. *)
Lemma top_ngrams_counts_witness :
  (N.of_nat (length (top_ngrams (map str ["a"; "b"; "a"; "b"; "a"]%string) 2 1))
   <= 1)%N /\
  (forall key c,
     (key, c) ∈ top_ngrams (map str ["a"; "b"; "a"; "b"; "a"]%string) 2 1 ->
     c = occurrences (N.to_nat 2) (map str ["a"; "b"; "a"; "b"; "a"]%string)
           key).
Proof.
  destruct (top_ngrams_counts (map str ["a"; "b"; "a"; "b"; "a"]%string) 2 1)
    as (_ & H2 & _ & H4 & _).
  split; assumption.
Defined.

(** ** Every key of [edit_loop] keeps the cursor inside the document *)

Section EditLoop.

Lemma lookup_Z (b : list text) (i : Z) :
  0 <= i < len b -> exists l, b !! Z.to_nat i = Some l.
Proof.
  intros Hi. apply lookup_lt_is_Some_2. unfold len in Hi. lia.
Qed.

Lemma newline_ok (e : Editor) :
  cursor_ok e -> exists e', newline e = Ok e' /\ cursor_ok e'.
Proof.
  intros (Hne & Hy & line & Hl & Hx). unfold newline.
  rewrite (at_Ok _ _ line) by (lia || assumption). cbn.
  unfold substr_from.
  destruct (Z.ltb_spec (cur_x_ e) 0); [lia|].
  destruct (Z.ltb_spec (len line) (cur_x_ e)); [lia|]. cbn.
  eexists; split; [reflexivity|].
  apply lookup_lt_Some in Hl as Hlt.
  eapply cursor_ok_intro with (line := drop (Z.to_nat (cur_x_ e)) line); cbn.
  - lia.
  - replace (Z.to_nat (cur_y_ e + 1)) with (S (Z.to_nat (cur_y_ e))) by lia.
    rewrite lookup_app_r by (rewrite length_take, length_insert; lia).
    rewrite length_take, length_insert.
    now replace (S (Z.to_nat (cur_y_ e))
                 - Nat.min (S (Z.to_nat (cur_y_ e))) (length (buffer_ e)))%nat
      with O by lia.
  - unfold len. lia.
Qed.

Lemma del_key_ok (e : Editor) :
  cursor_ok e -> exists e', del_key e = Ok e' /\ cursor_ok e'.
Proof.
  intros (Hne & Hy & line & Hl & Hx). unfold del_key.
  rewrite (at_Ok (buffer_ e) (cur_y_ e) line) by (lia || assumption). cbn.
  apply lookup_lt_Some in Hl as Hlt.
  destruct (Z.ltb_spec (cur_x_ e) (len line)) as [Hin|Hend].
  - unfold erase1.
    destruct (Z.ltb_spec (cur_x_ e) 0); [lia|].
    destruct (Z.ltb_spec (len line) (cur_x_ e)); [lia|]. cbn.
    eexists; split; [reflexivity|].
    eapply cursor_ok_intro; cbn.
    + lia.
    + now apply list_lookup_insert_eq.
    + unfold len in *. rewrite length_app, length_take, length_drop. lia.
  - destruct (Z.ltb_spec (cur_y_ e) (len (buffer_ e) - 1)) as [Hrow|Hrow].
    + destruct (lookup_Z (buffer_ e) (cur_y_ e + 1)) as [next Hnext]; [lia|].
      rewrite (at_Ok _ _ next) by (lia || assumption). cbn.
      eexists; split; [reflexivity|].
      eapply cursor_ok_intro with (line := line ++ next); cbn.
      * lia.
      * rewrite lookup_app_l by (rewrite length_take, length_insert; lia).
        rewrite lookup_take_lt by lia.
        now apply list_lookup_insert_eq.
      * unfold len in *. rewrite length_app. lia.
    + eexists; split; [reflexivity|].
      apply (cursor_ok_intro e line); [lia | assumption | assumption].
Qed.

Lemma move_up_ok (e : Editor) :
  cursor_ok e -> exists e', move_up e = Ok e' /\ cursor_ok e'.
Proof.
  intros (Hne & Hy & line & Hl & Hx). unfold move_up.
  destruct (Z.ltb_spec 0 (cur_y_ e)) as [Hrow|Hrow].
  - destruct (lookup_Z (buffer_ e) (cur_y_ e - 1)) as [prev Hprev]; [lia|].
    cbn. rewrite (at_Ok _ _ prev) by (lia || assumption). cbn.
    eexists; split; [reflexivity|].
    apply (cursor_ok_intro _ prev); cbn; [lia | assumption | unfold len; lia].
  - rewrite (at_Ok _ _ line) by (lia || assumption). cbn.
    eexists; split; [reflexivity|].
    apply (cursor_ok_intro _ line); cbn; [lia | assumption | lia].
Qed.

Lemma move_down_ok (e : Editor) :
  cursor_ok e -> exists e', move_down e = Ok e' /\ cursor_ok e'.
Proof.
  intros (Hne & Hy & line & Hl & Hx). unfold move_down.
  destruct (Z.ltb_spec (cur_y_ e) (len (buffer_ e) - 1)) as [Hrow|Hrow].
  - destruct (lookup_Z (buffer_ e) (cur_y_ e + 1)) as [next Hnext]; [lia|].
    cbn. rewrite (at_Ok _ _ next) by (lia || assumption). cbn.
    eexists; split; [reflexivity|].
    apply (cursor_ok_intro _ next); cbn; [lia | assumption | unfold len; lia].
  - rewrite (at_Ok _ _ line) by (lia || assumption). cbn.
    eexists; split; [reflexivity|].
    apply (cursor_ok_intro _ line); cbn; [lia | assumption | lia].
Qed.

Lemma move_left_ok (e : Editor) :
  cursor_ok e -> exists e', move_left e = Ok e' /\ cursor_ok e'.
Proof.
  intros (Hne & Hy & line & Hl & Hx). unfold move_left.
  destruct (Z.ltb_spec 0 (cur_x_ e)) as [Hcol|Hcol].
  - eexists; split; [reflexivity|].
    apply (cursor_ok_intro _ line); cbn; [lia | assumption | lia].
  - destruct (Z.ltb_spec 0 (cur_y_ e)) as [Hrow|Hrow].
    + destruct (lookup_Z (buffer_ e) (cur_y_ e - 1)) as [prev Hprev]; [lia|].
      rewrite (at_Ok _ _ prev) by (lia || assumption). cbn.
      eexists; split; [reflexivity|].
      apply (cursor_ok_intro _ prev); cbn; [lia | assumption | unfold len; lia].
    + eexists; split; [reflexivity|].
      apply (cursor_ok_intro _ line); [lia | assumption | lia].
Qed.

Lemma move_right_ok (e : Editor) :
  cursor_ok e -> exists e', move_right e = Ok e' /\ cursor_ok e'.
Proof.
  intros (Hne & Hy & line & Hl & Hx). unfold move_right.
  rewrite (at_Ok _ _ line) by (lia || assumption). cbn.
  destruct (Z.ltb_spec (cur_x_ e) (len line)) as [Hcol|Hcol].
  - eexists; split; [reflexivity|].
    apply (cursor_ok_intro _ line); cbn; [lia | assumption | lia].
  - destruct (Z.ltb_spec (cur_y_ e) (len (buffer_ e) - 1)) as [Hrow|Hrow].
    + destruct (lookup_Z (buffer_ e) (cur_y_ e + 1)) as [next Hnext]; [lia|].
      eexists; split; [reflexivity|].
      apply (cursor_ok_intro _ next); cbn; [lia | assumption | unfold len; lia].
    + eexists; split; [reflexivity|].
      apply (cursor_ok_intro _ line); [lia | assumption | lia].
Qed.

Lemma clamp_cursor_ok (e : Editor) :
  cursor_ok e -> exists e', clamp_cursor e = Ok e' /\ cursor_ok e'.
Proof.
  intros (Hne & Hy & line & Hl & Hx). unfold clamp_cursor.
  rewrite clamp_in by lia. cbn.
  rewrite (at_Ok _ _ line) by (lia || assumption). cbn.
  rewrite clamp_in by lia. cbn.
  eexists; split; [reflexivity|].
  apply (cursor_ok_intro _ line); cbn; [lia | assumption | lia].
Qed.

End EditLoop.

(** X1.  Whatever key [edit_loop] reads (with whatever second code after
    the prefix of an extended key), a state with a non-empty document and
    the cursor inside it is taken to another such state: the loop body
    returns, and [0 <= row < line_count], [0 <= col <= len(line[row])]
    hold again. *)
Theorem edit_loop_keeps_cursor_ok (ch c2 : Z) (e : Editor) :
  cursor_ok e -> exists e', edit_loop ch c2 e = Ok e' /\ cursor_ok e'.
Proof.
  intros He. unfold edit_loop.
  assert (Hstep : exists e1,
    (if ch =? 27 then
       Ok (set_cmdbuf [] (set_status [] (set_mode (str "COMMAND") e)))
     else if (ch =? 13) || (ch =? 10) then newline e
     else if ch =? 8 then backspace e
     else if ch =? 224 then
       if c2 =? 72 then move_up e
       else if c2 =? 80 then move_down e
       else if c2 =? 75 then move_left e
       else if c2 =? 77 then move_right e
       else if c2 =? 83 then del_key e
       else Ok e
     else if ch =? 127 then del_key e
     else if ch =? 104 then move_left e
     else if ch =? 106 then move_down e
     else if ch =? 107 then move_up e
     else if ch =? 108 then move_right e
     else if (32 <=? ch) && (ch <=? 126)
     then insert_char (ascii_of_nat (Z.to_nat ch)) e
     else Ok e) = Ok e1 /\ cursor_ok e1).
  { repeat match goal with
           | |- context [if ?b then _ else _] => destruct b
           end;
      eauto using newline_ok, backspace_ok, del_key_ok, move_up_ok,
                  move_down_ok, move_left_ok, move_right_ok.
    destruct (insert_char_ok (ascii_of_nat (Z.to_nat ch)) e He)
      as (e1 & ? & ? & _). eauto. }
  destruct Hstep as (e1 & -> & He1). cbn. now apply clamp_cursor_ok.
Qed.

Lemma edit_loop_keeps_cursor_ok_witness :
  exists e', edit_loop 13 0 sample_editor = Ok e' /\ cursor_ok e'.
Proof.
  apply (edit_loop_keeps_cursor_ok 13 0 sample_editor).
  apply (cursor_ok_intro sample_editor (str "de"));
    [unfold sample_editor; cbn; lia | reflexivity
    | unfold sample_editor, len; cbn; lia].
Defined.

(** ** What the dispatcher can do to a well-formed state *)

Section Outcomes.
Context `{StdSort}.

Lemma block_lines_length (txt s : text) (acc : list text) :
  (length acc < length (block_lines txt s acc))%nat.
Proof.
  revert s acc. induction txt as [|c txt IH]; intros s acc; cbn.
  - rewrite length_app. cbn. lia.
  - destruct (is_char c LF); [|destruct (is_char c CR)]; try apply IH.
    etransitivity; [|apply IH]. rewrite length_app. cbn. lia.
Qed.

Lemma insert_text_block_ok (txt : text) (e : Editor) :
  cursor_ok e -> exists e', insert_text_block txt e = Ok e' /\ cursor_ok e'.
Proof.
  intros He. unfold insert_text_block.
  destruct (decide (txt = [])) as [_|_]; [eauto|].
  destruct He as (Hne & Hy & line & Hl & Hx).
  rewrite (at_Ok _ _ line) by (lia || assumption). cbn.
  unfold substr_from.
  destruct (Z.ltb_spec (cur_x_ e) 0); [lia|].
  destruct (Z.ltb_spec (len line) (cur_x_ e)); [lia|]. cbn.
  pose proof (block_lines_length txt [] []) as Hlines. cbn [length] in Hlines.
  set (lines := block_lines txt [] []) in *.
  set (y := Z.to_nat (cur_y_ e)).
  set (b1 := <[y := _]> (buffer_ e)).
  set (b2 := take (S y) b1 ++ drop 1 lines ++ drop (S y) b1).
  apply lookup_lt_Some in Hl as Hlt. fold y in Hlt.
  assert (Hb2 : (Z.to_nat (cur_y_ e + (len lines - 1)) < length b2)%nat).
  { subst b2. rewrite !length_app, length_take, !length_drop.
    subst b1. rewrite length_insert. unfold len. lia. }
  destruct (lookup_lt_is_Some_2 _ _ Hb2) as [last_line Hlast].
  rewrite (at_Ok _ _ last_line) by (unfold len; lia || assumption). cbn.
  eexists; split; [reflexivity|].
  eapply cursor_ok_intro with (line := last_line ++ drop (Z.to_nat (cur_x_ e)) line);
    cbn.
  - unfold len. lia.
  - now apply list_lookup_insert_eq.
  - unfold len. rewrite length_app. lia.
Qed.

Lemma save_file_cursor (path : text) (w : World) (e : Editor) :
  cursor_ok e -> cursor_ok (save_file path w e).2.
Proof.
  intros He. unfold save_file, write_text_file.
  destruct (writable w path); exact He.
Qed.

Lemma getline_loop_grows (fuel : nat) (iss : text) (acc : list text) :
  acc <> [] -> getline_loop fuel iss acc <> [].
Proof.
  revert iss acc. induction fuel as [|fuel IH]; intros iss acc Hacc; cbn;
    [done|].
  destruct (getline iss) as [[line iss']|]; [|done].
  apply IH. now destruct acc.
Qed.

Lemma load_lines_nonempty (txt : text) : txt <> [] -> load_lines txt <> [].
Proof.
  intros Htxt. unfold load_lines.
  assert (Hb : getline_loop (length txt) txt [] <> []).
  { destruct txt as [|c txt]; [done|]. cbn [length getline_loop getline].
    destruct (read_until_lf (c :: txt)) as [line iss'].
    now apply getline_loop_grows. }
  destruct (_ && _); [|exact Hb].
  now destruct (getline_loop (length txt) txt []).
Qed.

(** [open_file] leaves the cursor on the first line, unless the file it
    read is empty: the buffer then has no line. *)
Lemma open_file_cursor (path : text) (w : World) (e : Editor) :
  cursor_ok (open_file path w e) \/
  (buffer_ (open_file path w e) = [] /\ files w !! path = Some []).
Proof.
  unfold open_file, read_text_file.
  destruct (files w !! path) as [txt|] eqn:Hr; cbn.
  - destruct txt as [|c txt]; [right; now split|]. left.
    assert (Hne : load_lines (c :: txt) <> [])
      by now apply load_lines_nonempty.
    destruct (load_lines (c :: txt)) as [|l b]; [done|].
    apply (cursor_ok_intro _ l); cbn; [lia | reflexivity | unfold len; lia].
  - left. apply (cursor_ok_intro _ []); cbn; [lia | reflexivity | done].
Qed.

Lemma command_shell_ok (cmd : text) (w : World) (e : Editor) :
  cursor_ok e -> exists e', command_shell cmd w e = Ok e' /\ cursor_ok e'.
Proof.
  intros He. unfold command_shell.
  destruct (decide (trim_copy (run_shell_capture cmd w) = [])); [eauto|].
  match goal with
  | |- context [insert_text_block ?t ?e0] =>
      destruct (insert_text_block_ok t e0 He) as (e1 & -> & He1)
  end.
  cbn. eauto.
Qed.

Lemma command_cpp_ok (w : World) (e : Editor) :
  cursor_ok e ->
  exists w' e', command_cpp w e = Ok (w', e') /\ cursor_ok e'.
Proof.
  intros He. unfold command_cpp.
  destruct (write_text_file _ _ w) as [ok w'].
  destruct ok; cbn [negb]; [|eauto].
  destruct (negb (bool_decide (trim_copy _ = []))).
  - match goal with
    | |- context [insert_text_block ?t ?e0] =>
        destruct (insert_text_block_ok t e0 He) as (e1 & -> & He1)
    end.
    cbn. eauto.
  - destruct (negb (bool_decide (trim_copy _ = []))); [|eauto].
    match goal with
    | |- context [insert_text_block ?t ?e0] =>
        destruct (insert_text_block_ok t e0 He) as (e1 & -> & He1)
    end.
    cbn. eauto.
Qed.

Lemma tok_stats_ok (path_opt : option text) (w : World) (e : Editor) :
  cursor_ok e -> exists e', tok_stats path_opt w e = Ok e' /\ cursor_ok e'.
Proof.
  intros He. unfold tok_stats.
  destruct (match path_opt with Some _ => _ | None => _ end); [|eauto].
  match goal with
  | |- context [insert_text_block ?t ?e0] =>
      destruct (insert_text_block_ok t e0 He) as (e1 & -> & He1)
  end.
  cbn. eauto.
Qed.

Lemma tok_ngram_ok (N K : N) (e : Editor) :
  cursor_ok e -> exists e', tok_ngram N K e = Ok e' /\ cursor_ok e'.
Proof.
  intros He. unfold tok_ngram.
  destruct (N =? 0)%N; [eauto|].
  match goal with
  | |- context [insert_text_block ?t ?e0] =>
      destruct (insert_text_block_ok t e0 He) as (e1 & -> & He1)
  end.
  cbn. eauto.
Qed.

Lemma tok_perm_ok (len limit : N) (e : Editor) :
  cursor_ok e -> exists e', tok_perm len limit e = Ok e' /\ cursor_ok e'.
Proof.
  intros He. unfold tok_perm.
  destruct (decide (compose_permutations len (clamp_limit limit) = []));
    [eauto|].
  match goal with
  | |- context [insert_text_block ?t ?e0] =>
      destruct (insert_text_block_ok t e0 He) as (e1 & -> & He1)
  end.
  cbn. eauto.
Qed.

Lemma tok_export_cursor (outpath : text) (w : World) (e : Editor) :
  cursor_ok e -> cursor_ok (tok_export outpath w e).2.
Proof.
  intros He. unfold tok_export.
  destruct (write_text_file _ _ w) as [[] w']; exact He.
Qed.

Lemma sto_defined (umax : N) (s : text) : sto umax s <> Undefined.
Proof.
  unfold sto.
  destruct (find_if_not isspace s) as [|c r]; [discriminate|].
  destruct (is_char c "-"); [|destruct (is_char c "+")].
  - destruct r as [|d r']; [discriminate|].
    destruct (isdigit d); [|discriminate].
    now destruct (umax <? _)%N.
  - destruct r as [|d r']; [discriminate|].
    destruct (isdigit d); [|discriminate].
    now destruct (umax <? _)%N.
  - destruct (isdigit c); [|discriminate].
    now destruct (umax <? _)%N.
Qed.

End Outcomes.

(** X2.  From a state with a non-empty document and the cursor inside it,
    [execute_command] never runs into undefined behaviour; it throws only
    in the [tok ngram] and [tok perm] commands (on their number
    arguments); and when it returns, the cursor is again inside a
    non-empty document, except after [o] on a readable file of zero
    bytes, which leaves the buffer without any line. *)
Theorem execute_command_outcomes `{StdSort} (raw : text) (w : World)
    (e : Editor) :
  cursor_ok e ->
  let parts := split_ws (trim_copy raw) in
  match execute_command raw w e with
  | Ok (w', e', quit) =>
      cursor_ok e' \/
      (buffer_ e' = [] /\ part parts 0 = str "o" /\
       files w !! part parts 1 = Some [])
  | Throw _ =>
      part parts 0 = str "tok" /\
      (part parts 1 = str "ngram" \/ part parts 1 = str "perm")
  | Undefined => False
  end.
Proof.
  intros He parts. unfold execute_command. cbn zeta. fold parts.
  destruct (decide (trim_copy raw = [])); [left; exact He|].
  destruct (decide (part parts 0 = str "q"));
    [destruct (dirty_ e); left; exact He|].
  destruct (decide (part parts 0 = str "q!")); [left; exact He|].
  destruct (decide (part parts 0 = str "w")).
  { pose proof (save_file_cursor
                  (if (2 <=? length parts)%nat then part parts 1
                   else filename_ e) w e He) as Hs.
    destruct (save_file _ w e) as [w' e']. now left. }
  destruct (decide (part parts 0 = str "o")) as [Ho|_].
  { destruct (length parts <? 2)%nat; [left; exact He|].
    destruct (dirty_ e); [left; exact He|].
    destruct (open_file_cursor (part parts 1) w e) as [Hc|[Hb Hf]];
      [now left | right; auto]. }
  destruct (decide (part parts 0 = str "help")); [left; exact He|].
  destruct (decide (part parts 0 = str "cpp")).
  { destruct (command_cpp_ok w e He) as (w1 & e1 & -> & He1). now left. }
  destruct (bool_decide (head (part parts 0) = Some "!"%char)).
  { match goal with
    | |- context [command_shell ?c w e] =>
        destruct (command_shell_ok c w e He) as (e1 & -> & He1)
    end.
    now left. }
  destruct (decide (part parts 0 = str "tok")) as [Htok|_];
    [|left; exact He].
  destruct (length parts =? 1)%nat; [left; exact He|].
  destruct (decide (part parts 1 = str "stats")).
  { match goal with
    | |- context [tok_stats ?p w e] =>
        destruct (tok_stats_ok p w e He) as (e1 & -> & He1)
    end.
    now left. }
  destruct (decide (part parts 1 = str "ngram")) as [Hngram|_].
  { assert (Hconv : forall (c : bool) (s : text) (d : N),
              (if c then stoul s else Ok d) <> Undefined).
    { intros [] s d; [apply sto_defined | discriminate]. }
    pose proof (Hconv (3 <=? length parts)%nat (part parts 2) 2%N) as HN.
    pose proof (Hconv (4 <=? length parts)%nat (part parts 3) 20%N) as HK.
    destruct (if (3 <=? length parts)%nat then _ else _) as [N| |];
      [|now split; auto | done].
    cbn.
    destruct (if (4 <=? length parts)%nat then _ else _) as [K| |];
      [|now split; auto | done].
    cbn. destruct (tok_ngram_ok N K e He) as (e1 & -> & He1). now left. }
  destruct (decide (part parts 1 = str "export")).
  { destruct (length parts <? 3)%nat; [left; exact He|].
    pose proof (tok_export_cursor (part parts 2) w e He) as Hs.
    destruct (tok_export _ w e) as [w' e']. now left. }
  destruct (decide (part parts 1 = str "perm")) as [Hperm|_];
    [|left; exact He].
  destruct (length parts <? 4)%nat; [left; exact He|].
  pose proof (sto_defined ULLONG_MAX (part parts 2)) as Hlen.
  pose proof (sto_defined ULLONG_MAX (part parts 3)) as Hlimit.
  fold stoull in Hlen, Hlimit.
  destruct (stoull (part parts 2)) as [len| |]; [|now split; auto | done].
  cbn.
  destruct (stoull (part parts 3)) as [limit| |]; [|now split; auto | done].
  cbn. destruct (tok_perm_ok len limit e He) as (e1 & -> & He1). now left.
Qed.

(** A shell command on the sample session: the captured output is empty,
    and the state stays well-formed. *)
Lemma execute_command_outcomes_witness :
  match execute_command (str "!dir") sample_world sample_editor with
  | Ok (w', e', quit) =>
      cursor_ok e' \/
      (buffer_ e' = [] /\ part (split_ws (trim_copy (str "!dir"))) 0 = str "o"
       /\ files sample_world !! part (split_ws (trim_copy (str "!dir"))) 1
          = Some [])
  | Throw _ =>
      part (split_ws (trim_copy (str "!dir"))) 0 = str "tok" /\
      (part (split_ws (trim_copy (str "!dir"))) 1 = str "ngram" \/
       part (split_ws (trim_copy (str "!dir"))) 1 = str "perm")
  | Undefined => False
  end.
Proof.
  apply (execute_command_outcomes (str "!dir") sample_world sample_editor).
  apply (cursor_ok_intro sample_editor (str "de"));
    [unfold sample_editor; cbn; lia | reflexivity
    | unfold sample_editor, len; cbn; lia].
Defined.

(** X3.  Opening a readable file of zero bytes leaves the buffer with no
    line at all, whatever the state before: the [getline] loop reads
    nothing and the trailing-newline test does not fire. *)
Theorem open_empty_file_empties_buffer (path : text) (w : World) (e : Editor) :
  read_text_file path w = Some [] ->
  buffer_ (open_file path w e) = [] /\
  status_ (open_file path w e) = str "Opened " ++ path /\
  ~ cursor_ok (open_file path w e).
Proof.
  intros Hr. unfold open_file. rewrite Hr. cbn.
  repeat split. intros (Hne & _). now apply Hne.
Qed.

Lemma open_empty_file_empties_buffer_witness :
  buffer_ (open_file (str "empty.txt")
             (set_files {[ str "empty.txt" := [] ]} sample_world)
             sample_editor) = [] /\
  status_ (open_file (str "empty.txt")
             (set_files {[ str "empty.txt" := [] ]} sample_world)
             sample_editor) = str "Opened " ++ str "empty.txt" /\
  ~ cursor_ok (open_file (str "empty.txt")
                 (set_files {[ str "empty.txt" := [] ]} sample_world)
                 sample_editor).
Proof.
  apply (open_empty_file_empties_buffer (str "empty.txt")
           (set_files {[ str "empty.txt" := [] ]} sample_world) sample_editor).
  reflexivity.
Defined.

(** ** The [getline] loop has enough fuel *)

Section GetlineFuel.

Lemma read_until_lf_rest (iss : text) :
  (length (read_until_lf iss).2 <= length iss)%nat.
Proof.
  induction iss as [|c iss IH]; cbn [read_until_lf]; [cbn; lia|].
  destruct (is_char c LF); [cbn; lia|].
  destruct (read_until_lf iss) as [l r]. cbn in *. lia.
Qed.

Lemma read_until_lf_shorter (c : ascii) (iss : text) :
  (length (read_until_lf (c :: iss)).2 <= length iss)%nat.
Proof.
  cbn [read_until_lf]. destruct (is_char c LF); [cbn; lia|].
  pose proof (read_until_lf_rest iss) as Hrest.
  destruct (read_until_lf iss) as [l r]. exact Hrest.
Qed.

(** More rounds than bytes change nothing: the loop of [open_file] ends
    by itself, on the failed [getline] at the end of the stream. *)
Lemma getline_loop_fuel (fuel : nat) (iss : text) (acc : list text) :
  (length iss <= fuel)%nat ->
  getline_loop fuel iss acc = getline_loop (length iss) iss acc.
Proof.
  revert iss acc.
  induction fuel as [fuel IH] using lt_wf_ind. intros iss acc Hfuel.
  destruct iss as [|c iss]; [now destruct fuel|].
  destruct fuel as [|fuel]; [cbn in Hfuel; lia|].
  cbn [length getline_loop getline].
  pose proof (read_until_lf_shorter c iss) as Hshort.
  destruct (read_until_lf (c :: iss)) as [line iss']. cbn [snd] in Hshort.
  cbn [length] in Hfuel.
  rewrite (IH fuel) by lia.
  destruct (Nat.eq_dec (length iss) (length iss')) as [->|Hne]; [done|].
  symmetry. apply IH; lia.
Qed.

End GetlineFuel.

(** ** What [insert_text_block] writes *)

Section InsertBlock.

Lemma LF_ne_CR : LF <> CR.
Proof. intros E. vm_compute in E. discriminate E. Qed.

Lemma block_lines_acc (txt s : text) (acc : list text) :
  block_lines txt s acc = acc ++ block_lines txt s [].
Proof.
  revert s acc. induction txt as [|c txt IH]; intros s acc; cbn; [done|].
  destruct (is_char c LF); [|destruct (is_char c CR)]; try apply IH.
  rewrite (IH [] (acc ++ [s])), (IH [] [s]). now rewrite <- app_assoc.
Qed.

Lemma block_lines_count (txt s : text) :
  length (block_lines txt s []) = S (count_char LF txt).
Proof.
  revert s. induction txt as [|c txt IH]; intros s; cbn [block_lines];
    [reflexivity|].
  unfold count_char, is_char in *. rewrite filter_cons.
  case_bool_decide as Hlf.
  - rewrite block_lines_acc, length_app, IH. subst c.
    now destruct (decide (LF = LF)).
  - destruct (decide (c = LF)); [done|].
    case_bool_decide; apply IH.
Qed.

Lemma join_lines_cons_nonempty (l : text) (b : list text) :
  b <> [] -> join_lines (l :: b) = l ++ LF :: join_lines b.
Proof. destruct b; [done | reflexivity]. Qed.

Lemma block_lines_join (txt s : text) :
  join_lines (block_lines txt s []) = s ++ filter (fun c => c <> CR) txt.
Proof.
  revert s. induction txt as [|c txt IH]; intros s; cbn [block_lines].
  - cbn. now rewrite app_nil_r.
  - rewrite filter_cons. unfold is_char.
    case_bool_decide as Hlf.
    + subst c. rewrite block_lines_acc. cbn [app].
      rewrite join_lines_cons_nonempty.
      * rewrite IH.
        destruct (decide (LF <> CR)) as [_|Hn]; [reflexivity|].
        exfalso. apply Hn, LF_ne_CR.
      * intros E. pose proof (block_lines_count txt []) as Hc.
        rewrite E in Hc. discriminate.
    + case_bool_decide as Hcr.
      * subst c. rewrite IH. destruct (decide (CR <> CR)); [done|reflexivity].
      * rewrite IH. destruct (decide (c <> CR)); [|done].
        now rewrite <- app_assoc.
Qed.

Lemma join_lines_splice (pre post first last_ : text) (mid : list text) :
  join_lines ((pre ++ first) :: mid ++ [last_ ++ post])
  = pre ++ join_lines (first :: mid ++ [last_]) ++ post.
Proof.
  rewrite !join_lines_cons_nonempty by (now destruct mid).
  rewrite <- !app_assoc. f_equal. f_equal. cbn. f_equal.
  induction mid as [|m mid IH]; cbn [app]; [reflexivity|].
  rewrite !join_lines_cons_nonempty by (now destruct mid).
  rewrite IH. now rewrite <- !app_assoc.
Qed.

Lemma middle_update (pfx sfx : list text) (x new : text) (n : nat) :
  n = length pfx ->
  (pfx ++ x :: sfx) !! n = Some x /\
  <[n := new]> (pfx ++ x :: sfx) = pfx ++ new :: sfx.
Proof.
  intros ->. split; [now apply list_lookup_middle|].
  rewrite insert_app_r_alt by lia. now rewrite Nat.sub_diag.
Qed.

Lemma insert_then_splice (b rest : list text) (x : text) (y : nat) :
  (y < length b)%nat ->
  take (S y) (<[y := x]> b) ++ rest ++ drop (S y) (<[y := x]> b)
  = take y b ++ x :: rest ++ drop (S y) b.
Proof.
  intros Hy. rewrite insert_take_drop by done.
  assert (Hty : length (take y b) = y) by (rewrite length_take; lia).
  rewrite take_app_ge, drop_app_ge by lia. rewrite Hty.
  replace (S y - y)%nat with 1%nat by lia. cbn [take drop].
  now rewrite <- app_assoc.
Qed.

End InsertBlock.

(** X4.  [insert_text_block] of a non-empty text at the cursor (row [y],
    column [x]) replaces line [y] by a region of [1 + number of newlines]
    lines and touches no other line; read back with newlines between its
    lines, the region is the part of the old line before the cursor, the
    inserted text without its carriage returns, and the part of the old
    line from the cursor on.  The cursor moves down by the number of
    newlines and the dirty flag is set. *)
Theorem insert_text_block_content (txt : text) (e : Editor) :
  cursor_ok e -> txt <> [] ->
  exists e' line region,
    insert_text_block txt e = Ok e' /\
    buffer_ e !! Z.to_nat (cur_y_ e) = Some line /\
    buffer_ e' = take (Z.to_nat (cur_y_ e)) (buffer_ e) ++ region
                 ++ drop (S (Z.to_nat (cur_y_ e))) (buffer_ e) /\
    length region = S (count_char LF txt) /\
    join_lines region
    = take (Z.to_nat (cur_x_ e)) line ++ filter (fun c => c <> CR) txt
      ++ drop (Z.to_nat (cur_x_ e)) line /\
    cur_y_ e' = cur_y_ e + Z.of_nat (count_char LF txt) /\
    dirty_ e' = true.
Proof.
  intros (Hne & Hy & line & Hl & Hx) Htxt. unfold insert_text_block.
  destruct (decide (txt = [])) as [|_]; [done|].
  rewrite (at_Ok _ _ line) by (lia || assumption). cbn.
  unfold substr_from, substr_to.
  destruct (Z.ltb_spec (cur_x_ e) 0); [lia|].
  destruct (Z.ltb_spec (len line) (cur_x_ e)); [lia|]. cbn.
  pose proof (block_lines_count txt []) as Hcount.
  pose proof (block_lines_join txt []) as Hjoin. cbn [app] in Hjoin.
  set (lines := block_lines txt [] []) in *.
  set (y := Z.to_nat (cur_y_ e)).
  set (pre := take (Z.to_nat (cur_x_ e)) line).
  set (post := drop (Z.to_nat (cur_x_ e)) line).
  set (k := count_char LF txt) in *.
  apply lookup_lt_Some in Hl as Hlt. fold y in Hlt, Hl.
  destruct lines as [|first rest]; [discriminate|].
  cbn [head default from_option id drop].
  change (drop 0 rest) with rest.
  rewrite (insert_then_splice _ _ _ _ Hlt).
  assert (Hty : length (take y (buffer_ e)) = y)
    by (rewrite length_take; lia).
  destruct rest as [|r rest _] using rev_ind.
  - (* one segment: the line is rewritten in place *)
    destruct (middle_update (take y (buffer_ e)) (drop (S y) (buffer_ e))
                (pre ++ first) ((pre ++ first) ++ post) y (eq_sym Hty))
      as [Hlook Hins].
    cbn [app]. replace (cur_y_ e + (len [first] - 1)) with (cur_y_ e)
      by (unfold len; cbn; lia).
    rewrite (at_Ok _ _ (pre ++ first)) by (lia || exact Hlook). cbn.
    fold y. rewrite Hins.
    eexists. exists line, [(pre ++ first) ++ post].
    split; [reflexivity|]. split; [exact Hl|]. cbn.
    split; [reflexivity|]. split; [exact Hcount|].
    cbn in Hjoin. rewrite <- Hjoin, <- app_assoc.
    split; [reflexivity|]. split; [|reflexivity].
    cbn in Hcount. lia.
  - (* several segments: the last one receives the tail of the line *)
    set (pfx := take y (buffer_ e) ++ (pre ++ first) :: rest).
    assert (Hn : (y + S (length rest))%nat = length pfx).
    { subst pfx. rewrite length_app. cbn. lia. }
    destruct (middle_update pfx (drop (S y) (buffer_ e)) r (r ++ post)
                _ Hn) as [Hlook Hins].
    assert (Hshape : take y (buffer_ e) ++ (pre ++ first)
                       :: (rest ++ [r]) ++ drop (S y) (buffer_ e)
                     = pfx ++ r :: drop (S y) (buffer_ e)).
    { subst pfx. now rewrite <- !app_assoc. }
    rewrite Hshape.
    assert (Hidx : Z.to_nat (cur_y_ e + (len (first :: rest ++ [r]) - 1))
                   = (y + S (length rest))%nat).
    { unfold len. cbn [length]. rewrite length_app. cbn. lia. }
    rewrite (at_Ok _ _ r)
      by ((rewrite Hidx; exact Hlook) || (unfold len; lia)).
    cbn. rewrite Hidx, Hins.
    eexists. exists line, ((pre ++ first) :: rest ++ [r ++ post]).
    split; [reflexivity|]. split; [exact Hl|]. cbn [buffer_ set_dirty
      set_cur_x set_cur_y set_buffer cur_y_ dirty_].
    split.
    { subst pfx. rewrite <- !app_assoc. cbn [app].
      now rewrite <- !app_assoc. }
    split.
    { cbn [length] in *. rewrite length_app in *. cbn in *. lia. }
    split; [rewrite join_lines_splice, Hjoin; reflexivity|].
    split; [|reflexivity].
    cbn [length] in Hcount. rewrite length_app in Hcount. cbn in Hcount.
    unfold len. cbn [length]. rewrite length_app. cbn. lia.
Qed.

Lemma insert_text_block_content_witness :
  exists e' line region,
    insert_text_block (str "x" ++ [CR; LF] ++ str "yz") sample_editor = Ok e' /\
    buffer_ sample_editor !! Z.to_nat (cur_y_ sample_editor) = Some line /\
    buffer_ e' = take (Z.to_nat (cur_y_ sample_editor)) (buffer_ sample_editor)
                 ++ region
                 ++ drop (S (Z.to_nat (cur_y_ sample_editor)))
                      (buffer_ sample_editor) /\
    length region = S (count_char LF (str "x" ++ [CR; LF] ++ str "yz")) /\
    join_lines region
    = take (Z.to_nat (cur_x_ sample_editor)) line
      ++ filter (fun c => c <> CR) (str "x" ++ [CR; LF] ++ str "yz")
      ++ drop (Z.to_nat (cur_x_ sample_editor)) line /\
    cur_y_ e' = cur_y_ sample_editor
                + Z.of_nat (count_char LF (str "x" ++ [CR; LF] ++ str "yz")) /\
    dirty_ e' = true.
Proof.
  apply (insert_text_block_content (str "x" ++ [CR; LF] ++ str "yz")
           sample_editor).
  - apply (cursor_ok_intro sample_editor (str "de"));
      [unfold sample_editor; cbn; lia | reflexivity
      | unfold sample_editor, len; cbn; lia].
  - discriminate.
Defined.

(** ** Edit operations on a buffer split at the cursor line *)

Section EditForms.

Lemma len_app {A} (l k : list A) : len (l ++ k) = len l + len k.
Proof. unfold len. rewrite length_app. lia. Qed.

Lemma len_nonneg {A} (l : list A) : 0 <= len l.
Proof. unfold len. lia. Qed.

Lemma at_middle {A} (pre post : list A) (x : A) :
  at_ (pre ++ x :: post) (len pre) = Ok x.
Proof.
  apply at_Ok; [apply len_nonneg|]. unfold len. rewrite Nat2Z.id.
  now apply list_lookup_middle.
Qed.

Lemma insert_middle {A} (pre post : list A) (x new : A) :
  <[Z.to_nat (len pre) := new]> (pre ++ x :: post) = pre ++ new :: post.
Proof.
  unfold len. rewrite Nat2Z.id, insert_app_r_alt by lia.
  now rewrite Nat.sub_diag.
Qed.

Lemma take_middle {A} (pre post : list A) (x : A) :
  take (Z.to_nat (len pre)) (pre ++ x :: post) = pre.
Proof. unfold len. rewrite Nat2Z.id. apply take_app_length. Qed.

Lemma take_S_middle {A} (pre post : list A) (x : A) :
  take (S (Z.to_nat (len pre))) (pre ++ x :: post) = pre ++ [x].
Proof.
  unfold len. rewrite Nat2Z.id, take_app_ge by lia.
  now replace (S (length pre) - length pre)%nat with 1%nat by lia.
Qed.

Lemma drop_S_middle {A} (pre post : list A) (x : A) :
  drop (S (Z.to_nat (len pre))) (pre ++ x :: post) = post.
Proof.
  unfold len. rewrite Nat2Z.id.
  replace (pre ++ x :: post) with ((pre ++ [x]) ++ post)
    by now rewrite <- app_assoc.
  apply drop_app_length'. rewrite length_app. cbn. lia.
Qed.

(** A state with the cursor inside the document is a buffer split around
    the cursor line. *)
Lemma cursor_ok_split (e : Editor) :
  cursor_ok e ->
  exists pre line post,
    e = mkEditor (pre ++ line :: post) (filename_ e) (status_ e) (mode_ e)
                 (cmdbuf_ e) (dirty_ e) (len pre) (cur_x_ e) (off_y_ e)
                 (off_x_ e) /\
    0 <= cur_x_ e <= len line.
Proof.
  intros (_ & Hy & line & Hl & Hx).
  exists (take (Z.to_nat (cur_y_ e)) (buffer_ e)), line,
         (drop (S (Z.to_nat (cur_y_ e))) (buffer_ e)).
  split; [|exact Hx].
  rewrite take_drop_middle by exact Hl.
  apply lookup_lt_Some in Hl.
  replace (len (take (Z.to_nat (cur_y_ e)) (buffer_ e))) with (cur_y_ e)
    by (unfold len; rewrite length_take; lia).
  now destruct e.
Qed.

Lemma split_cursor_ok (pre post : list text) (line f s m cb : text)
    (d : bool) (x oy ox : Z) :
  0 <= x <= len line ->
  cursor_ok (mkEditor (pre ++ line :: post) f s m cb d (len pre) x oy ox).
Proof.
  intros Hx. apply (cursor_ok_intro _ line); cbn.
  - apply len_nonneg.
  - unfold len. rewrite Nat2Z.id. now apply list_lookup_middle.
  - exact Hx.
Qed.

Variables (pre post : list text) (line f s m cb : text) (d : bool).
Variables (x oy ox : Z).

Lemma insert_char_at (c : ascii) :
  0 <= x <= len line ->
  insert_char c (mkEditor (pre ++ line :: post) f s m cb d (len pre) x oy ox)
  = Ok (mkEditor (pre ++ (take (Z.to_nat x) line ++ c :: drop (Z.to_nat x) line)
                        :: post)
                 f s m cb true (len pre) (x + 1) oy ox).
Proof.
  intros Hx. unfold insert_char. cbn.
  destruct (decide (pre ++ line :: post = [])) as [E|_];
    [now destruct pre|].
  cbn. rewrite at_middle. cbn. rewrite clamp_in by lia. cbn.
  unfold insert1.
  destruct (Z.ltb_spec x 0); [lia|].
  destruct (Z.ltb_spec (len line) x); [lia|]. cbn.
  unfold set_dirty, set_cur_x, set_buffer. cbn. now rewrite insert_middle.
Qed.

Lemma backspace_char_at :
  0 < x <= len line ->
  backspace (mkEditor (pre ++ line :: post) f s m cb d (len pre) x oy ox)
  = Ok (mkEditor (pre ++ (take (Z.to_nat (x - 1)) line
                          ++ drop (S (Z.to_nat (x - 1))) line) :: post)
                 f s m cb true (len pre) (x - 1) oy ox).
Proof.
  intros Hx. unfold backspace. cbn.
  destruct (Z.ltb_spec 0 x); [|lia].
  rewrite at_middle. cbn. unfold erase1.
  destruct (Z.ltb_spec (x - 1) 0); [lia|].
  destruct (Z.ltb_spec (len line) (x - 1)); [lia|]. cbn.
  unfold set_dirty, set_cur_x, set_buffer. cbn. now rewrite insert_middle.
Qed.

Lemma backspace_join_at (prev : text) :
  backspace (mkEditor ((pre ++ [prev]) ++ line :: post) f s m cb d
                      (len (pre ++ [prev])) 0 oy ox)
  = Ok (mkEditor (pre ++ (prev ++ line) :: post) f s m cb true
                 (len pre) (len prev) oy ox).
Proof.
  unfold backspace. cbn [cur_x_ cur_y_ buffer_].
  destruct (Z.ltb_spec 0 0); [lia|].
  assert (Hlen : len (pre ++ [prev]) = len pre + 1)
    by (rewrite len_app; reflexivity).
  pose proof (len_nonneg pre) as Hpre.
  destruct (Z.ltb_spec 0 (len (pre ++ [prev]))); [|lia].
  rewrite at_middle.
  replace (len (pre ++ [prev]) - 1) with (len pre) by lia.
  rewrite <- (app_assoc pre [prev]). cbn [app].
  rewrite at_middle. cbn.
  unfold set_dirty, set_cur_x, set_cur_y, set_buffer. cbn. f_equal.
  replace (Nat.pred (Z.to_nat (len (pre ++ [prev]))))
    with (Z.to_nat (len pre)) by lia.
  rewrite insert_middle.
  replace (Z.to_nat (len (pre ++ [prev]))) with (S (Z.to_nat (len pre)))
    by lia.
  rewrite take_S_middle.
  replace (pre ++ (prev ++ line) :: line :: post)
    with ((pre ++ [prev ++ line]) ++ line :: post)
    by now rewrite <- app_assoc.
  replace (S (S (Z.to_nat (len pre))))
    with (S (Z.to_nat (len (pre ++ [prev ++ line]))))
    by (rewrite len_app; unfold len; cbn; lia).
  rewrite drop_S_middle. now rewrite <- app_assoc.
Qed.

Lemma newline_at :
  0 <= x <= len line ->
  newline (mkEditor (pre ++ line :: post) f s m cb d (len pre) x oy ox)
  = Ok (mkEditor ((pre ++ [take (Z.to_nat x) line])
                  ++ drop (Z.to_nat x) line :: post)
                 f s m cb true (len (pre ++ [take (Z.to_nat x) line])) 0
                 oy ox).
Proof.
  intros Hx. unfold newline. cbn [cur_x_ cur_y_ buffer_].
  rewrite at_middle. cbn. unfold substr_from.
  destruct (Z.ltb_spec x 0); [lia|].
  destruct (Z.ltb_spec (len line) x); [lia|]. cbn.
  unfold set_dirty, set_cur_x, set_cur_y, set_buffer. cbn.
  rewrite insert_middle, take_S_middle, drop_S_middle.
  f_equal. f_equal. rewrite len_app. reflexivity.
Qed.

Lemma del_key_char_at :
  0 <= x < len line ->
  del_key (mkEditor (pre ++ line :: post) f s m cb d (len pre) x oy ox)
  = Ok (mkEditor (pre ++ (take (Z.to_nat x) line
                          ++ drop (S (Z.to_nat x)) line) :: post)
                 f s m cb true (len pre) x oy ox).
Proof.
  intros Hx. unfold del_key. cbn [cur_x_ cur_y_ buffer_].
  rewrite at_middle. cbn.
  destruct (Z.ltb_spec x (len line)); [|lia].
  unfold erase1.
  destruct (Z.ltb_spec x 0); [lia|].
  destruct (Z.ltb_spec (len line) x); [lia|]. cbn.
  unfold set_dirty, set_buffer. cbn. now rewrite insert_middle.
Qed.

Lemma del_key_join_at (next : text) (post' : list text) :
  post = next :: post' -> x = len line ->
  del_key (mkEditor (pre ++ line :: post) f s m cb d (len pre) x oy ox)
  = Ok (mkEditor (pre ++ (line ++ next) :: post') f s m cb true (len pre) x
                 oy ox).
Proof.
  intros -> ->. unfold del_key. cbn [cur_x_ cur_y_ buffer_].
  rewrite at_middle. cbn.
  destruct (Z.ltb_spec (len line) (len line)); [lia|].
  assert (Hlt : (len pre <? len (pre ++ line :: next :: post') - 1) = true).
  { apply Z.ltb_lt. rewrite len_app. unfold len. cbn [length]. lia. }
  rewrite Hlt.
  assert (Hnext : at_ (pre ++ line :: next :: post') (len pre + 1) = Ok next).
  { replace (pre ++ line :: next :: post')
      with ((pre ++ [line]) ++ next :: post') by now rewrite <- app_assoc.
    replace (len pre + 1) with (len (pre ++ [line]))
      by (rewrite len_app; reflexivity).
    apply at_middle. }
  rewrite Hnext. cbn.
  unfold set_dirty, set_buffer. cbn. f_equal.
  rewrite insert_middle, take_S_middle.
  replace (pre ++ (line ++ next) :: next :: post')
    with ((pre ++ [line ++ next]) ++ next :: post')
    by now rewrite <- app_assoc.
  replace (S (S (Z.to_nat (len pre))))
    with (S (Z.to_nat (len (pre ++ [line ++ next]))))
    by (rewrite len_app; unfold len; cbn; lia).
  rewrite drop_S_middle. now rewrite <- app_assoc.
Qed.

Lemma del_key_end_at :
  post = [] -> x = len line ->
  del_key (mkEditor (pre ++ line :: post) f s m cb d (len pre) x oy ox)
  = Ok (mkEditor (pre ++ line :: post) f s m cb d (len pre) x oy ox).
Proof.
  intros -> ->. unfold del_key. cbn [cur_x_ cur_y_ buffer_].
  rewrite at_middle. cbn.
  destruct (Z.ltb_spec (len line) (len line)); [lia|].
  assert (Hlt : (len pre <? len (pre ++ [line]) - 1) = false).
  { apply Z.ltb_ge. rewrite len_app. unfold len. cbn [length]. lia. }
  now rewrite Hlt.
Qed.

Lemma move_right_char_at :
  0 <= x < len line ->
  move_right (mkEditor (pre ++ line :: post) f s m cb d (len pre) x oy ox)
  = Ok (mkEditor (pre ++ line :: post) f s m cb d (len pre) (x + 1) oy ox).
Proof.
  intros Hx. unfold move_right. cbn [cur_x_ cur_y_ buffer_].
  rewrite at_middle. cbn.
  destruct (Z.ltb_spec x (len line)); [reflexivity | lia].
Qed.

Lemma move_right_wrap_at (next : text) (post' : list text) :
  post = next :: post' -> x = len line ->
  move_right (mkEditor (pre ++ line :: post) f s m cb d (len pre) x oy ox)
  = Ok (mkEditor ((pre ++ [line]) ++ next :: post') f s m cb d
                 (len (pre ++ [line])) 0 oy ox).
Proof.
  intros -> ->. unfold move_right. cbn [cur_x_ cur_y_ buffer_].
  rewrite at_middle. cbn.
  destruct (Z.ltb_spec (len line) (len line)); [lia|].
  assert (Hlt : (len pre <? len (pre ++ line :: next :: post') - 1) = true).
  { apply Z.ltb_lt. rewrite len_app. unfold len. cbn [length]. lia. }
  rewrite Hlt.
  unfold set_cur_x, set_cur_y. cbn. rewrite len_app.
  now rewrite <- app_assoc.
Qed.

End EditForms.

(** ** How the edit operations compose *)

Section EditCompose.

Lemma take_insert_drop (line : text) (c : ascii) (n : nat) :
  (n <= length line)%nat ->
  take n (take n line ++ c :: drop n line)
  ++ drop (S n) (take n line ++ c :: drop n line) = line.
Proof.
  intros Hn.
  assert (Hl : length (take n line) = n) by (rewrite length_take; lia).
  rewrite take_app_length' by done.
  replace (take n line ++ c :: drop n line)
    with ((take n line ++ [c]) ++ drop n line) by now rewrite <- app_assoc.
  rewrite drop_app_length' by (rewrite length_app; cbn; lia).
  apply take_drop.
Qed.

End EditCompose.

(** X5.  In a state with the cursor inside the document, [backspace]
    undoes [newline] and undoes [insert_char]: after either pair the
    buffer, the cursor and every other field are what they were, but for
    the dirty flag, which is set. *)
Theorem backspace_undoes (c : ascii) (e : Editor) :
  cursor_ok e ->
  (exists e1, newline e = Ok e1 /\ backspace e1 = Ok (set_dirty true e)) /\
  (exists e1, insert_char c e = Ok e1 /\ backspace e1 = Ok (set_dirty true e)).
Proof.
  intros He. destruct (cursor_ok_split e He) as (pre & line & post & -> & Hx).
  cbn [cur_x_ filename_ status_ mode_ cmdbuf_ dirty_ off_y_ off_x_] in *.
  set (x := cur_x_ e) in *.
  assert (Hxn : (Z.to_nat x <= length line)%nat) by (unfold len in Hx; lia).
  split.
  - rewrite newline_at by exact Hx. eexists. split; [reflexivity|].
    rewrite backspace_join_at. unfold set_dirty. cbn.
    rewrite take_drop. do 2 f_equal.
    unfold len. rewrite length_take. lia.
  - rewrite insert_char_at by exact Hx. eexists. split; [reflexivity|].
    rewrite backspace_char_at
      by (rewrite len_app; unfold len in *; cbn [length];
          rewrite length_take, length_drop; lia).
    unfold set_dirty. cbn.
    replace (x + 1 - 1) with x by lia.
    now rewrite take_insert_drop.
Qed.

Lemma backspace_undoes_witness :
  (exists e1, newline sample_editor = Ok e1 /\
              backspace e1 = Ok (set_dirty true sample_editor)) /\
  (exists e1, insert_char "q" sample_editor = Ok e1 /\
              backspace e1 = Ok (set_dirty true sample_editor)).
Proof.
  apply (backspace_undoes "q" sample_editor).
  apply (cursor_ok_intro sample_editor (str "de"));
    [unfold sample_editor; cbn; lia | reflexivity
    | unfold sample_editor, len; cbn; lia].
Defined.

(** X6.  In a state with the cursor inside the document, the Delete key
    does what one step to the right followed by Backspace does, as long as
    the cursor is not at the very end of the document; there, Delete
    changes nothing. *)
Theorem del_key_is_right_then_backspace (e : Editor) (line : text) :
  cursor_ok e ->
  buffer_ e !! Z.to_nat (cur_y_ e) = Some line ->
  (cur_x_ e < len line \/ cur_y_ e < len (buffer_ e) - 1 ->
   exists e1 e2, move_right e = Ok e1 /\ backspace e1 = Ok e2 /\
                 del_key e = Ok e2) /\
  (cur_x_ e = len line -> cur_y_ e = len (buffer_ e) - 1 ->
   del_key e = Ok e).
Proof.
  intros He Hline.
  destruct (cursor_ok_split e He) as (pre & line' & post & E & Hx).
  assert (line' = line) as ->.
  { rewrite E in Hline. cbn in Hline. unfold len in Hline.
    rewrite Nat2Z.id, list_lookup_middle in Hline by done. congruence. }
  rewrite E.
  cbn [cur_x_ cur_y_ buffer_ filename_ status_ mode_ cmdbuf_ dirty_ off_y_
       off_x_].
  clear E Hline He. set (x := cur_x_ e) in *.
  assert (Hrows : len (pre ++ line :: post) - 1 = len pre + len post).
  { rewrite len_app. unfold len. cbn [length]. lia. }
  rewrite Hrows. pose proof (len_nonneg post) as Hpost.
  split.
  - intros Hpos.
    destruct (Z.lt_ge_cases x (len line)) as [Hin|Hend].
    + rewrite move_right_char_at, del_key_char_at by lia.
      do 2 eexists. split; [reflexivity|].
      rewrite backspace_char_at by lia.
      replace (x + 1 - 1) with x by lia. split; reflexivity.
    + assert (Hxe : x = len line) by lia.
      destruct post as [|next post'];
        [unfold len in *; cbn in Hpos; lia|].
      rewrite (move_right_wrap_at _ _ _ _ _ _ _ _ _ _ _ next post')
        by done.
      rewrite (del_key_join_at _ _ _ _ _ _ _ _ _ _ _ next post') by done.
      do 2 eexists. split; [reflexivity|].
      rewrite backspace_join_at. rewrite Hxe. split; reflexivity.
  - intros Hxe Hye.
    assert (post = []) as ->.
    { destruct post; [done|]. unfold len in Hye. cbn in Hye. lia. }
    now apply del_key_end_at.
Qed.

Lemma del_key_is_right_then_backspace_witness :
  exists e1 e2, move_right (set_cur_y 0 sample_editor) = Ok e1 /\
                backspace e1 = Ok e2 /\
                del_key (set_cur_y 0 sample_editor) = Ok e2.
Proof.
  apply (del_key_is_right_then_backspace (set_cur_y 0 sample_editor)
           (str "abc")).
  - apply (cursor_ok_intro _ (str "abc"));
      [cbn; done | reflexivity | unfold sample_editor, len; cbn; lia].
  - reflexivity.
  - left. unfold sample_editor, len. cbn. lia.
Defined.

(** ** What the keys of [edit_loop] do to the document *)

Section EditKeys.

Lemma at_inv {A} (v : list A) (i : Z) (x : A) :
  at_ v i = Ok x -> 0 <= i /\ v !! Z.to_nat i = Some x.
Proof.
  unfold at_. destruct (Z.ltb_spec i 0); [discriminate|].
  destruct (v !! Z.to_nat i); [|discriminate]. intros [= ->]. auto.
Qed.

Lemma at_elem {A} (v : list A) (i : Z) (x : A) : at_ v i = Ok x -> x ∈ v.
Proof. intros [_ Hl]%at_inv. now apply list_elem_of_lookup_2 in Hl. Qed.

Lemma clamp_cursor_id (e : Editor) : cursor_ok e -> clamp_cursor e = Ok e.
Proof.
  intros (Hne & Hy & line & Hl & Hx). unfold clamp_cursor.
  rewrite clamp_in by lia. cbn.
  rewrite (at_Ok _ _ line) by (lia || assumption). cbn.
  rewrite clamp_in by lia. cbn. now destruct e.
Qed.

Lemma clamp_cursor_frame (e e' : Editor) :
  clamp_cursor e = Ok e' -> only_cursor_moved e e'.
Proof.
  unfold clamp_cursor.
  destruct (clamp (cur_y_ e) _ _) as [y| |]; cbn; try discriminate.
  destruct (at_ _ _) as [line| |]; cbn; try discriminate.
  destruct (clamp (cur_x_ e) _ _) as [x| |]; cbn; try discriminate.
  intros [= <-]. now destruct e.
Qed.

Lemma move_up_frame (e e' : Editor) :
  move_up e = Ok e' -> only_cursor_moved e e'.
Proof.
  unfold move_up. destruct (0 <? cur_y_ e);
    (destruct (at_ _ _) as [line| |]; cbn; try discriminate;
     intros [= <-]; now destruct e).
Qed.

Lemma move_down_frame (e e' : Editor) :
  move_down e = Ok e' -> only_cursor_moved e e'.
Proof.
  unfold move_down. destruct (cur_y_ e <? _);
    (destruct (at_ _ _) as [line| |]; cbn; try discriminate;
     intros [= <-]; now destruct e).
Qed.

Lemma move_left_frame (e e' : Editor) :
  move_left e = Ok e' -> only_cursor_moved e e'.
Proof.
  unfold move_left. destruct (0 <? cur_x_ e).
  - intros [= <-]. now destruct e.
  - destruct (0 <? cur_y_ e).
    + destruct (at_ _ _) as [line| |]; cbn; try discriminate.
      intros [= <-]. now destruct e.
    + intros [= <-]. now destruct e.
Qed.

Lemma move_right_frame (e e' : Editor) :
  move_right e = Ok e' -> only_cursor_moved e e'.
Proof.
  unfold move_right.
  destruct (at_ _ _) as [line| |]; cbn; try discriminate.
  destruct (cur_x_ e <? len line); [intros [= <-]; now destruct e|].
  destruct (cur_y_ e <? _); intros [= <-]; now destruct e.
Qed.

Lemma printable_not_control (ch : Z) :
  printable ch ->
  (ch =? 27) = false /\ (ch =? 13) = false /\ (ch =? 10) = false /\
  (ch =? 8) = false /\ (ch =? 224) = false /\ (ch =? 127) = false /\
  ((32 <=? ch) && (ch <=? 126)) = true.
Proof.
  unfold printable. intros Hp.
  repeat split; try (apply Z.eqb_neq; lia).
  apply andb_true_intro. split; apply Z.leb_le; lia.
Qed.

Lemma vi_keys_elem (ch : Z) :
  ch ∈ vi_keys <-> ch = 104 \/ ch = 106 \/ ch = 107 \/ ch = 108.
Proof.
  unfold vi_keys. rewrite !elem_of_cons, elem_of_nil. tauto.
Qed.

End EditKeys.

(** X7.  A printable key (codes 32 to 126) typed in EDIT mode, with the
    cursor inside the document: the keys h, j, k and l move the cursor and
    change nothing else, so these four letters cannot be typed into the
    document; every other printable key inserts its character at the
    cursor, moves the cursor one column right and sets the dirty flag. *)
Theorem edit_loop_text_keys (ch c2 : Z) (e : Editor) :
  cursor_ok e -> printable ch ->
  (ch ∈ vi_keys ->
   exists e', edit_loop ch c2 e = Ok e' /\ only_cursor_moved e e') /\
  (ch ∉ vi_keys ->
   exists pre line post,
     buffer_ e = pre ++ line :: post /\ cur_y_ e = len pre /\
     edit_loop ch c2 e
     = Ok (set_dirty true
             (set_cur_x (cur_x_ e + 1)
                (set_buffer
                   (pre ++ (take (Z.to_nat (cur_x_ e)) line
                            ++ key_char ch :: drop (Z.to_nat (cur_x_ e)) line)
                        :: post) e)))).
Proof.
  intros He Hp.
  destruct (printable_not_control ch Hp)
    as (H27 & H13 & H10 & H8 & H224 & H127 & Hrange).
  unfold edit_loop. rewrite H27, H13, H10, H8, H224, H127. cbn [orb].
  split.
  - intros Hvi%vi_keys_elem.
    assert (Hmove : exists e1,
      (if ch =? 104 then move_left e
       else if ch =? 106 then move_down e
       else if ch =? 107 then move_up e
       else if ch =? 108 then move_right e
       else if (32 <=? ch) && (ch <=? 126)
            then insert_char (ascii_of_nat (Z.to_nat ch)) e else Ok e)
      = Ok e1 /\ cursor_ok e1 /\ only_cursor_moved e e1).
    { destruct (Z.eqb_spec ch 104);
        [destruct (move_left_ok e He) as (e1 & E & ?); exists e1;
         eauto using move_left_frame|].
      destruct (Z.eqb_spec ch 106);
        [destruct (move_down_ok e He) as (e1 & E & ?); exists e1;
         eauto using move_down_frame|].
      destruct (Z.eqb_spec ch 107);
        [destruct (move_up_ok e He) as (e1 & E & ?); exists e1;
         eauto using move_up_frame|].
      destruct (Z.eqb_spec ch 108);
        [destruct (move_right_ok e He) as (e1 & E & ?); exists e1;
         eauto using move_right_frame|].
      exfalso. lia. }
    destruct Hmove as (e1 & -> & He1 & Hframe). cbn.
    rewrite clamp_cursor_id by exact He1. eauto.
  - intros Hvi. rewrite vi_keys_elem in Hvi.
    destruct (Z.eqb_spec ch 104); [exfalso; tauto|].
    destruct (Z.eqb_spec ch 106); [exfalso; tauto|].
    destruct (Z.eqb_spec ch 107); [exfalso; tauto|].
    destruct (Z.eqb_spec ch 108); [exfalso; tauto|].
    rewrite Hrange.
    destruct (cursor_ok_split e He) as (pre & line & post & E & Hx).
    exists pre, line, post.
    destruct e as [b f s m cb d y x oy ox]. cbn in E, Hx |- *.
    injection E as -> ->.
    split; [reflexivity|]. split; [reflexivity|].
    rewrite insert_char_at by exact Hx. cbn.
    rewrite clamp_cursor_id; [reflexivity|].
    apply split_cursor_ok. rewrite len_app. unfold len in *. cbn [length].
    rewrite length_take, length_drop. lia.
Qed.

Lemma edit_loop_text_keys_witness :
  (exists e', edit_loop 106 0 (set_cur_y 0 sample_editor) = Ok e' /\
              only_cursor_moved (set_cur_y 0 sample_editor) e') /\
  (exists pre line post,
     buffer_ sample_editor = pre ++ line :: post /\
     cur_y_ sample_editor = len pre /\
     edit_loop 120 0 sample_editor
     = Ok (set_dirty true
             (set_cur_x (cur_x_ sample_editor + 1)
                (set_buffer
                   (pre ++ (take (Z.to_nat (cur_x_ sample_editor)) line
                            ++ key_char 120
                               :: drop (Z.to_nat (cur_x_ sample_editor)) line)
                        :: post) sample_editor)))).
Proof.
  split.
  - apply (edit_loop_text_keys 106 0 (set_cur_y 0 sample_editor)).
    + apply (cursor_ok_intro _ (str "abc"));
        [cbn; done | reflexivity | unfold sample_editor, len; cbn; lia].
    + unfold printable. lia.
    + apply vi_keys_elem. lia.
  - apply (edit_loop_text_keys 120 0 sample_editor).
    + apply (cursor_ok_intro _ (str "de"));
        [cbn; done | reflexivity | unfold sample_editor, len; cbn; lia].
    + unfold printable. lia.
    + rewrite vi_keys_elem. lia.
Defined.

(** ** What every operation keeps: clean lines, viewport, mode *)

Section Frames.

Lemma clean_take (l : text) (n : nat) : LF ∉ l -> LF ∉ take n l.
Proof. intros Hl Hin. apply Hl. eapply subseteq_take, Hin. Qed.

Lemma clean_drop (l : text) (n : nat) : LF ∉ l -> LF ∉ drop n l.
Proof. intros Hl Hin. apply Hl. eapply subseteq_drop, Hin. Qed.

Lemma clean_app (l k : text) : LF ∉ l -> LF ∉ k -> LF ∉ l ++ k.
Proof. intros Hl Hk [?|?]%elem_of_app; auto. Qed.

Lemma clean_elem (b : list text) (l : text) :
  Forall (fun l => LF ∉ l) b -> l ∈ b -> LF ∉ l.
Proof. intros Hb Hl. eapply Forall_forall in Hb; eauto. Qed.

Lemma clean_splice (b mid : list text) (n k : nat) :
  Forall (fun l => LF ∉ l) b -> Forall (fun l => LF ∉ l) mid ->
  Forall (fun l => LF ∉ l) (take n b ++ mid ++ drop k b).
Proof.
  intros Hb Hmid. apply Forall_app. split; [now apply Forall_take|].
  apply Forall_app. split; [done | now apply Forall_drop].
Qed.

Lemma clean_cut (b : list text) (n k : nat) :
  Forall (fun l => LF ∉ l) b ->
  Forall (fun l => LF ∉ l) (take n b ++ drop k b).
Proof.
  intros Hb. apply Forall_app. split; [now apply Forall_take|].
  now apply Forall_drop.
Qed.

Lemma keeps_frame_refl (e : Editor) : keeps_frame e e.
Proof. unfold keeps_frame. auto. Qed.

Lemma keeps_frame_trans (e1 e2 e3 : Editor) :
  keeps_frame e1 e2 -> keeps_frame e2 e3 -> keeps_frame e1 e3.
Proof. unfold keeps_frame. intuition congruence. Qed.

Lemma keeps_frame_status (s : text) (e e' : Editor) :
  keeps_frame e e' -> keeps_frame e (set_status s e').
Proof. unfold keeps_frame, lines_clean. cbn. tauto. Qed.

Lemma only_cursor_keeps (e e' : Editor) :
  only_cursor_moved e e' -> keeps_frame e e'.
Proof.
  unfold only_cursor_moved, keeps_frame, lines_clean. intros ->. cbn. auto.
Qed.

Lemma insert_char_keeps (c : ascii) (e e' : Editor) :
  c <> LF -> insert_char c e = Ok e' -> keeps_frame e e'.
Proof.
  intros Hc. unfold insert_char.
  set (e0 := if decide (buffer_ e = []) then set_buffer [[]] e else e).
  assert (H0 : keeps_frame e e0).
  { subst e0. destruct (decide (buffer_ e = []));
      [|apply keeps_frame_refl].
    unfold keeps_frame, lines_clean. cbn. repeat split.
    intros _. repeat constructor. apply not_elem_of_nil. }
  destruct (at_ _ _) as [line| |] eqn:Hat; cbn; try discriminate.
  destruct (clamp _ _ _) as [x| |]; cbn; try discriminate.
  unfold insert1. destruct (_ || _); cbn; [discriminate|].
  intros [= <-]. apply (keeps_frame_trans _ e0); [exact H0|].
  unfold keeps_frame, lines_clean. cbn. repeat split.
  intros Hb. apply Forall_insert; [exact Hb|].
  apply at_elem in Hat. pose proof (clean_elem _ _ Hb Hat) as Hl.
  apply clean_app; [now apply clean_take|].
  intros [?|Hd]%elem_of_cons; [congruence|].
  revert Hd. now apply clean_drop.
Qed.

Lemma newline_keeps (e e' : Editor) : newline e = Ok e' -> keeps_frame e e'.
Proof.
  unfold newline.
  destruct (at_ _ _) as [line| |] eqn:Hat; cbn; try discriminate.
  unfold substr_from. destruct (_ || _); cbn; [discriminate|].
  intros [= <-]. unfold keeps_frame, lines_clean. cbn. repeat split.
  intros Hb. apply at_elem in Hat. pose proof (clean_elem _ _ Hb Hat) as Hl.
  apply clean_splice with (mid := [_]).
  - apply Forall_insert; [exact Hb | now apply clean_take].
  - constructor; [now apply clean_drop | constructor].
Qed.

Lemma backspace_keeps (e e' : Editor) :
  backspace e = Ok e' -> keeps_frame e e'.
Proof.
  unfold backspace. destruct (0 <? cur_x_ e).
  - destruct (at_ _ _) as [line| |] eqn:Hat; cbn; try discriminate.
    unfold erase1. destruct (_ || _); cbn; [discriminate|].
    intros [= <-]. unfold keeps_frame, lines_clean. cbn. repeat split.
    intros Hb. apply at_elem in Hat. pose proof (clean_elem _ _ Hb Hat).
    apply Forall_insert; [exact Hb|].
    apply clean_app; [now apply clean_take | now apply clean_drop].
  - destruct (0 <? cur_y_ e); [|intros [= <-]; apply keeps_frame_refl].
    destruct (at_ _ (cur_y_ e - 1)) as [prev| |] eqn:Hprev; cbn;
      try discriminate.
    destruct (at_ _ (cur_y_ e)) as [cur| |] eqn:Hcur; cbn; try discriminate.
    intros [= <-]. unfold keeps_frame, lines_clean. cbn. repeat split.
    intros Hb. apply at_elem in Hprev, Hcur.
    apply clean_cut.
    apply Forall_insert; [exact Hb|].
    apply clean_app; eapply clean_elem; eauto.
Qed.

Lemma del_key_keeps (e e' : Editor) : del_key e = Ok e' -> keeps_frame e e'.
Proof.
  unfold del_key.
  destruct (at_ _ (cur_y_ e)) as [line| |] eqn:Hat; cbn; try discriminate.
  destruct (cur_x_ e <? len line).
  - unfold erase1. destruct (_ || _); cbn; [discriminate|].
    intros [= <-]. unfold keeps_frame, lines_clean. cbn. repeat split.
    intros Hb. apply at_elem in Hat. pose proof (clean_elem _ _ Hb Hat).
    apply Forall_insert; [exact Hb|].
    apply clean_app; [now apply clean_take | now apply clean_drop].
  - destruct (cur_y_ e <? _); [|intros [= <-]; apply keeps_frame_refl].
    destruct (at_ _ (cur_y_ e + 1)) as [next| |] eqn:Hnext; cbn;
      try discriminate.
    intros [= <-]. unfold keeps_frame, lines_clean. cbn. repeat split.
    intros Hb. apply at_elem in Hat, Hnext.
    apply clean_cut.
    apply Forall_insert; [exact Hb|].
    apply clean_app; eapply clean_elem; eauto.
Qed.

Lemma key_char_not_LF (ch : Z) : printable ch -> key_char ch <> LF.
Proof.
  unfold printable, key_char, LF. intros Hp E.
  apply (f_equal nat_of_ascii) in E.
  rewrite !nat_ascii_embedding in E by lia. lia.
Qed.

End Frames.

(** ** The session invariant, operation by operation *)

Section SessionSteps.
Context `{StdSort}.

Lemma session_step (e e' : Editor) :
  session_ok e -> cursor_ok e' -> keeps_frame e e' -> session_ok e'.
Proof.
  intros (_ & Hc & [Hy Hx] & Hm) He' (Hclean & Hoy & Hox & Hmode & _).
  split; [exact He'|]. split; [now apply Hclean|].
  split; [unfold offsets_ok; lia|].
  unfold mode_ok in *. now rewrite Hmode.
Qed.

Lemma edit_loop_frame (ch c2 : Z) (e e' : Editor) :
  edit_loop ch c2 e = Ok e' ->
  keeps_frame e e' \/
  (ch = 27 /\
   keeps_frame (set_cmdbuf [] (set_status [] (set_mode (str "COMMAND") e)))
     e').
Proof.
  unfold edit_loop.
  match goal with
  | |- context [mbind _ ?stage] => destruct stage as [e1| |] eqn:Hstage
  end; cbn; try discriminate.
  intros Hclamp%clamp_cursor_frame%only_cursor_keeps.
  assert (H1 : keeps_frame e e1 \/
               (ch = 27 /\
                e1 = set_cmdbuf []
                       (set_status [] (set_mode (str "COMMAND") e)))).
  { revert Hstage.
    destruct (Z.eqb_spec ch 27); [intros [= <-]; now right|].
    repeat match goal with
           | |- context [if ?b then _ else _] => destruct b eqn:?
           end;
      eauto using newline_keeps, backspace_keeps, del_key_keeps,
                  only_cursor_keeps, move_up_frame, move_down_frame,
                  move_left_frame, move_right_frame.
    - intros [= <-]. left. apply keeps_frame_refl.
    - intros Hins. left. eapply insert_char_keeps; [|exact Hins].
      apply key_char_not_LF. unfold printable.
      match goal with
      | Hr : (_ && _) = true |- _ =>
          apply andb_prop in Hr as [?%Z.leb_le ?%Z.leb_le]
      end.
      lia.
    - intros [= <-]. left. apply keeps_frame_refl. }
  destruct H1 as [H1 | [-> ->]].
  - left. eapply keeps_frame_trans; eauto.
  - right. split; [reflexivity | exact Hclamp].
Qed.

Lemma edit_loop_cursor (ch c2 : Z) (e : Editor) :
  cursor_ok e -> exists e', edit_loop ch c2 e = Ok e' /\ cursor_ok e'.
Proof.
  intros He. unfold edit_loop.
  match goal with
  | |- context [mbind _ ?stage] =>
      assert (Hstep : exists e1, stage = Ok e1 /\ cursor_ok e1)
  end.
  { repeat match goal with
           | |- context [if ?b then _ else _] => destruct b
           end;
      eauto using newline_ok, backspace_ok, del_key_ok, move_up_ok,
                  move_down_ok, move_left_ok, move_right_ok.
    destruct (insert_char_ok (ascii_of_nat (Z.to_nat ch)) e He)
      as (e1 & ? & ? & _). eauto. }
  destruct Hstep as (e1 & -> & He1). cbn. now apply clamp_cursor_ok.
Qed.

Lemma edit_loop_session (ch c2 : Z) (e : Editor) :
  session_ok e -> exists e', edit_loop ch c2 e = Ok e' /\ session_ok e'.
Proof.
  intros Hs. destruct (edit_loop_cursor ch c2 e) as (e' & Hrun & He');
    [apply Hs|].
  exists e'. split; [exact Hrun|].
  destruct (edit_loop_frame _ _ _ _ Hrun) as [Hk | [_ Hk]].
  - eapply session_step; eauto.
  - eapply session_step; [|exact He' | exact Hk].
    destruct Hs as (Hc & Hl & Ho & _).
    split; [exact Hc|]. split; [exact Hl|]. split; [exact Ho | now right].
Qed.

Lemma block_lines_clean (txt s : text) (acc : list text) :
  Forall (fun l => LF ∉ l) acc -> LF ∉ s ->
  Forall (fun l => LF ∉ l) (block_lines txt s acc).
Proof.
  revert s acc. induction txt as [|c txt IH]; intros s acc Hacc Hs; cbn.
  - apply Forall_app. split; [exact Hacc|]. now repeat constructor.
  - unfold is_char. case_bool_decide as Hlf.
    + apply IH; [|apply not_elem_of_nil].
      apply Forall_app. split; [exact Hacc|]. now repeat constructor.
    + case_bool_decide; [now apply IH|].
      apply IH; [exact Hacc|].
      apply clean_app; [exact Hs|].
      intros [?|?%elem_of_nil]%elem_of_cons; congruence.
Qed.

Lemma insert_text_block_keeps (txt : text) (e e' : Editor) :
  insert_text_block txt e = Ok e' -> keeps_frame e e'.
Proof.
  unfold insert_text_block.
  destruct (decide (txt = [])); [intros [= <-]; apply keeps_frame_refl|].
  destruct (at_ _ (cur_y_ e)) as [cur| |] eqn:Hcur; cbn; try discriminate.
  unfold substr_from. destruct (_ || _); cbn; [discriminate|].
  destruct (at_ (_ ++ _) _) as [last_line| |] eqn:Hlast; cbn;
    try discriminate.
  intros [= <-]. unfold keeps_frame, lines_clean. cbn. repeat split.
  intros Hb. apply at_elem in Hcur, Hlast.
  pose proof (clean_elem _ _ Hb Hcur) as Hc.
  assert (Hlines : Forall (fun l => LF ∉ l) (block_lines txt [] []))
    by (apply block_lines_clean; [constructor | apply not_elem_of_nil]).
  match type of Hlast with
  | _ ∈ ?b2 => assert (Hb2 : Forall (fun l => LF ∉ l) b2)
  end.
  { apply clean_splice; [|now apply Forall_drop].
    apply Forall_insert; [exact Hb|].
    apply clean_app.
    - unfold substr_to. destruct (cur_x_ e <? 0); [exact Hc|].
      now apply clean_take.
    - destruct (block_lines txt [] []) as [|first rest]; cbn;
        [apply not_elem_of_nil|].
      now apply Forall_cons in Hlines as [? _]. }
  apply Forall_insert; [exact Hb2|].
  apply clean_app; [eapply clean_elem; eauto | now apply clean_drop].
Qed.

Lemma insert_text_block_session (txt : text) (e : Editor) :
  session_ok e ->
  exists e', insert_text_block txt e = Ok e' /\ session_ok e'.
Proof.
  intros Hs. destruct (insert_text_block_ok txt e) as (e' & Hrun & He');
    [apply Hs|].
  exists e'. split; [exact Hrun|].
  eapply session_step; eauto using insert_text_block_keeps.
Qed.

Lemma command_shell_session (cmd : text) (w : World) (e : Editor) :
  session_ok e -> exists e', command_shell cmd w e = Ok e' /\ session_ok e'.
Proof.
  intros Hs. unfold command_shell.
  destruct (decide (trim_copy (run_shell_capture cmd w) = []));
    [eexists; split; [reflexivity | exact Hs]|].
  match goal with
  | |- context [insert_text_block ?t ?e0] =>
      destruct (insert_text_block_session t e0 Hs) as (e1 & -> & Hs1)
  end.
  cbn. eexists; split; [reflexivity | exact Hs1].
Qed.

Lemma command_cpp_session (w : World) (e : Editor) :
  session_ok e ->
  exists w' e', command_cpp w e = Ok (w', e') /\ session_ok e'.
Proof.
  intros Hs. unfold command_cpp.
  destruct (write_text_file _ _ w) as [ok w'].
  destruct ok; cbn [negb];
    [|do 2 eexists; split; [reflexivity | exact Hs]].
  destruct (negb (bool_decide (trim_copy _ = []))).
  - match goal with
    | |- context [insert_text_block ?t ?e0] =>
        destruct (insert_text_block_session t e0 Hs) as (e1 & -> & Hs1)
    end.
    cbn. do 2 eexists; split; [reflexivity | exact Hs1].
  - destruct (negb (bool_decide (trim_copy _ = [])));
      [|do 2 eexists; split; [reflexivity | exact Hs]].
    match goal with
    | |- context [insert_text_block ?t ?e0] =>
        destruct (insert_text_block_session t e0 Hs) as (e1 & -> & Hs1)
    end.
    cbn. do 2 eexists; split; [reflexivity | exact Hs1].
Qed.

Lemma tok_stats_session (path_opt : option text) (w : World) (e : Editor) :
  session_ok e -> exists e', tok_stats path_opt w e = Ok e' /\ session_ok e'.
Proof.
  intros Hs. unfold tok_stats.
  destruct (match path_opt with Some _ => _ | None => _ end);
    [|eexists; split; [reflexivity | exact Hs]].
  match goal with
  | |- context [insert_text_block ?t ?e0] =>
      destruct (insert_text_block_session t e0 Hs) as (e1 & -> & Hs1)
  end.
  cbn. eexists; split; [reflexivity | exact Hs1].
Qed.

Lemma tok_ngram_session (N K : N) (e : Editor) :
  session_ok e -> exists e', tok_ngram N K e = Ok e' /\ session_ok e'.
Proof.
  intros Hs. unfold tok_ngram.
  destruct (N =? 0)%N; [eexists; split; [reflexivity | exact Hs]|].
  match goal with
  | |- context [insert_text_block ?t ?e0] =>
      destruct (insert_text_block_session t e0 Hs) as (e1 & -> & Hs1)
  end.
  cbn. eexists; split; [reflexivity | exact Hs1].
Qed.

Lemma tok_perm_session (len limit : N) (e : Editor) :
  session_ok e -> exists e', tok_perm len limit e = Ok e' /\ session_ok e'.
Proof.
  intros Hs. unfold tok_perm.
  destruct (decide (compose_permutations len (clamp_limit limit) = []));
    [eexists; split; [reflexivity | exact Hs]|].
  match goal with
  | |- context [insert_text_block ?t ?e0] =>
      destruct (insert_text_block_session t e0 Hs) as (e1 & -> & Hs1)
  end.
  cbn. eexists; split; [reflexivity | exact Hs1].
Qed.

Lemma save_file_session (path : text) (w : World) (e : Editor) :
  session_ok e -> session_ok (save_file path w e).2.
Proof.
  intros Hs. unfold save_file, write_text_file.
  destruct (writable w path); exact Hs.
Qed.

Lemma tok_export_session (outpath : text) (w : World) (e : Editor) :
  session_ok e -> session_ok (tok_export outpath w e).2.
Proof.
  intros Hs. unfold tok_export.
  destruct (write_text_file _ _ w) as [[] w']; exact Hs.
Qed.

Lemma removelast_subseteq (l : text) : removelast l ⊆ l.
Proof.
  induction l as [|c l IH]; intros x Hx; [done|].
  destruct l as [|d l]; [now apply elem_of_nil in Hx|].
  change (removelast (c :: d :: l)) with (c :: removelast (d :: l)) in Hx.
  apply elem_of_cons in Hx as [->|Hx]; [left | right; now apply IH].
Qed.

Lemma read_until_lf_clean (iss : text) : LF ∉ (read_until_lf iss).1.
Proof.
  induction iss as [|c iss IH]; cbn; [apply not_elem_of_nil|].
  unfold is_char. case_bool_decide as Hc; cbn; [apply not_elem_of_nil|].
  destruct (read_until_lf iss) as [l r]. cbn in *.
  intros [?|?]%elem_of_cons; congruence.
Qed.

Lemma getline_loop_clean (fuel : nat) (iss : text) (acc : list text) :
  Forall (fun l => LF ∉ l) acc ->
  Forall (fun l => LF ∉ l) (getline_loop fuel iss acc).
Proof.
  revert iss acc. induction fuel as [|fuel IH]; intros iss acc Hacc; cbn;
    [done|].
  destruct iss as [|c iss]; cbn [getline]; [done|].
  pose proof (read_until_lf_clean (c :: iss)) as Hl.
  destruct (read_until_lf (c :: iss)) as [line iss']. cbn [fst] in Hl.
  apply IH. apply Forall_app. split; [exact Hacc|].
  constructor; [|constructor].
  intros Hin. apply Hl. unfold pop_cr in Hin.
  destruct (last line); [|exact Hin].
  destruct (is_char a CR); [|exact Hin]. now apply removelast_subseteq.
Qed.

Lemma load_lines_clean (txt : text) :
  Forall (fun l => LF ∉ l) (load_lines txt).
Proof.
  unfold load_lines.
  pose proof (getline_loop_clean (length txt) txt [] (Forall_nil_2 _)) as Hb.
  destruct (_ && _); [|exact Hb].
  apply Forall_app. split; [exact Hb|].
  constructor; [apply not_elem_of_nil | constructor].
Qed.

(** [open_file] starts a fresh, well-formed session state, unless the file
    it read is empty. *)
Lemma open_file_session (path : text) (w : World) (e : Editor) :
  mode_ok e ->
  lines_clean (open_file path w e) /\ offsets_ok (open_file path w e) /\
  mode_ok (open_file path w e) /\
  (cursor_ok (open_file path w e) \/
   (buffer_ (open_file path w e) = [] /\ files w !! path = Some [])).
Proof.
  intros Hm. split; [|split; [|split]].
  - unfold open_file, lines_clean.
    destruct (read_text_file path w); cbn; [apply load_lines_clean|].
    constructor; [apply not_elem_of_nil | constructor].
  - unfold open_file, offsets_ok.
    destruct (read_text_file path w); cbn; lia.
  - unfold open_file, mode_ok in *.
    destruct (read_text_file path w); cbn; exact Hm.
  - apply open_file_cursor.
Qed.

End SessionSteps.

(** ** The viewport and the screen *)

Ltac split_if_Z :=
  match goal with
  | |- context [if ?a <? ?b then _ else _] =>
      lazymatch a with
      | context [if _ then _ else _] => fail
      | _ => destruct (Z.ltb_spec a b)
      end
  | |- context [if ?a <=? ?b then _ else _] =>
      lazymatch a with
      | context [if _ then _ else _] => fail
      | _ => destruct (Z.leb_spec a b)
      end
  end.

Lemma ensure_visible_fields (win : SmallRect) (e : Editor) :
  exists oy ox, 0 <= oy /\ 0 <= ox /\ ensure_visible win e = set_off oy ox e.
Proof.
  unfold ensure_visible. destruct (get_console_size win) as [rows cols].
  match goal with
  | |- exists oy ox, _ /\ _ /\ set_off ?a ?b _ = _ => exists a, b
  end.
  split; [|split; [|reflexivity]].
  - match goal with |- 0 <= (if ?c <? 0 then _ else _) =>
      destruct (Z.ltb_spec c 0); [done | assumption] end.
  - match goal with |- 0 <= (if ?c <? 0 then _ else _) =>
      destruct (Z.ltb_spec c 0); [done | assumption] end.
Qed.

Lemma ensure_visible_in_view (win : SmallRect) (e : Editor) :
  0 <= cur_y_ e -> 0 <= cur_x_ e -> in_view win (ensure_visible win e).
Proof.
  intros Hy Hx. unfold in_view, ensure_visible.
  destruct (get_console_size win) as [rows cols].
  cbn [off_y_ off_x_ cur_y_ cur_x_ set_off].
  repeat split_if_Z; lia.
Qed.

Lemma ensure_visible_settled (win : SmallRect) (e : Editor) :
  offsets_ok e -> in_view win e -> ensure_visible win e = e.
Proof.
  unfold offsets_ok, in_view, ensure_visible.
  destruct (get_console_size win) as [rows cols].
  intros [Hoy Hox] [Hy Hx]. destruct e as [b f s m cb d y x oy ox].
  cbn [off_y_ off_x_ cur_y_ cur_x_ set_off buffer_ filename_ status_ mode_
       cmdbuf_ dirty_] in *.
  repeat (split_if_Z; try lia).
  reflexivity.
Qed.

Lemma ensure_visible_session (win : SmallRect) (e : Editor) :
  session_ok e -> session_ok (ensure_visible win e).
Proof.
  intros (Hc & Hl & _ & Hm).
  destruct (ensure_visible_fields win e) as (oy & ox & Hoy & Hox & ->).
  repeat split; try apply Hc; auto.
Qed.

Lemma slice_of_returns (full : text) (off_x : Z) :
  0 <= off_x -> exists s, slice_of full off_x = Ok s.
Proof.
  intros Hx. unfold slice_of, substr_from.
  destruct (Z.ltb_spec off_x (len full)); [|eauto].
  destruct (Z.ltb_spec off_x 0); [lia|].
  destruct (Z.ltb_spec (len full) off_x); [lia|]. cbn. eauto.
Qed.

Lemma draw_rows_returns (count : nat) (y : Z) (e : Editor) :
  0 <= off_x_ e -> exists out, draw_rows count y e = Ok out.
Proof.
  intros Hx. revert y. induction count as [|count IH]; intros y; cbn;
    [eauto|].
  destruct (Z.ltb_spec (off_y_ e + y) 0); cbn; [eauto|].
  destruct (Z.leb_spec (len (buffer_ e)) (off_y_ e + y)); cbn; [eauto|].
  destruct (lookup_Z (buffer_ e) (off_y_ e + y)) as [full Hfull]; [lia|].
  rewrite (at_Ok _ _ full) by (auto; lia). cbn.
  destruct (slice_of_returns full (off_x_ e) Hx) as [s ->]. cbn.
  destruct (IH (y + 1)) as [rest ->]. cbn. eauto.
Qed.

Lemma draw_returns (win : SmallRect) (e : Editor) :
  0 <= off_x_ e -> exists out, draw win e = Ok out.
Proof.
  intros Hx. unfold draw. destruct (get_console_size win) as [rows cols].
  destruct (draw_rows_returns (Z.to_nat (rows - 1)) 0 e Hx) as [body ->].
  cbn. eauto.
Qed.

Lemma len_replicate {A} (n : nat) (x : A) : len (replicate n x) = Z.of_nat n.
Proof. unfold len. now rewrite length_replicate. Qed.

(** X8.  What [ensure_visible] establishes: the offsets are never
    negative afterwards and nothing but the offsets changes; with the
    cursor at a non-negative position, the cursor then lies inside the
    window of [max(1, rows-1)] rows and [max(1, cols)] columns; and a state
    whose cursor already lies inside the window, at non-negative offsets,
    is returned as it is. *)
Theorem ensure_visible_shows_cursor (win : SmallRect) (e : Editor) :
  0 <= cur_y_ e -> 0 <= cur_x_ e ->
  let e' := ensure_visible win e in
  offsets_ok e' /\ in_view win e' /\
  e' = set_off (off_y_ e') (off_x_ e') e /\
  (offsets_ok e -> in_view win e -> e' = e).
Proof.
  intros Hy Hx e'. subst e'.
  split; [|split; [now apply ensure_visible_in_view|split]].
  - destruct (ensure_visible_fields win e) as (oy & ox & Hoy & Hox & ->).
    now split.
  - destruct (ensure_visible_fields win e) as (oy & ox & Hoy & Hox & ->).
    reflexivity.
  - apply ensure_visible_settled.
Qed.

Lemma ensure_visible_shows_cursor_witness :
  let e := set_cur_y 100 (set_buffer (replicate 200 (str "x")) sample_editor) in
  let win := mkSmallRect 0 0 79 24 in
  let e' := ensure_visible win e in
  off_y_ e' = 77 /\
  offsets_ok e' /\ in_view win e' /\
  e' = set_off (off_y_ e') (off_x_ e') e /\
  (offsets_ok e -> in_view win e -> e' = e).
Proof.
  split; [reflexivity|].
  apply (ensure_visible_shows_cursor (mkSmallRect 0 0 79 24)
           (set_cur_y 100
              (set_buffer (replicate 200 (str "x")) sample_editor)));
    cbn; done.
Defined.

(** X9.  [draw] after [ensure_visible] always returns, whatever the state
    of the editor: no row of the loop reads outside the buffer and no
    [substr] throws.  The status bar it prints is as wide as the console
    when the two texts fit, and as wide as the two texts otherwise. *)
Theorem draw_after_ensure_visible (win : SmallRect) (e : Editor) :
  (exists out, draw win (ensure_visible win e) = Ok out) /\
  forall cols,
    len (status_bar cols e)
    = Z.max cols (len (status_left e) + len (status_right e)).
Proof.
  split.
  - destruct (ensure_visible_fields win e) as (oy & ox & Hoy & Hox & ->).
    now apply draw_returns.
  - intros cols. unfold status_bar. cbn zeta.
    rewrite !len_app, len_replicate.
    destruct (Z.ltb_spec (cols - len (status_left e) - len (status_right e))
                0); lia.
Qed.

(** ** The session loop *)

Section SessionLoop.
Context `{StdSort}.

Lemma session_to_edit (e : Editor) :
  session_ok e -> session_ok (set_mode (str "EDIT") (set_cmdbuf [] e)).
Proof.
  intros (Hc & Hl & Ho & _). repeat split; try apply Hc; try apply Ho; auto.
  now left.
Qed.

Lemma execute_command_session (raw : text) (w : World) (e : Editor) :
  session_ok e ->
  let parts := split_ws (trim_copy raw) in
  match execute_command raw w e with
  | Ok (w', e', quit) =>
      session_ok e' \/
      (buffer_ e' = [] /\ part parts 0 = str "o" /\
       files w !! part parts 1 = Some [])
  | Throw _ =>
      part parts 0 = str "tok" /\
      (part parts 1 = str "ngram" \/ part parts 1 = str "perm")
  | Undefined => False
  end.
Proof.
  intros He parts. unfold execute_command. cbn zeta. fold parts.
  destruct (decide (trim_copy raw = [])); [left; exact He|].
  destruct (decide (part parts 0 = str "q"));
    [destruct (dirty_ e); left; exact He|].
  destruct (decide (part parts 0 = str "q!")); [left; exact He|].
  destruct (decide (part parts 0 = str "w")).
  { pose proof (save_file_session
                  (if (2 <=? length parts)%nat then part parts 1
                   else filename_ e) w e He) as Hs.
    destruct (save_file _ w e) as [w' e']. now left. }
  destruct (decide (part parts 0 = str "o")) as [Ho|_].
  { destruct (length parts <? 2)%nat; [left; exact He|].
    destruct (dirty_ e); [left; exact He|].
    destruct (open_file_session (part parts 1) w e) as (Hl & Hoff & Hm & Hc);
      [apply He|].
    destruct Hc as [Hc|[Hb Hf]]; [left | right; auto].
    split; [exact Hc|]. split; [exact Hl|]. split; [exact Hoff | exact Hm]. }
  destruct (decide (part parts 0 = str "help")); [left; exact He|].
  destruct (decide (part parts 0 = str "cpp")).
  { destruct (command_cpp_session w e He) as (w1 & e1 & -> & He1). now left. }
  destruct (bool_decide (head (part parts 0) = Some "!"%char)).
  { match goal with
    | |- context [command_shell ?c w e] =>
        destruct (command_shell_session c w e He) as (e1 & -> & He1)
    end.
    now left. }
  destruct (decide (part parts 0 = str "tok")) as [Htok|_];
    [|left; exact He].
  destruct (length parts =? 1)%nat; [left; exact He|].
  destruct (decide (part parts 1 = str "stats")).
  { match goal with
    | |- context [tok_stats ?p w e] =>
        destruct (tok_stats_session p w e He) as (e1 & -> & He1)
    end.
    now left. }
  destruct (decide (part parts 1 = str "ngram")) as [Hngram|_].
  { assert (Hconv : forall (c : bool) (s : text) (d : N),
              (if c then stoul s else Ok d) <> Undefined).
    { intros [] s d; [apply sto_defined | discriminate]. }
    pose proof (Hconv (3 <=? length parts)%nat (part parts 2) 2%N) as HN.
    pose proof (Hconv (4 <=? length parts)%nat (part parts 3) 20%N) as HK.
    destruct (if (3 <=? length parts)%nat then _ else _) as [N| |];
      [|now split; auto | done].
    cbn.
    destruct (if (4 <=? length parts)%nat then _ else _) as [K| |];
      [|now split; auto | done].
    cbn. destruct (tok_ngram_session N K e He) as (e1 & -> & He1). now left. }
  destruct (decide (part parts 1 = str "export")).
  { destruct (length parts <? 3)%nat; [left; exact He|].
    pose proof (tok_export_session (part parts 2) w e He) as Hs.
    destruct (tok_export _ w e) as [w' e']. now left. }
  destruct (decide (part parts 1 = str "perm")) as [Hperm|_];
    [|left; exact He].
  destruct (length parts <? 4)%nat; [left; exact He|].
  pose proof (sto_defined ULLONG_MAX (part parts 2)) as Hlen.
  pose proof (sto_defined ULLONG_MAX (part parts 3)) as Hlimit.
  fold stoull in Hlen, Hlimit.
  destruct (stoull (part parts 2)) as [len| |]; [|now split; auto | done].
  cbn.
  destruct (stoull (part parts 3)) as [limit| |]; [|now split; auto | done].
  cbn. destruct (tok_perm_session len limit e He) as (e1 & -> & He1).
  now left.
Qed.

Lemma command_loop_session (ch : Z) (w : World) (e : Editor) :
  session_ok e ->
  let parts := split_ws (trim_copy (cmdbuf_ e)) in
  match command_loop ch w e with
  | Ok (w', e', quit) =>
      session_ok e' \/
      (buffer_ e' = [] /\ (ch = 13 \/ ch = 10) /\ part parts 0 = str "o" /\
       files w !! part parts 1 = Some [])
  | Throw _ =>
      (ch = 13 \/ ch = 10) /\ part parts 0 = str "tok" /\
      (part parts 1 = str "ngram" \/ part parts 1 = str "perm")
  | Undefined => False
  end.
Proof.
  intros He parts. unfold command_loop. cbn zeta.
  destruct (ch =? 27); [left; now apply (session_to_edit e)|].
  destruct (ch =? 8); [left; exact He|].
  destruct ((ch =? 13) || (ch =? 10)) eqn:Hkey.
  - assert (Hch : ch = 13 \/ ch = 10).
    { apply orb_prop in Hkey as [?%Z.eqb_eq|?%Z.eqb_eq]; auto. }
    pose proof (execute_command_session (cmdbuf_ e) w
                  (set_status (str ":" ++ cmdbuf_ e) e) He) as Hx.
    cbn zeta in Hx. fold parts in Hx.
    change (cmdbuf_ (set_status (str ":" ++ cmdbuf_ e) e)) with (cmdbuf_ e).
    destruct (execute_command _ w _) as [[[w' e'] quit]|x|]; cbn;
      [|tauto | done].
    destruct Hx as [Hs|(Hb & Ho & Hf)];
      [left; now apply session_to_edit | right; auto].
  - destruct (_ && _); [left; exact He|].
    destruct (_ && _); left; exact He.
Qed.

End SessionLoop.

(** X10.  One round of the loop of [run], from a well-formed session
    state (cursor inside a non-empty document, no newline inside a line,
    offsets not negative, mode EDIT or COMMAND): nothing in the round has
    undefined behaviour; an exception leaves it only from [tok ngram] and
    [tok perm] typed in command mode and confirmed with Enter; and the
    state after the round is well-formed again, except when the round
    executed [o] on a readable file of zero bytes, which leaves the
    document without a line. *)
Theorem run_step_keeps_session `{StdSort} (win : SmallRect) (ch c2 : Z)
    (w : World) (e : Editor) :
  session_ok e ->
  let parts := split_ws (trim_copy (cmdbuf_ e)) in
  match run_step win ch c2 w e with
  | Ok (w', e', quit) =>
      session_ok e' \/
      (buffer_ e' = [] /\ mode_ e = str "COMMAND" /\ (ch = 13 \/ ch = 10) /\
       part parts 0 = str "o" /\ files w !! part parts 1 = Some [])
  | Throw _ =>
      mode_ e = str "COMMAND" /\ (ch = 13 \/ ch = 10) /\
      part parts 0 = str "tok" /\
      (part parts 1 = str "ngram" \/ part parts 1 = str "perm")
  | Undefined => False
  end.
Proof.
  intros He parts. unfold run_step. cbn zeta.
  pose proof (ensure_visible_session win e He) as Hv.
  destruct (ensure_visible_fields win e) as (oy & ox & Hoy & Hox & Hfields).
  rewrite Hfields in *.
  destruct (draw_returns win (set_off oy ox e) Hox) as [out ->].
  cbn.
  destruct (decide (mode_ e = _)) as [Hm|Hm].
  - pose proof (command_loop_session ch w (set_off oy ox e) Hv) as Hx.
    cbn zeta in Hx.
    change (cmdbuf_ (set_off oy ox e)) with (cmdbuf_ e) in Hx.
    fold parts in Hx.
    destruct (command_loop ch w _) as [[[w' e'] quit]|x|];
      [|split; [exact Hm | exact Hx] | done].
    destruct Hx as [Hs|(Hb & Hch & Ho & Hf)]; [now left | right; auto].
  - destruct (edit_loop_session ch c2 (set_off oy ox e) Hv)
      as (e' & -> & He').
    cbn. now left.
Qed.

(** No newline in the lines of a document given in full. *)
Ltac solve_clean :=
  unfold lines_clean; cbn;
  repeat (apply Forall_cons; split;
          [let Hin := fresh "Hin" in
           intros Hin;
           repeat (apply elem_of_cons in Hin as [Hin|Hin];
                   [discriminate Hin|]);
           now apply elem_of_nil in Hin|]);
  apply Forall_nil_2.

(** The command [w], typed in command mode and confirmed with Enter. *)
Lemma run_step_keeps_session_witness :
  let e := set_cmdbuf (str "w") (set_mode (str "COMMAND") sample_editor) in
  let parts := split_ws (trim_copy (cmdbuf_ e)) in
  match run_step (mkSmallRect 0 0 79 24) 13 0 sample_world e with
  | Ok (w', e', quit) =>
      session_ok e' \/
      (buffer_ e' = [] /\ mode_ e = str "COMMAND" /\ (13 = 13 \/ 13 = 10) /\
       part parts 0 = str "o" /\
       files sample_world !! part parts 1 = Some [])
  | Throw _ =>
      mode_ e = str "COMMAND" /\ (13 = 13 \/ 13 = 10) /\
      part parts 0 = str "tok" /\
      (part parts 1 = str "ngram" \/ part parts 1 = str "perm")
  | Undefined => False
  end.
Proof.
  apply (run_step_keeps_session (mkSmallRect 0 0 79 24) 13 0 sample_world
           (set_cmdbuf (str "w") (set_mode (str "COMMAND") sample_editor))).
  split; [|split; [|split]].
  - apply (cursor_ok_intro _ (str "de"));
      [cbn; done | reflexivity | unfold len; cbn; lia].
  - solve_clean.
  - unfold offsets_ok. cbn. lia.
  - now right.
Defined.

Section EditSession.
Context `{StdSort}.

Lemma run_step_edit (win : SmallRect) (ch c2 : Z) (w : World) (e : Editor) :
  session_ok e -> mode_ e = str "EDIT" -> ch <> 27 ->
  exists e', run_step win ch c2 w e = Ok (w, e', false) /\
             session_ok e' /\ mode_ e' = str "EDIT" /\
             filename_ e' = filename_ e.
Proof.
  intros He Hm Hch. unfold run_step. cbn zeta.
  pose proof (ensure_visible_session win e He) as Hv.
  destruct (ensure_visible_fields win e) as (oy & ox & Hoy & Hox & Hfields).
  rewrite Hfields in *.
  destruct (draw_returns win (set_off oy ox e) Hox) as [out ->].
  cbn [mbind]. change (mode_ (set_off oy ox e)) with (mode_ e). rewrite Hm.
  destruct (decide (str "EDIT" = str "COMMAND")) as [E|_]; [discriminate E|].
  destruct (edit_loop_session ch c2 (set_off oy ox e) Hv) as (e' & Hrun & He').
  destruct (edit_loop_frame _ _ _ _ Hrun) as [Hk | [? _]]; [|contradiction].
  rewrite Hrun. exists e'. split; [reflexivity|]. split; [exact He'|].
  destruct Hk as (_ & _ & _ & Hmode & Hname). cbn in Hmode, Hname.
  split; congruence.
Qed.

End EditSession.

(** X11.  A session in edit mode, on any keys that do not include ESC:
    [run] handles every key without an exception or undefined behaviour,
    does not return, stays in edit mode, keeps the file name and leaves the
    files as they are; the state after the last key is well-formed. *)
Theorem run_keys_edit_mode `{StdSort} (win : SmallRect)
    (keys : list (Z * Z)) (w : World) (e : Editor) :
  session_ok e -> mode_ e = str "EDIT" ->
  Forall (fun k => k.1 <> 27) keys ->
  exists e', run_keys win keys w e = Ok (w, e', None) /\
             session_ok e' /\ mode_ e' = str "EDIT" /\
             filename_ e' = filename_ e.
Proof.
  intros He Hm Hkeys. revert e He Hm.
  induction Hkeys as [|[ch c2] keys Hch _ IH]; intros e He Hm.
  - exists e. split; [reflexivity|]. split; [exact He|]. now split.
  - cbn [run_keys].
    destruct (run_step_edit win ch c2 w e He Hm Hch)
      as (e1 & -> & He1 & Hm1 & Hn1).
    cbn. destruct (IH e1 He1 Hm1) as (e' & -> & He' & Hm' & Hn').
    exists e'. split; [reflexivity|]. split; [exact He'|].
    split; [exact Hm' | now rewrite Hn'].
Qed.

(** The keys [x], Enter, Backspace, Left on the sample document. *)
Lemma run_keys_edit_mode_witness :
  exists e',
    run_keys (mkSmallRect 0 0 79 24) [(120, 0); (13, 0); (8, 0); (224, 75)]
      sample_world sample_editor = Ok (sample_world, e', None) /\
    session_ok e' /\ mode_ e' = str "EDIT" /\
    filename_ e' = filename_ sample_editor.
Proof.
  apply (run_keys_edit_mode (mkSmallRect 0 0 79 24)
           [(120, 0); (13, 0); (8, 0); (224, 75)] sample_world sample_editor).
  - split; [|split; [|split]].
    + apply (cursor_ok_intro _ (str "de"));
        [cbn; done | reflexivity | unfold len; cbn; lia].
    + solve_clean.
    + unfold offsets_ok. cbn. lia.
    + now left.
  - reflexivity.
  - repeat constructor; cbn; lia.
Defined.

(** X12.  A document without any line (what [o] leaves after reading a
    file of zero bytes), cursor at the origin, in edit mode: a key that
    inserts text gives the document its first line, since [insert_char]
    adds an empty line first; every other key, ESC included, runs into
    undefined behaviour, in the handler of the key or in the
    [std::clamp] with bounds [0] and [-1] that closes [edit_loop]. *)
Theorem edit_loop_empty_buffer (ch c2 : Z) (e : Editor) :
  buffer_ e = [] -> cur_y_ e = 0 -> cur_x_ e = 0 ->
  (printable ch /\ ch ∉ vi_keys ->
   edit_loop ch c2 e
   = Ok (set_dirty true (set_cur_x 1 (set_buffer [[key_char ch]] e)))) /\
  (~ (printable ch /\ ch ∉ vi_keys) -> edit_loop ch c2 e = Undefined).
Proof.
  destruct e as [b f s m cb d y x oy ox]. cbn. intros -> -> ->.
  rewrite vi_keys_elem. unfold printable, edit_loop. split.
  - intros [Hp Hv].
    destruct (printable_not_control ch Hp)
      as (-> & -> & -> & -> & -> & -> & ->).
    cbn [orb].
    destruct (Z.eqb_spec ch 104); [lia|].
    destruct (Z.eqb_spec ch 106); [lia|].
    destruct (Z.eqb_spec ch 107); [lia|].
    destruct (Z.eqb_spec ch 108); [lia|].
    reflexivity.
  - intros Hn.
    destruct (Z.eqb_spec ch 27); [reflexivity|].
    destruct (Z.eqb_spec ch 13); [reflexivity|].
    destruct (Z.eqb_spec ch 10); [reflexivity|]. cbn [orb].
    destruct (Z.eqb_spec ch 8); [reflexivity|].
    destruct (Z.eqb_spec ch 224).
    { destruct (c2 =? 72); [reflexivity|].
      destruct (c2 =? 80); [reflexivity|].
      destruct (c2 =? 75); [reflexivity|].
      destruct (c2 =? 77); [reflexivity|].
      destruct (c2 =? 83); reflexivity. }
    destruct (Z.eqb_spec ch 127); [reflexivity|].
    destruct (Z.eqb_spec ch 104); [reflexivity|].
    destruct (Z.eqb_spec ch 106); [reflexivity|].
    destruct (Z.eqb_spec ch 107); [reflexivity|].
    destruct (Z.eqb_spec ch 108); [reflexivity|].
    destruct (Z.leb_spec 32 ch); [|reflexivity].
    destruct (Z.leb_spec ch 126); [|reflexivity].
    exfalso. apply Hn. split; lia.
Qed.

Lemma edit_loop_empty_buffer_witness :
  let e := open_file (str "empty.txt")
             (set_files {[ str "empty.txt" := [] ]} sample_world)
             sample_editor in
  (printable 27 /\ 27 ∉ vi_keys ->
   edit_loop 27 0 e
   = Ok (set_dirty true (set_cur_x 1 (set_buffer [[key_char 27]] e)))) /\
  (~ (printable 27 /\ 27 ∉ vi_keys) -> edit_loop 27 0 e = Undefined).
Proof.
  apply (edit_loop_empty_buffer 27 0
           (open_file (str "empty.txt")
              (set_files {[ str "empty.txt" := [] ]} sample_world)
              sample_editor)); reflexivity.
Defined.

(** ** Typing a command *)

Section Typing.
Context `{StdSort}.

Lemma command_loop_char (c : ascii) (w : World) (e : Editor) :
  printable (Z.of_nat (nat_of_ascii c)) ->
  command_loop (Z.of_nat (nat_of_ascii c)) w e
  = Ok (w,
        (if is_char c ":" && bool_decide (cmdbuf_ e = [])
         then set_status (str ":" ++ cmdbuf_ e) e
         else set_cmdbuf (cmdbuf_ e ++ [c])
                (set_status (str ":" ++ cmdbuf_ e) e)),
        false).
Proof.
  intros Hp. unfold command_loop. cbn zeta.
  destruct (printable_not_control _ Hp) as (-> & -> & -> & -> & _ & _ & ->).
  cbn [orb].
  change (cmdbuf_ (set_status (str ":" ++ cmdbuf_ e) e)) with (cmdbuf_ e).
  rewrite Nat2Z.id, ascii_nat_embedding.
  assert (Hcolon : (Z.of_nat (nat_of_ascii c) =? 58) = is_char c ":").
  { unfold is_char. case_bool_decide as Hc.
    - subst c. reflexivity.
    - apply Z.eqb_neq. intros E. apply Hc.
      rewrite <- (ascii_nat_embedding c).
      replace (nat_of_ascii c) with 58%nat by lia. reflexivity. }
  rewrite Hcolon. now destruct (_ && _).
Qed.

Lemma type_keys_more (s rest : text) (keys : list Z) (w : World)
    (e : Editor) :
  cmdbuf_ e <> [] -> printable_text s ->
  exists st,
    type_keys (keys_of s ++ keys) w e
    = type_keys keys w (set_status st (set_cmdbuf (cmdbuf_ e ++ s) e)).
Proof.
  intros Hne Hs. revert e Hne.
  induction Hs as [|c s Hc _ IH]; intros e Hne.
  - exists (status_ e). rewrite app_nil_r. now destruct e.
  - cbn [keys_of map app type_keys]. rewrite (command_loop_char c w e Hc).
    rewrite (bool_decide_eq_false_2 _ Hne), andb_false_r.
    set (e1 := set_cmdbuf (cmdbuf_ e ++ [c])
                 (set_status (str ":" ++ cmdbuf_ e) e)).
    cbn [mbind Res_bind].
    destruct (IH e1) as [st Hst];
      [subst e1; cbn; now destruct (cmdbuf_ e)|].
    exists st. fold (keys_of s). rewrite Hst. subst e1.
    cbn [cmdbuf_ set_status set_cmdbuf buffer_ filename_ status_ mode_ dirty_
         cur_y_ cur_x_ off_y_ off_x_].
    rewrite <- app_assoc. reflexivity.
Qed.

Lemma type_keys_text (s : text) (keys : list Z) (w : World) (e : Editor) :
  cmdbuf_ e = [] -> printable_text s ->
  exists st,
    type_keys (keys_of s ++ keys) w e
    = type_keys keys w (set_status st (set_cmdbuf (strip_colons s) e)).
Proof.
  intros Hcb Hs. revert e Hcb.
  induction Hs as [|c s Hc Hs IH]; intros e Hcb.
  - exists (status_ e). cbn. rewrite <- Hcb. now destruct e.
  - cbn [keys_of map app type_keys strip_colons].
    rewrite (command_loop_char c w e Hc). rewrite Hcb.
    destruct (is_char c ":") eqn:Hcolon; cbn.
    + destruct (IH (set_status (str ":") e) Hcb) as [st Hst].
      exists st. exact Hst.
    + match goal with
      | |- context [type_keys _ w ?e1] =>
          destruct (type_keys_more s [] keys w e1) as [st Hst];
            [cbn; discriminate | exact Hs |]
      end.
      exists st. exact Hst.
Qed.

End Typing.

(** X13.  Typing a command: from an empty command line, the keys of a
    text of printable bytes followed by Enter run [execute_command] on
    that text without the colons it starts with, with the status line
    showing the command; afterwards the command line is empty and the
    mode is EDIT, and the round asks to quit exactly when the command
    does. *)
Theorem typed_command_runs `{StdSort} (s : text) (w : World) (e : Editor) :
  cmdbuf_ e = [] -> printable_text s ->
  type_keys (keys_of s ++ [13]) w e
  = ('(w', e', quit) ←
       execute_command (strip_colons s) w
         (set_status (str ":" ++ strip_colons s)
            (set_cmdbuf (strip_colons s) e));
     Ok (w', set_mode (str "EDIT") (set_cmdbuf [] e'), quit)).
Proof.
  intros Hcb Hs.
  destruct (type_keys_text s [13] w e Hcb Hs) as [st ->].
  cbn [type_keys]. unfold command_loop. cbn zeta.
  change (13 =? 27) with false. change (13 =? 8) with false.
  change ((13 =? 13) || (13 =? 10)) with true. cbv iota.
  cbn [cmdbuf_ set_status set_cmdbuf buffer_ filename_ status_ mode_ dirty_
       cur_y_ cur_x_ off_y_ off_x_].
  change (set_status (str ":" ++ strip_colons s)
            (set_status st (set_cmdbuf (strip_colons s) e)))
    with (set_status (str ":" ++ strip_colons s)
            (set_cmdbuf (strip_colons s) e)).
  destruct (execute_command _ w _) as [[[w' e'] quit]| |]; cbn;
    try reflexivity.
  now destruct quit.
Qed.

Lemma typed_command_runs_witness :
  type_keys (keys_of (str ":q!") ++ [13]) sample_world sample_editor
  = ('(w', e', quit) ←
       execute_command (strip_colons (str ":q!")) sample_world
         (set_status (str ":" ++ strip_colons (str ":q!"))
            (set_cmdbuf (strip_colons (str ":q!")) sample_editor));
     Ok (w', set_mode (str "EDIT") (set_cmdbuf [] e'), quit)).
Proof.
  apply (typed_command_runs (str ":q!") sample_world sample_editor).
  - reflexivity.
  - unfold printable_text, printable, str. cbn [list_ascii_of_string].
    repeat (apply Forall_cons; split;
            [split; apply Z.leb_le; reflexivity|]).
    apply Forall_nil_2.
Defined.

(** X14.  The dispatcher asks to quit in two cases only: the command [q]
    on a document without unsaved changes, and the command [q!]; it then
    leaves the editor and the files as they were.  Every other command,
    and [q] with unsaved changes, returns [false] when it returns. *)
Theorem quit_only_by_q `{StdSort} (raw : text) (w w' : World)
    (e e' : Editor) :
  let parts := split_ws (trim_copy raw) in
  execute_command raw w e = Ok (w', e', true) <->
  ((part parts 0 = str "q" /\ dirty_ e = false) \/ part parts 0 = str "q!")
  /\ w' = w /\ e' = e.
Proof.
  intros parts. unfold execute_command. cbn zeta. fold parts.
  destruct (decide (trim_copy raw = [])) as [E|_].
  { subst parts. rewrite E. cbn. destruct (decide ([] = [])); [|done].
    split; [intros Heq; discriminate Heq|].
    intros [[[Hq _]|Hq] _]; discriminate Hq. }
  destruct (decide (part parts 0 = str "q")) as [Hq|Hq].
  { destruct (dirty_ e) eqn:Hd.
    - split; [intros Heq; discriminate Heq|].
      intros ([[_ Hd']|E] & _);
        [discriminate Hd' | rewrite Hq in E; discriminate E].
    - split; [intros [= <- <-]; auto | intros (_ & -> & ->); reflexivity]. }
  destruct (decide (part parts 0 = str "q!")) as [Hq'|Hq'].
  { split; [intros [= <- <-]; auto | intros (_ & -> & ->); reflexivity]. }
  assert (Hno : forall P : Prop,
            P <->
            (P /\ ((part parts 0 = str "q" /\ dirty_ e = false) \/
                   part parts 0 = str "q!") /\ w' = w /\ e' = e) ->
            ~ P) by tauto.
  assert (Hfalse : forall P : Prop, ~ P ->
            P <->
            ((part parts 0 = str "q" /\ dirty_ e = false) \/
             part parts 0 = str "q!") /\ w' = w /\ e' = e) by tauto.
  clear Hno. apply Hfalse. clear Hfalse.
  repeat match goal with
         | |- context [if ?b then _ else _] => destruct b
         | |- context [let '(_, _) := ?p in _] => destruct p
         | |- context [mbind _ ?m] =>
             lazymatch m with
             | context [mbind] => fail
             | _ => destruct m as [?| |]; cbn [mbind Res_bind]
             end
         end;
    try discriminate;
    try (intros Heq; discriminate Heq).
Qed.

(** ** Trimming and splitting *)

Section Runs.
Variable p : ascii -> bool.

Lemma runs_parts (s cur : text) :
  Forall (fun c => p c = true) cur -> Forall (run_of p) (runs p s cur).
Proof.
  revert cur. induction s as [|c s IH]; intros cur Hcur; cbn.
  - destruct (decide (cur = [])); [constructor|].
    constructor; [now split | constructor].
  - destruct (p c) eqn:Hc.
    + apply IH. apply Forall_app. split; [exact Hcur|]. now repeat constructor.
    + destruct (decide (cur = [])); [apply IH; constructor|].
      constructor; [now split | apply IH; constructor].
Qed.

Lemma runs_concat (s cur : text) :
  concat (runs p s cur) = cur ++ filter (fun c => p c = true) s.
Proof.
  revert cur. induction s as [|c s IH]; intros cur; cbn.
  - destruct (decide (cur = [])) as [->|]; cbn; [done|].
    now rewrite !app_nil_r.
  - destruct (p c) eqn:Hc.
    + rewrite IH. destruct (decide (true = true)); [|done].
      now rewrite <- app_assoc.
    + destruct (decide (false = true)) as [Hd|_]; [discriminate Hd|].
      destruct (decide (cur = [])) as [->|]; cbn; [apply IH|].
      now rewrite IH.
Qed.

Lemma runs_word (t s cur : text) :
  Forall (fun c => p c = true) t -> runs p (t ++ s) cur = runs p s (cur ++ t).
Proof.
  revert cur. induction t as [|c t IH]; intros cur Ht; cbn.
  - now rewrite app_nil_r.
  - apply Forall_cons in Ht as [-> Ht]. rewrite IH by done.
    now rewrite <- app_assoc.
Qed.

Lemma runs_gap (g s : text) :
  Forall (fun c => p c = false) g -> runs p (g ++ s) [] = runs p s [].
Proof.
  induction g as [|c g IH]; intros Hg; cbn; [done|].
  apply Forall_cons in Hg as [-> Hg]. rewrite decide_True by done. now apply IH.
Qed.

Lemma runs_gap_after (g s cur : text) :
  cur <> [] -> g <> [] -> Forall (fun c => p c = false) g ->
  runs p (g ++ s) cur = cur :: runs p s [].
Proof.
  intros Hcur Hne Hg. destruct g as [|c g]; [done|]. cbn.
  apply Forall_cons in Hg as [-> Hg]. rewrite decide_False by done.
  f_equal. now apply runs_gap.
Qed.

Lemma runs_join (sep : text) (parts : list text) :
  sep <> [] -> Forall (fun c => p c = false) sep -> Forall (run_of p) parts ->
  runs p (join_with sep parts) [] = parts.
Proof.
  intros Hne Hsep Hparts.
  induction Hparts as [|t parts [Ht Hall] Hparts IH]; [reflexivity|].
  destruct parts as [|t2 parts].
  - cbn [join_with]. rewrite <- (app_nil_r t) at 1.
    rewrite runs_word by done. cbn. now rewrite decide_False.
  - change (join_with sep (t :: t2 :: parts))
      with (t ++ sep ++ join_with sep (t2 :: parts)).
    rewrite runs_word by done. cbn [app].
    rewrite runs_gap_after by done. now rewrite IH.
Qed.

Lemma find_if_not_split (s : text) :
  exists pre, s = pre ++ find_if_not p s /\ Forall (fun c => p c = true) pre.
Proof.
  induction s as [|c s (pre & IH & Hpre)]; cbn; [now exists []|].
  destruct (p c) eqn:Hc; [|now exists []].
  exists (c :: pre). split; [cbn; now rewrite <- IH | now constructor].
Qed.

Lemma find_if_not_head (s : text) (c : ascii) :
  head (find_if_not p s) = Some c -> p c = false.
Proof.
  induction s as [|d s IH]; cbn; [discriminate|].
  destruct (p d) eqn:Hd; [exact IH | now intros [= <-]].
Qed.

Lemma find_if_not_id (s : text) :
  (forall c, head s = Some c -> p c = false) -> find_if_not p s = s.
Proof.
  destruct s as [|c s]; [reflexivity|]. intros Hc. cbn.
  now rewrite (Hc c eq_refl).
Qed.

Lemma find_if_not_idemp (s : text) :
  find_if_not p (find_if_not p s) = find_if_not p s.
Proof. apply find_if_not_id, find_if_not_head. Qed.

Lemma find_if_not_skip (ws s : text) :
  Forall (fun c => p c = true) ws ->
  find_if_not p (ws ++ s) = find_if_not p s.
Proof.
  induction 1 as [|c ws Hc _ IH]; [reflexivity|]. cbn. now rewrite Hc.
Qed.

End Runs.

Lemma head_rev {A} (l : list A) : head (rev l) = last l.
Proof.
  induction l as [|x l IH]; [reflexivity|]. cbn [rev].
  rewrite last_cons. destruct l as [|y l]; [reflexivity|].
  rewrite <- IH. cbn [rev]. now destruct (rev l).
Qed.

Lemma trim_copy_split (s : text) :
  exists pre post,
    s = pre ++ trim_copy s ++ post /\
    Forall (fun c => isspace c = true) pre /\
    Forall (fun c => isspace c = true) post.
Proof.
  unfold trim_copy.
  destruct (find_if_not_split isspace s) as (pre & Hs & Hpre).
  destruct (find_if_not_split isspace (rev (find_if_not isspace s)))
    as (post & Hb & Hpost).
  exists pre, (rev post). repeat split; [|exact Hpre|].
  - rewrite <- rev_app_distr, <- Hb, rev_involutive. exact Hs.
  - now apply Forall_rev.
Qed.

Lemma trim_copy_ends (s : text) (c : ascii) :
  (head (trim_copy s) = Some c \/ last (trim_copy s) = Some c) ->
  isspace c = false.
Proof.
  unfold trim_copy. intros [Hh|Hl].
  - destruct (find_if_not_split isspace (rev (find_if_not isspace s)))
      as (post & Hb & _).
    apply (f_equal (@rev ascii)) in Hb. rewrite rev_involutive in Hb.
    rewrite rev_app_distr in Hb.
    destruct (rev (find_if_not isspace (rev (find_if_not isspace s))))
      as [|d t]; [discriminate|].
    injection Hh as ->. apply (find_if_not_head isspace s c).
    now rewrite Hb.
  - rewrite <- head_rev, rev_involutive in Hl.
    now apply find_if_not_head in Hl.
Qed.

Lemma trim_copy_idemp (s : text) : trim_copy (trim_copy s) = trim_copy s.
Proof.
  unfold trim_copy at 1.
  rewrite (find_if_not_id isspace (trim_copy s))
    by (intros c Hc; apply (trim_copy_ends s c); now left).
  unfold trim_copy. rewrite rev_involutive.
  now rewrite find_if_not_idemp.
Qed.


Lemma trim_copy_empty (s : text) :
  trim_copy s = [] <-> Forall (fun c => isspace c = true) s.
Proof.
  split.
  - intros E. destruct (trim_copy_split s) as (pre & post & Hs & Hpre & Hpost).
    rewrite E in Hs. rewrite Hs. now apply Forall_app.
  - intros Hs. unfold trim_copy. rewrite <- (app_nil_r s).
    now rewrite find_if_not_skip.
Qed.

(** X15.  [trim_copy] removes white space at both ends and nothing else:
    the input is the result between two runs of white space, the result
    neither starts nor ends with white space, it is empty exactly when the
    input is white space only, and trimming twice is trimming once. *)
Theorem trim_copy_spec (s : text) :
  (exists pre post,
     s = pre ++ trim_copy s ++ post /\
     Forall (fun c => isspace c = true) pre /\
     Forall (fun c => isspace c = true) post) /\
  (forall c, head (trim_copy s) = Some c \/ last (trim_copy s) = Some c ->
             isspace c = false) /\
  (trim_copy s = [] <-> Forall (fun c => isspace c = true) s) /\
  trim_copy (trim_copy s) = trim_copy s.
Proof.
  split; [apply trim_copy_split|].
  split; [apply trim_copy_ends|].
  split; [apply trim_copy_empty | apply trim_copy_idemp].
Qed.


(** X17.  Splitting undoes joining: words (non-empty, without white space)
    joined by any non-empty run of white space are split into the same
    words, and tokens joined by any non-empty text without word bytes are
    tokenized into the same tokens. *)
Theorem split_ws_join (sep : text) (parts : list text) :
  sep <> [] ->
  (Forall (fun c => isspace c = true) sep ->
   Forall (run_of (fun c => negb (isspace c))) parts ->
   split_ws (join_with sep parts) = parts) /\
  (Forall (fun c => is_word_char c = false) sep ->
   Forall (run_of is_word_char) parts ->
   tokenize_words (join_with sep parts) = parts).
Proof.
  intros Hne. split.
  - intros Hsep Hparts. apply runs_join; [exact Hne| |exact Hparts].
    eapply Forall_impl; [exact Hsep|]. now intros c ->.
  - intros Hsep Hparts. now apply runs_join.
Qed.

Lemma split_ws_join_witness :
  split_ws (join_with (str "  ") [str "tok"; str "perm"; str "2"; str "9"])
  = [str "tok"; str "perm"; str "2"; str "9"].
Proof.
  apply (split_ws_join (str "  ") [str "tok"; str "perm"; str "2"; str "9"]).
  - discriminate.
  - now repeat constructor.
  - repeat (apply Forall_cons; split;
            [split; [discriminate | now repeat constructor]|]).
    apply Forall_nil_2.
Defined.

(** ** Numbers: parsing and the power with overflow check *)

Lemma digits_value_stop (rest : text) (v : N) :
  (forall c, head rest = Some c -> isdigit c = false) ->
  digits_value rest v = v.
Proof.
  destruct rest as [|c rest]; [reflexivity|]. intros Hc. cbn.
  now rewrite (Hc c eq_refl).
Qed.

Lemma digits_value_acc (d : Decimal.uint) (rest : text) (acc : positive) :
  digits_value (str (NilEmpty.string_of_uint d) ++ rest) (N.pos acc)
  = digits_value rest (N.pos (Pos.of_uint_acc d acc)).
Proof.
  revert acc. induction d as [|d IH|d IH|d IH|d IH|d IH|d IH|d IH|d IH|d IH|d IH];
    intros acc; [reflexivity|..];
    cbn [NilEmpty.string_of_uint str list_ascii_of_string app digits_value
         Pos.of_uint_acc];
    fold (str (NilEmpty.string_of_uint d));
    match goal with
    | |- context [isdigit ?c] => change (isdigit c) with true
    end;
    cbv iota; rewrite <- IH; f_equal;
    match goal with
    | |- context [(N_of_ascii ?c - 48)%N] =>
        let v := eval vm_compute in (N_of_ascii c - 48)%N in
        change (N_of_ascii c - 48)%N with v
    end; lia.
Qed.

Lemma digits_value_uint (d : Decimal.uint) (rest : text) :
  digits_value (str (NilEmpty.string_of_uint d) ++ rest) 0
  = digits_value rest (N.of_uint d).
Proof.
  induction d as [|d IH|d IH|d IH|d IH|d IH|d IH|d IH|d IH|d IH|d IH];
    [reflexivity|..];
    cbn [NilEmpty.string_of_uint str list_ascii_of_string app digits_value];
    fold (str (NilEmpty.string_of_uint d));
    match goal with
    | |- context [isdigit ?c] => change (isdigit c) with true
    end;
    cbv iota; [exact IH|..]; apply digits_value_acc.
Qed.

Lemma digits_value_show_N (n : N) (rest : text) :
  (forall c, head rest = Some c -> isdigit c = false) ->
  digits_value (show_N n ++ rest) 0 = n.
Proof.
  intros Hrest. unfold show_N.
  rewrite digits_value_uint, DecimalN.Unsigned.of_to.
  now apply digits_value_stop.
Qed.

Lemma show_N_head (n : N) :
  exists c t, show_N n = c :: t /\ isdigit c = true /\ isspace c = false /\
              is_char c "-" = false /\ is_char c "+" = false.
Proof.
  unfold show_N.
  assert (Hnil : N.to_uint n <> Decimal.Nil).
  { destruct n as [|p]; [discriminate|].
    apply DecimalPos.Unsigned.to_uint_nonnil. }
  destruct (N.to_uint n) as [|d|d|d|d|d|d|d|d|d|d]; [done|..];
    cbn [NilEmpty.string_of_uint str list_ascii_of_string];
    do 2 eexists; (split; [reflexivity|]); now repeat split.
Qed.

Lemma sto_number (umax n : N) (rest : text) :
  (forall c, head rest = Some c -> isdigit c = false) ->
  sto umax (show_N n ++ rest)
  = if (umax <? n)%N then Throw OutOfRange else Ok n.
Proof.
  intros Hrest. pose proof (digits_value_show_N n rest Hrest) as Hv.
  destruct (show_N_head n) as (c & t & E & Hd & Hs & Hm & Hp).
  unfold sto. rewrite E in *. cbn [app find_if_not]. rewrite Hs, Hm, Hp, Hd.
  cbn [app] in Hv. now rewrite Hv.
Qed.

Lemma sto_negative (umax n : N) (rest : text) :
  (forall c, head rest = Some c -> isdigit c = false) ->
  sto umax ("-"%char :: show_N n ++ rest)
  = if (umax <? n)%N then Throw OutOfRange
    else Ok ((umax + 1 - n) mod (umax + 1))%N.
Proof.
  intros Hrest. pose proof (digits_value_show_N n rest Hrest) as Hv.
  destruct (show_N_head n) as (c & t & E & Hd & Hs & Hm & Hp).
  unfold sto. rewrite E in *. cbn [app find_if_not].
  change (isspace "-") with false. cbv iota.
  change (is_char "-" "-") with true. cbv beta iota zeta.
  rewrite Hd. cbn [app] in Hv. now rewrite Hv.
Qed.

(** X18.  [std::stoul] and [std::stoull] read back what printing a number
    writes: on the decimal digits of [n], followed by anything that does
    not start with a digit, the result is [n] when [n] fits the type and
    [std::out_of_range] is thrown when it does not; with a minus sign in
    front the result is [n] negated in the unsigned type, so that [-1]
    reads as the largest value; and white space in front is skipped. *)
Theorem sto_decimal (umax n : N) (ws rest : text) :
  (forall c, head rest = Some c -> isdigit c = false) ->
  Forall (fun c => isspace c = true) ws ->
  sto umax (ws ++ show_N n ++ rest)
  = (if (umax <? n)%N then Throw OutOfRange else Ok n) /\
  sto umax (ws ++ "-"%char :: show_N n ++ rest)
  = (if (umax <? n)%N then Throw OutOfRange
     else Ok ((umax + 1 - n) mod (umax + 1))%N).
Proof.
  intros Hrest Hws.
  assert (Hskip : forall s, sto umax (ws ++ s) = sto umax s).
  { intros s. unfold sto. now rewrite find_if_not_skip. }
  rewrite !Hskip. split; [now apply sto_number | now apply sto_negative].
Qed.

Lemma sto_decimal_witness :
  stoul (str " " ++ show_N 20 ++ str "x") = Ok 20%N /\
  stoul (str " " ++ "-"%char :: show_N 1 ++ str "x") = Ok ULONG_MAX /\
  stoul (show_N (2 ^ 32) ++ []) = Throw OutOfRange.
Proof.
  split; [|split].
  - apply (sto_decimal ULONG_MAX 20 (str " ") (str "x"));
      [now intros c [= <-] | now repeat constructor].
  - apply (sto_decimal ULONG_MAX 1 (str " ") (str "x"));
      [now intros c [= <-] | now repeat constructor].
  - apply (sto_decimal ULONG_MAX (2 ^ 32) [] []);
      [intros c Hc; discriminate Hc | constructor].
Defined.

Lemma safe_pow_loop_exact (base : N) (k : nat) (out : N) :
  (1 <= base)%N -> (out <= UINT64_MAX)%N ->
  safe_pow_loop base k out
  = if (out * base ^ N.of_nat k <=? UINT64_MAX)%N
    then Some (out * base ^ N.of_nat k)%N else None.
Proof.
  intros Hbase. revert out. induction k as [|k IH]; intros out Hout.
  - cbn [safe_pow_loop]. change (N.of_nat 0) with 0%N.
    rewrite N.pow_0_r, N.mul_1_r.
    destruct (N.leb_spec out UINT64_MAX); [reflexivity | lia].
  - cbn [safe_pow_loop]. rewrite Nat2N.inj_succ, N.pow_succ_r'.
    set (M := UINT64_MAX) in *.
    assert (Hpow : (base ^ N.of_nat k <> 0)%N) by (apply N.pow_nonzero; lia).
    pose proof (N.Div0.mul_div_le M base) as Hlo.
    pose proof (N.mul_succ_div_gt M base ltac:(lia)) as Hhi.
    rewrite N.mul_assoc.
    destruct (N.ltb_spec (M / base) out) as [Hov|Hfit].
    + assert (H1 : (base * N.succ (M / base) <= base * out)%N)
        by (apply N.mul_le_mono_l; lia).
      assert (H2 : (out * base * 1 <= out * base * base ^ N.of_nat k)%N)
        by (apply N.mul_le_mono_l; lia).
      destruct (N.leb_spec (out * base * base ^ N.of_nat k) M);
        [|reflexivity].
      exfalso. lia.
    + assert (H1 : (base * out <= base * (M / base))%N)
        by (apply N.mul_le_mono_l; lia).
      rewrite IH by lia. reflexivity.
Qed.

(** X19.  [safe_pow_u64] is exact: for a base of at least 1 it returns
    [true] with [base^exp] when that value fits 64 bits, and [false] when
    it does not; the product it computes never wraps. *)
Theorem safe_pow_u64_exact (base exp : N) :
  (1 <= base)%N ->
  safe_pow_u64 base exp
  = if (base ^ exp <=? UINT64_MAX)%N then Some (base ^ exp)%N else None.
Proof.
  intros Hbase. unfold safe_pow_u64.
  rewrite safe_pow_loop_exact by (done || (unfold UINT64_MAX; lia)).
  now rewrite N2Nat.id, N.mul_1_l.
Qed.

Lemma safe_pow_u64_exact_witness :
  safe_pow_u64 3 40 = Some (3 ^ 40)%N /\ safe_pow_u64 3 41 = None.
Proof.
  split.
  - apply (safe_pow_u64_exact 3 40). lia.
  - apply (safe_pow_u64_exact 3 41). lia.
Defined.

(** ** JSON strings *)






(** ** Frequencies and totals *)

Section Frequencies.
Context `{Countable K}.

Lemma incr_lookup (k t : K) (m : gmap K nat) :
  default O (incr t m !! k)
  = if decide (t = k) then S (default O (m !! t)) else default O (m !! k).
Proof.
  unfold incr. destruct (decide (t = k)) as [->|Hne].
  - now rewrite lookup_insert_eq.
  - now rewrite lookup_insert_ne.
Qed.

Lemma incr_fold_lookup (l : list K) (m : gmap K nat) (k : K) :
  default O (fold_left (fun m t => incr t m) l m !! k)
  = (default O (m !! k) + length (filter (fun t => t = k) l))%nat.
Proof.
  revert m. induction l as [|t l IH]; intros m; cbn [fold_left].
  - cbn. lia.
  - rewrite IH, incr_lookup, filter_cons.
    destruct (decide (t = k)) as [->|Hne]; cbn [length]; lia.
Qed.

Lemma incr_fold_None (l : list K) (m : gmap K nat) (k : K) :
  fold_left (fun m t => incr t m) l m !! k = None <-> m !! k = None /\ k ∉ l.
Proof.
  revert m. induction l as [|t l IH]; intros m; cbn [fold_left].
  - rewrite elem_of_nil. tauto.
  - rewrite IH, not_elem_of_cons. unfold incr.
    destruct (decide (t = k)) as [->|Hne].
    + rewrite lookup_insert_eq.
      split; [intros [[=] _] | intros (_ & Hk & _); done].
    + rewrite lookup_insert_ne by done. intuition congruence.
Qed.

End Frequencies.

Lemma count_byte_charfreq (content : text) (st : ByteCounts) :
  bc_charfreq (fold_left count_byte content st)
  = fold_left (fun m c => incr c m) content (bc_charfreq st).
Proof.
  revert st. induction content as [|c content IH]; intros st; [reflexivity|].
  cbn [fold_left]. rewrite IH. f_equal. unfold count_byte.
  destruct (isdigit c); [reflexivity|].
  destruct (isalpha c); [reflexivity|].
  destruct (isspace c); reflexivity.
Qed.

Lemma stats_tables (content : text) :
  let st := compute_token_stats content in
  let toks := tokenize_words content in
  freq st = fold_left (fun m t => incr t m) toks ∅ /\
  charfreq st = fold_left (fun m c => incr c m) content ∅ /\
  avg_token_len st = ratio (length (concat toks)) (length toks) /\
  unique_tokens st = size (freq st).
Proof.
  cbn zeta. unfold compute_token_stats. rewrite token_fold.
  cbn [freq charfreq avg_token_len unique_tokens].
  rewrite count_byte_charfreq. cbn [bc_charfreq]. rewrite Nat.add_0_l.
  repeat split.
Qed.

Lemma runs_total_length (p : ascii -> bool) (parts : list text) :
  Forall (run_of p) parts -> (length parts <= length (concat parts))%nat.
Proof.
  induction 1 as [|t parts [Hne _] _ IH]; cbn; [lia|].
  rewrite length_app. destruct t; [done|]. cbn. lia.
Qed.

(** X21.  The tables of [compute_token_stats]: the count kept for a token
    is the number of times it occurs among the tokens, with no entry for a
    text that is not a token, so [unique_tokens], the size of the table, is
    the number of different tokens; the count kept for a byte is the number
    of times it occurs in the content; and the average token length is the
    number of word bytes [A-Za-z0-9_] of the content divided by the number
    of tokens, at least 1 when there is a token. *)
Theorem token_stats_tables (content : text) :
  let st := compute_token_stats content in
  let toks := tokenize_words content in
  (forall t, default O (freq st !! t)
             = length (filter (fun k => k = t) toks)) /\
  (forall t, freq st !! t = None <-> t ∉ toks) /\
  unique_tokens st = size (freq st) /\
  (forall c, default O (charfreq st !! c) = count_char c content) /\
  avg_token_len st
  = ratio (length (filter (fun c => is_word_char c = true) content))
          (tokens st) /\
  (toks <> [] -> (1 <= avg_token_len st)%Q).
Proof.
  cbn zeta. destruct (stats_tables content) as (Hf & Hc & Ha & Hu).
  destruct (stats_fields content) as (Htok & _).
  cbn zeta in *. rewrite Hf, Hc, Ha, Htok.
  split; [|split; [|split; [|split; [|split]]]].
  - intros t. rewrite incr_fold_lookup, lookup_empty. reflexivity.
  - intros t. rewrite incr_fold_None, lookup_empty. tauto.
  - rewrite Hu, Hf. reflexivity.
  - intros c. rewrite incr_fold_lookup, lookup_empty. reflexivity.
  - unfold tokenize_words. now rewrite runs_concat.
  - intros Hne.
    pose proof (runs_total_length is_word_char (tokenize_words content)
                  (runs_parts is_word_char content [] (Forall_nil_2 _)))
      as Hlen.
    unfold ratio. destruct (Nat.eqb_spec (length (tokenize_words content)) 0)
      as [E|Hn].
    + destruct (tokenize_words content); [done | discriminate].
    + unfold Qle. cbn. rewrite Z.mul_1_r, Z.mul_1_l.
      rewrite <- positive_nat_Z, Nat2Pos.id by done. lia.
Qed.

Section NgramTotals.
Context `{StdSort}.

Lemma map_incr_sum (k : list text) (m : list ngram_entry) :
  sum_list (map_incr k m).*2 = S (sum_list m.*2).
Proof.
  induction m as [|[k0 c] m IH]; cbn [map_incr]; [reflexivity|].
  destruct (key_compare k k0); cbn in *; [reflexivity..|]. rewrite IH. lia.
Qed.

Lemma map_incr_length (k : list text) (m : list ngram_entry) :
  (length (map_incr k m) <= S (length m))%nat.
Proof.
  induction m as [|[k0 c] m IH]; cbn [map_incr]; [cbn; lia|].
  destruct (key_compare k k0); cbn in *; lia.
Qed.

Lemma ngram_loop_sum (toks : list text) (n count i : nat)
    (counts : list ngram_entry) :
  sum_list (ngram_loop toks n count i counts).*2
  = (sum_list counts.*2 + count)%nat /\
  (length (ngram_loop toks n count i counts) <= length counts + count)%nat.
Proof.
  revert i counts. induction count as [|count IH]; intros i counts; cbn.
  - lia.
  - destruct (IH (S i) (map_incr (take n (drop i toks)) counts)) as [-> Hl].
    rewrite map_incr_sum.
    pose proof (map_incr_length (take n (drop i toks)) counts). lia.
Qed.

Lemma sum_list_take (k : nat) (l : list nat) :
  (sum_list (take k l) <= sum_list l)%nat.
Proof.
  revert k. induction l as [|x l IH]; intros [|k]; cbn; try lia.
  specialize (IH k). lia.
Qed.

Lemma sum_list_perm (l l' : list nat) :
  Permutation l l' -> sum_list l = sum_list l'.
Proof. induction 1; cbn; lia. Qed.

End NgramTotals.

(** X22.  The counts of [top_ngrams] never add up to more than the number
    of windows, [tokens - N + 1], and add up to exactly that number when
    [K] is at least the number of windows: every window is counted once,
    under its own n-gram. *)
Theorem top_ngrams_total `{StdSort} (toks : list text) (n topk : N) :
  (n <> 0)%N -> (n <= N.of_nat (length toks))%N ->
  let res := top_ngrams toks n topk in
  let windows := (length toks - N.to_nat n + 1)%nat in
  (sum_list res.*2 <= windows)%nat /\
  ((N.of_nat windows <= topk)%N -> sum_list res.*2 = windows).
Proof.
  intros Hn Hlen. cbn zeta. unfold top_ngrams.
  destruct (N.eqb_spec n 0); [done|].
  destruct (N.ltb_spec (N.of_nat (length toks)) n); [lia|]. cbn [orb].
  destruct (ngram_loop_sum toks (N.to_nat n)
              (length toks - N.to_nat n + 1) 0 []) as [Hsum Hl].
  cbn in Hsum, Hl.
  set (counts := ngram_loop _ _ _ _ _) in *.
  assert (Hperm : sum_list (std_sort counts).*2 = sum_list counts.*2).
  { apply sum_list_perm, fmap_Permutation, std_sort_perm. }
  assert (Hlv : length (std_sort counts) = length counts).
  { apply Permutation_length, std_sort_perm. }
  destruct (N.ltb_spec topk (N.of_nat (length (std_sort counts)))) as [Hk|Hk].
  - split.
    + rewrite fmap_take. etransitivity; [apply sum_list_take|]. lia.
    + intros Hw. lia.
  - split; [lia|]. intros _. lia.
Qed.

Lemma top_ngrams_total_witness :
  let toks := [str "a"; str "b"; str "a"; str "b"; str "a"] in
  (sum_list (top_ngrams toks 2 1).*2 <= 5 - N.to_nat 2 + 1)%nat /\
  ((N.of_nat (5 - N.to_nat 2 + 1) <= 1)%N ->
   sum_list (top_ngrams toks 2 1).*2 = (5 - N.to_nat 2 + 1)%nat).
Proof.
  apply (top_ngrams_total [str "a"; str "b"; str "a"; str "b"; str "a"] 2 1);
    [discriminate | cbn; lia].
Defined.

(** ** Files with CR LF line ends, and the first state of a session *)

Section CrLf.

Lemma join_crlf_cons (l l2 : text) (b : list text) :
  join_with [CR; LF] (l :: l2 :: b)
  = (l ++ [CR]) ++ LF :: join_with [CR; LF] (l2 :: b).
Proof. cbn [join_with]. now rewrite <- app_assoc. Qed.

Lemma pop_cr_snoc (l : text) : pop_cr (l ++ [CR]) = l.
Proof.
  unfold pop_cr. rewrite last_snoc. unfold is_char.
  rewrite bool_decide_eq_true_2 by done. apply removelast_last.
Qed.

Lemma getline_loop_crlf (b : list text) (fuel : nat) (acc : list text) :
  Forall plain_line b ->
  (length (join_with [CR; LF] b) <= fuel)%nat ->
  getline_loop fuel (join_with [CR; LF] b) acc = acc ++ without_empty_last b.
Proof.
  revert fuel acc. induction b as [|l b IH]; intros fuel acc Hb Hfuel.
  - destruct fuel; cbn; now rewrite app_nil_r.
  - apply Forall_cons in Hb as [[Hlf Hcr] Hb].
    destruct b as [|l2 b].
    + change (join_with [CR; LF] [l]) with l in *.
      destruct l as [|c l].
      * destruct fuel; cbn; now rewrite app_nil_r.
      * destruct fuel as [|fuel]; [cbn in Hfuel; lia|].
        cbn [getline_loop getline]. rewrite read_until_lf_last by done.
        rewrite pop_cr_plain by done.
        destruct fuel; reflexivity.
    + rewrite join_crlf_cons in *. rewrite !length_app in Hfuel.
      cbn [length] in Hfuel.
      destruct fuel as [|fuel]; [lia|].
      cbn [getline_loop].
      assert (Hclean : LF ∉ l ++ [CR]).
      { rewrite elem_of_app, list_elem_of_singleton.
        intros [?|E]; [done | now apply LF_ne_CR in E]. }
      assert (Hget : getline ((l ++ [CR]) ++ LF :: join_with [CR; LF] (l2 :: b))
                     = Some (l ++ [CR], join_with [CR; LF] (l2 :: b))).
      { unfold getline. rewrite read_until_lf_line by done.
        now destruct l. }
      rewrite Hget, pop_cr_snoc.
      rewrite IH by (done || lia).
      rewrite without_empty_last_cons. now rewrite <- app_assoc.
Qed.

Lemma last_join_crlf (b : list text) (l : text) :
  last b = Some l -> l <> [] -> last (join_with [CR; LF] b) = last l.
Proof.
  induction b as [|y b IH]; [discriminate|].
  destruct b as [|y2 b].
  - now intros [= ->].
  - rewrite last_cons_cons, join_crlf_cons. intros Hl Hne.
    specialize (IH Hl Hne). rewrite last_app_cons.
    destruct (join_with [CR; LF] (y2 :: b)) as [|c t] eqn:E.
    + cbn in IH. symmetry in IH. apply last_None in IH. contradiction.
    + now rewrite last_cons_cons.
Qed.

Lemma join_crlf_snoc (b : list text) (l x : text) :
  join_with [CR; LF] (b ++ [l; x])
  = join_with [CR; LF] (b ++ [l]) ++ CR :: LF :: x.
Proof.
  induction b as [|y b IH]; [reflexivity|].
  destruct b as [|y2 b].
  - cbn [app join_with]. rewrite <- !app_assoc. reflexivity.
  - cbn [app] in *. rewrite !join_crlf_cons, IH. now rewrite <- !app_assoc.
Qed.

Lemma load_lines_crlf (b : list text) :
  Forall plain_line b -> ends_plainly b ->
  load_lines (join_with [CR; LF] b) = b.
Proof.
  intros Hb Hend. unfold load_lines.
  rewrite getline_loop_crlf by (done || lia). cbn [app].
  destruct Hend as [Hlast | (b' & l & -> & Hl)].
  - unfold without_empty_last.
    destruct (decide (last b = Some [])) as [|_]; [done|].
    rewrite bool_decide_eq_false_2; [reflexivity|].
    destruct (last b) as [l|] eqn:El.
    + assert (Hne : l <> []) by congruence.
      rewrite (last_join_crlf b l El Hne).
      assert (Hin : plain_line l).
      { eapply Forall_forall; [exact Hb|]. apply last_Some_elem_of, El. }
      destruct Hin as [Hlf _]. intros E. apply Hlf.
      now apply last_Some_elem_of.
    + apply last_None in El. now subst b.
  - rewrite join_crlf_snoc. unfold without_empty_last.
    replace (b' ++ [l; []]) with ((b' ++ [l]) ++ [[]])
      by now rewrite <- app_assoc.
    rewrite !last_snoc.
    destruct (decide (Some [] = Some ([] : text))) as [_|]; [|done].
    rewrite removelast_last.
    replace (join_with [CR; LF] (b' ++ [l]) ++ [CR; LF])
      with ((join_with [CR; LF] (b' ++ [l]) ++ [CR]) ++ [LF])
      by now rewrite <- app_assoc.
    rewrite !last_snoc.
    rewrite bool_decide_eq_true_2 by done.
    rewrite (bool_decide_eq_false_2 (Some l = Some [])) by congruence.
    now rewrite orb_true_r.
Qed.

End CrLf.

(** X23.  A file with CR LF line ends opens as the same document as the
    file with LF line ends: for lines without a newline that do not end in
    a carriage return, in a document that does not end in two empty lines
    and is not the empty line alone, [open_file] on the lines joined by
    CR LF, and on the lines joined by LF, gives back exactly these lines,
    with the cursor and the offsets at the origin and the dirty flag
    clear. *)
Theorem open_file_crlf (path : text) (w : World) (e : Editor)
    (b : list text) :
  Forall plain_line b -> ends_plainly b ->
  read_text_file path w = Some (join_with [CR; LF] b) \/
  read_text_file path w = Some (join_lines b) ->
  open_file path w e
  = mkEditor b path (str "Opened " ++ path) (mode_ e) (cmdbuf_ e) false
      0 0 0 0.
Proof.
  intros Hb Hend [Hr|Hr]; unfold open_file; rewrite Hr.
  - now rewrite load_lines_crlf.
  - now rewrite load_lines_join.
Qed.

Lemma open_file_crlf_witness :
  open_file (str "dos.txt")
    (set_files {[ str "dos.txt" := join_with [CR; LF] [str "a b"; []; str "c"; []] ]}
       sample_world)
    sample_editor
  = mkEditor [str "a b"; []; str "c"; []] (str "dos.txt")
      (str "Opened " ++ str "dos.txt") (mode_ sample_editor)
      (cmdbuf_ sample_editor) false 0 0 0 0.
Proof.
  apply (open_file_crlf (str "dos.txt")
           (set_files
              {[ str "dos.txt" := join_with [CR; LF] [str "a b"; []; str "c"; []] ]}
              sample_world)
           sample_editor [str "a b"; []; str "c"; []]).
  - repeat (apply Forall_cons; split;
            [split; [|cbn; discriminate]|]); try apply Forall_nil_2.
    all: intros Hin;
      repeat (apply elem_of_cons in Hin as [Hin|Hin]; [discriminate Hin|]);
      now apply elem_of_nil in Hin.
  - right. exists [str "a b"; []], (str "c"). now split.
  - left. reflexivity.
Defined.

Lemma Editor_new_state (initial : option text) (w : World) :
  let e := Editor_new initial w in
  (session_ok e \/
   exists path, initial = Some path /\ files w !! path = Some [] /\
                buffer_ e = []) /\
  dirty_ e = false /\ mode_ e = str "EDIT" /\ cmdbuf_ e = [] /\
  (cur_y_ e, cur_x_ e, off_y_ e, off_x_ e) = (0, 0, 0, 0) /\
  filename_ e = default (str "untitled.txt") initial.
Proof.
  cbn zeta.
  assert (Hfresh : forall f, session_ok (set_buffer [[]] (Editor_fields f))).
  { intros f. split; [|split; [|split]].
    - apply (cursor_ok_intro _ []);
        [cbn; done | reflexivity | unfold len; cbn; lia].
    - unfold lines_clean. cbn. repeat constructor. apply not_elem_of_nil.
    - unfold offsets_ok. cbn. lia.
    - now left. }
  destruct initial as [path|]; cbn [Editor_new default from_option id];
    [|split; [left; apply Hfresh | now repeat split]].
  destruct (decide (is_Some (files w !! path))) as [Hsome|Hnone];
    [|split; [left; apply Hfresh | now repeat split]].
  split.
  - destruct (open_file_session path w (Editor_fields path))
      as (Hl & Ho & Hm & Hc); [now left|].
    destruct Hc as [Hc|[Hb Hf]].
    + left. split; [exact Hc|]. split; [exact Hl|]. now split.
    + right. exists path. now repeat split.
  - unfold open_file. destruct (read_text_file path w); now repeat split.
Qed.

(** X24.  The constructor: the editor starts in edit mode, not dirty, with
    the cursor and the offsets at the origin, under the name given on the
    command line or [untitled.txt]; its state is well-formed (a non-empty
    document of lines without newline, cursor on its first line), except
    when the file named on the command line exists and has zero bytes:
    the buffer then has no line. *)
Theorem Editor_new_session (initial : option text) (w : World) :
  let e := Editor_new initial w in
  (session_ok e \/
   exists path, initial = Some path /\ files w !! path = Some [] /\
                buffer_ e = []) /\
  dirty_ e = false /\ mode_ e = str "EDIT" /\ cmdbuf_ e = [] /\
  (cur_y_ e, cur_x_ e, off_y_ e, off_x_ e) = (0, 0, 0, 0) /\
  filename_ e = default (str "untitled.txt") initial.
Proof. exact (Editor_new_state initial w). Qed.

(** ** The statistics of a document *)

Lemma runs_app_sep (p : ascii -> bool) (a b cur : text) (c : ascii) :
  p c = false -> runs p (a ++ c :: b) cur = runs p a cur ++ runs p b [].
Proof.
  intros Hc. revert cur. induction a as [|x a IH]; intros cur; cbn.
  - rewrite Hc. now destruct (decide (cur = [])).
  - destruct (p x); [apply IH|].
    destruct (decide (cur = [])); now rewrite IH.
Qed.

Lemma tokenize_join_lines (b : list text) :
  tokenize_words (join_lines b) = concat (map tokenize_words b).
Proof.
  unfold tokenize_words. induction b as [|l b IH]; [reflexivity|].
  destruct b as [|l2 b]; [cbn; now rewrite app_nil_r|].
  rewrite join_lines_cons, runs_app_sep by reflexivity.
  rewrite IH. reflexivity.
Qed.

Lemma tokenize_dump (b : list text) :
  tokenize_words (concat (map (fun l => l ++ [LF]) b))
  = concat (map tokenize_words b).
Proof.
  unfold tokenize_words. induction b as [|l b IH]; [reflexivity|].
  cbn [map concat]. rewrite <- app_assoc. cbn [app].
  rewrite runs_app_sep by reflexivity. now rewrite IH.
Qed.

Lemma count_char_app (d : ascii) (a b : text) :
  count_char d (a ++ b) = (count_char d a + count_char d b)%nat.
Proof. unfold count_char. now rewrite filter_app, length_app. Qed.

Lemma count_char_clean (l : text) : LF ∉ l -> count_char LF l = O.
Proof.
  intros Hl. unfold count_char.
  induction l as [|c l IH]; [reflexivity|].
  apply not_elem_of_cons in Hl as [Hc Hl]. rewrite filter_cons.
  destruct (decide (c = LF)); [congruence | now apply IH].
Qed.

Lemma join_lines_counts (b : list text) :
  Forall (fun l => LF ∉ l) b -> b <> [] ->
  S (count_char LF (join_lines b)) = length b /\
  S (length (join_lines b)) = sum_list (map (fun l => S (length l)) b).
Proof.
  induction 1 as [|l b Hl Hb IH]; [done|]. intros _.
  destruct b as [|l2 b].
  - change (join_lines [l]) with l.
    rewrite count_char_clean by done. cbn. unfold id. lia.
  - rewrite join_lines_cons.
    replace (l ++ LF :: join_lines (l2 :: b))
      with (l ++ [LF] ++ join_lines (l2 :: b)) by reflexivity.
    rewrite !count_char_app, !length_app, count_char_clean by done.
    destruct IH as [IH1 IH2]; [done|].
    change (count_char LF [LF]) with 1%nat.
    cbn [map sum_list length] in *. unfold id in *. lia.
Qed.

(** X25.  The statistics of the document, as [tok stats] and [tok export]
    compute them on the lines joined by newlines: for a non-empty document
    whose lines hold no newline, [lines] is the number of lines of the
    document and [chars] the number of its bytes with one more for every
    line break; no token spans two lines, so the tokens of the document
    are the tokens of its lines, line after line.  [tok ngram] tokenizes
    the lines each followed by a newline, with the same tokens: its
    windows run across line ends. *)
Theorem document_token_stats (e : Editor) :
  lines_clean e -> buffer_ e <> [] ->
  let st := compute_token_stats (join_lines (buffer_ e)) in
  lines st = length (buffer_ e) /\
  S (chars st) = sum_list (map (fun l => S (length l)) (buffer_ e)) /\
  tokens st = length (concat (map tokenize_words (buffer_ e))) /\
  tokenize_words (join_lines (buffer_ e))
  = concat (map tokenize_words (buffer_ e)) /\
  tokenize_words (concat (map (fun l => l ++ [LF]) (buffer_ e)))
  = concat (map tokenize_words (buffer_ e)).
Proof.
  intros Hclean Hne. cbn zeta.
  destruct (stats_fields (join_lines (buffer_ e)))
    as (Htok & _ & _ & Hc & Hl & _).
  destruct (count_byte_fold (join_lines (buffer_ e))
              (mkByteCounts 0 1 0 0 0 0 ∅)) as (H1 & H2 & _).
  destruct (join_lines_counts (buffer_ e) Hclean Hne) as [Hn Hs].
  cbn zeta in *. rewrite Hc, Hl, Htok, H1, H2. cbn [bc_chars bc_lines].
  rewrite tokenize_join_lines, tokenize_dump.
  repeat split; lia.
Qed.

Lemma document_token_stats_witness :
  let st := compute_token_stats (join_lines (buffer_ sample_editor)) in
  lines st = length (buffer_ sample_editor) /\
  S (chars st)
  = sum_list (map (fun l => S (length l)) (buffer_ sample_editor)) /\
  tokens st = length (concat (map tokenize_words (buffer_ sample_editor))) /\
  tokenize_words (join_lines (buffer_ sample_editor))
  = concat (map tokenize_words (buffer_ sample_editor)) /\
  tokenize_words (concat (map (fun l => l ++ [LF]) (buffer_ sample_editor)))
  = concat (map tokenize_words (buffer_ sample_editor)).
Proof.
  apply (document_token_stats sample_editor); [solve_clean | discriminate].
Defined.

(** ** What a command leaves alone *)

(** X26.  The commands that can change the document are [o], [cpp],
    [!...] and [tok stats], [tok ngram], [tok perm].  Every other command
    line ([q], [q!], [w], [help], [tok export], a usage error, an unknown
    command, an empty line) leaves the buffer, the cursor and the offsets
    as they are; among these only [w] can change the dirty flag, which it
    clears, and the file name. *)
Theorem execute_command_frame `{StdSort} (raw : text) (w w' : World)
    (e e' : Editor) (quit : bool) :
  execute_command raw w e = Ok (w', e', quit) ->
  let parts := split_ws (trim_copy raw) in
  let cmd := part parts 0 in
  let sub := part parts 1 in
  (cmd = str "o" \/ cmd = str "cpp" \/ head cmd = Some "!"%char \/
   (cmd = str "tok" /\
    (sub = str "stats" \/ sub = str "ngram" \/ sub = str "perm"))) \/
  (buffer_ e' = buffer_ e /\
   (cur_y_ e', cur_x_ e', off_y_ e', off_x_ e')
   = (cur_y_ e, cur_x_ e, off_y_ e, off_x_ e) /\
   (dirty_ e' = dirty_ e \/ (cmd = str "w" /\ dirty_ e' = false)) /\
   (filename_ e' = filename_ e \/ cmd = str "w")).
Proof.
  intros Hrun parts cmd sub. revert Hrun.
  unfold execute_command. cbn zeta. fold parts. fold cmd. fold sub.
  assert (Hsame : forall s, Ok (w, set_status s e, false) = Ok (w', e', quit) ->
            buffer_ e' = buffer_ e /\
            (cur_y_ e', cur_x_ e', off_y_ e', off_x_ e')
            = (cur_y_ e, cur_x_ e, off_y_ e, off_x_ e) /\
            (dirty_ e' = dirty_ e \/ (cmd = str "w" /\ dirty_ e' = false)) /\
            (filename_ e' = filename_ e \/ cmd = str "w")).
  { intros s [= <- <- <-]. cbn. auto. }
  assert (Hid : forall q, Ok (w, e, q) = Ok (w', e', quit) ->
            buffer_ e' = buffer_ e /\
            (cur_y_ e', cur_x_ e', off_y_ e', off_x_ e')
            = (cur_y_ e, cur_x_ e, off_y_ e, off_x_ e) /\
            (dirty_ e' = dirty_ e \/ (cmd = str "w" /\ dirty_ e' = false)) /\
            (filename_ e' = filename_ e \/ cmd = str "w")).
  { intros q [= <- <- <-]. auto. }
  destruct (decide (trim_copy raw = [])); [right; eauto|].
  destruct (decide (cmd = str "q")); [destruct (dirty_ e); right; eauto|].
  destruct (decide (cmd = str "q!")); [right; eauto|].
  destruct (decide (cmd = str "w")) as [Hw|_].
  { destruct (save_file _ w e) as [w1 e1] eqn:Hsave.
    clear Hsame Hid. intros [= <- <- <-]. right.
    unfold save_file, write_text_file in Hsave.
    destruct (writable w _); injection Hsave as <- <-; cbn;
      (split; [reflexivity|]); (split; [reflexivity|]);
      (split; [|now right]); [right; now split | now left]. }
  destruct (decide (cmd = str "o")); [intros _; left; auto|].
  destruct (decide (cmd = str "help")); [right; eauto|].
  destruct (decide (cmd = str "cpp")); [intros _; left; auto|].
  case_bool_decide; [intros _; left; auto|].
  destruct (decide (cmd = str "tok")) as [Htok|_]; [|right; eauto].
  destruct (length parts =? 1)%nat; [right; eauto|].
  destruct (decide (sub = str "stats")); [intros _; left; auto 7|].
  destruct (decide (sub = str "ngram")); [intros _; left; auto 7|].
  destruct (decide (sub = str "export")).
  { destruct (length parts <? 3)%nat; [right; eauto|].
    destruct (tok_export _ w e) as [w1 e1] eqn:Hexp.
    clear Hsame Hid. intros [= <- <- <-]. right.
    unfold tok_export in Hexp.
    destruct (write_text_file _ _ w) as [[] w2];
      injection Hexp as <- <-; cbn; auto. }
  destruct (decide (sub = str "perm")); [intros _; left; auto 7|].
  right; eauto.
Qed.

Lemma execute_command_frame_witness :
  let raw := str "w /ro/x" in
  let e' := set_status (str "Error: could not save /ro/x") sample_editor in
  let parts := split_ws (trim_copy raw) in
  let cmd := part parts 0 in
  let sub := part parts 1 in
  (cmd = str "o" \/ cmd = str "cpp" \/ head cmd = Some "!"%char \/
   (cmd = str "tok" /\
    (sub = str "stats" \/ sub = str "ngram" \/ sub = str "perm"))) \/
  (buffer_ e' = buffer_ sample_editor /\
   (cur_y_ e', cur_x_ e', off_y_ e', off_x_ e')
   = (cur_y_ sample_editor, cur_x_ sample_editor, off_y_ sample_editor,
      off_x_ sample_editor) /\
   (dirty_ e' = dirty_ sample_editor \/ (cmd = str "w" /\ dirty_ e' = false)) /\
   (filename_ e' = filename_ sample_editor \/ cmd = str "w")).
Proof.
  apply (execute_command_frame (str "w /ro/x") sample_world sample_world
           sample_editor
           (set_status (str "Error: could not save /ro/x") sample_editor)
           false).
  reflexivity.
Defined.

(** ** A session from the start *)

(** X27.  The program started on no file, on a file that does not exist
    or on a file that is not empty, and given any keys without ESC: [main]
    handles every key without an exception or undefined behaviour and does
    not return before the keys end; the files are untouched, the editor is
    still in edit mode under the name it started with, and its state is
    well-formed. *)
Theorem main_edit_session `{StdSort} (win : SmallRect) (argv : list text)
    (keys : list (Z * Z)) (w : World) :
  (forall path, argv !! 1%nat = Some path -> files w !! path <> Some []) ->
  Forall (fun k => k.1 <> 27) keys ->
  exists e', main win argv keys w = Ok (w, e', None) /\
             session_ok e' /\ mode_ e' = str "EDIT" /\
             filename_ e' = default (str "untitled.txt") (argv !! 1%nat).
Proof.
  intros Hfile Hkeys. unfold main, run.
  destruct (Editor_new_state (argv !! 1%nat) w)
    as (Hs & _ & Hm & _ & _ & Hname).
  cbn zeta in *.
  destruct Hs as [Hs | (path & Hp & Hempty & _)];
    [|now apply Hfile in Hp].
  set (e0 := Editor_new (argv !! 1%nat) w) in *.
  assert (Hrun : forall e, session_ok e -> mode_ e = str "EDIT" ->
            exists e', run_keys win keys w e = Ok (w, e', None) /\
                       session_ok e' /\ mode_ e' = str "EDIT" /\
                       filename_ e' = filename_ e).
  { clear -Hkeys. induction Hkeys as [|[ch c2] keys Hch _ IH]; intros e He Hm.
    - exists e. split; [reflexivity|]. split; [exact He|]. now split.
    - cbn [run_keys].
      destruct (run_step_edit win ch c2 w e He Hm Hch)
        as (e1 & -> & He1 & Hm1 & Hn1).
      cbn. destruct (IH e1 He1 Hm1) as (e' & -> & He' & Hm' & Hn').
      exists e'. split; [reflexivity|]. split; [exact He'|].
      split; [exact Hm' | now rewrite Hn']. }
  destruct (Hrun (set_status (str "Press ESC for COMMAND mode (:help)") e0))
    as (e' & -> & He' & Hm' & Hn'); [exact Hs | exact Hm|].
  exists e'. split; [reflexivity|]. split; [exact He'|].
  split; [exact Hm'|]. rewrite Hn'. exact Hname.
Qed.

Lemma main_edit_session_witness :
  exists e',
    main (mkSmallRect 0 0 79 24) [str "edit.exe"; str "notes.txt"]
      [(104, 0); (105, 0); (13, 0)] sample_world
    = Ok (sample_world, e', None) /\
    session_ok e' /\ mode_ e' = str "EDIT" /\
    filename_ e'
    = default (str "untitled.txt")
        ([str "edit.exe"; str "notes.txt"] !! 1%nat).
Proof.
  apply (main_edit_session (mkSmallRect 0 0 79 24)
           [str "edit.exe"; str "notes.txt"] [(104, 0); (105, 0); (13, 0)]
           sample_world).
  - intros path [= <-]. discriminate.
  - repeat constructor; cbn; lia.
Defined.

(** ** The dirty flag *)

Lemma insert_text_block_dirty (txt : text) (e e' : Editor) :
  insert_text_block txt e = Ok e' -> dirty_ e' = true \/ e' = e.
Proof.
  unfold insert_text_block.
  destruct (decide (txt = [])); [intros [= <-]; now right|].
  destruct (at_ _ (cur_y_ e)) as [cur| |]; cbn; try discriminate.
  destruct (substr_from cur (cur_x_ e)) as [tail| |]; cbn; try discriminate.
  destruct (at_ (_ ++ _) _) as [last_line| |]; cbn; try discriminate.
  intros [= <-]. now left.
Qed.

Section DirtyCommands.
Context `{StdSort}.

Lemma command_shell_dirty (cmd : text) (w : World) (e e' : Editor) :
  dirty_ e = true -> command_shell cmd w e = Ok e' -> dirty_ e' = true.
Proof.
  intros Hd. unfold command_shell.
  destruct (decide (_ = [])); [now intros [= <-]|].
  intros Hrun. destruct (insert_text_block _ _) as [e1| |] eqn:Hi;
    cbn in Hrun; try discriminate.
  injection Hrun as <-. apply insert_text_block_dirty in Hi as [Hi | ->];
    [exact Hi | exact Hd].
Qed.

Lemma command_cpp_dirty (w w' : World) (e e' : Editor) :
  dirty_ e = true -> command_cpp w e = Ok (w', e') -> dirty_ e' = true.
Proof.
  intros Hd. unfold command_cpp.
  destruct (write_text_file _ _ w) as [[] w1]; cbn [negb];
    [|now intros [= <- <-]].
  destruct (negb _).
  { intros Hrun. destruct (insert_text_block _ _) as [e1| |] eqn:Hi;
      cbn in Hrun; try discriminate.
    injection Hrun as <- <-. apply insert_text_block_dirty in Hi.
    destruct Hi as [Hi | ->]; [exact Hi | exact Hd]. }
  destruct (negb _); [|now intros [= <- <-]].
  intros Hrun. destruct (insert_text_block _ _) as [e1| |] eqn:Hi;
    cbn in Hrun; try discriminate.
  injection Hrun as <- <-. apply insert_text_block_dirty in Hi.
  destruct Hi as [Hi | ->]; [exact Hi | exact Hd].
Qed.

Lemma tok_stats_dirty (path_opt : option text) (w : World) (e e' : Editor) :
  dirty_ e = true -> tok_stats path_opt w e = Ok e' -> dirty_ e' = true.
Proof.
  intros Hd. unfold tok_stats.
  destruct (match path_opt with Some _ => _ | None => _ end);
    [|now intros [= <-]].
  intros Hrun. destruct (insert_text_block _ e) as [e1| |] eqn:Hi; cbn in Hrun;
    try discriminate.
  injection Hrun as <-. apply insert_text_block_dirty in Hi as [Hi | ->];
    [exact Hi | exact Hd].
Qed.

Lemma tok_ngram_dirty (N K : N) (e e' : Editor) :
  dirty_ e = true -> tok_ngram N K e = Ok e' -> dirty_ e' = true.
Proof.
  intros Hd. unfold tok_ngram.
  destruct (N =? 0)%N; [now intros [= <-]|].
  intros Hrun. destruct (insert_text_block _ e) as [e1| |] eqn:Hi; cbn in Hrun;
    try discriminate.
  injection Hrun as <-. apply insert_text_block_dirty in Hi as [Hi | ->];
    [exact Hi | exact Hd].
Qed.

Lemma tok_perm_dirty (len limit : N) (e e' : Editor) :
  dirty_ e = true -> tok_perm len limit e = Ok e' -> dirty_ e' = true.
Proof.
  intros Hd. unfold tok_perm.
  destruct (decide (_ = [])); [now intros [= <-]|].
  intros Hrun. destruct (insert_text_block _ e) as [e1| |] eqn:Hi; cbn in Hrun;
    try discriminate.
  injection Hrun as <-. apply insert_text_block_dirty in Hi as [Hi | ->];
    [exact Hi | exact Hd].
Qed.

End DirtyCommands.




(** X29.  Unsaved changes are dropped by [q!] only.  With the dirty flag
    set, a command that returns either leaves the flag set, and then asks
    to quit only if it is [q!]; or it is [w], which does not quit, keeps
    the buffer, and has written the lines of the buffer, joined by
    newlines, to the file that the editor now names. *)
Theorem unsaved_changes_kept `{StdSort} (raw : text) (w w' : World)
    (e e' : Editor) (quit : bool) :
  dirty_ e = true ->
  execute_command raw w e = Ok (w', e', quit) ->
  let cmd := part (split_ws (trim_copy raw)) 0 in
  (dirty_ e' = true /\ (quit = true -> cmd = str "q!")) \/
  (cmd = str "w" /\ quit = false /\ buffer_ e' = buffer_ e /\
   files w' !! filename_ e' = Some (join_lines (buffer_ e))).
Proof.
  intros Hd Hrun. cbn zeta. revert Hrun.
  unfold execute_command. cbn zeta.
  set (parts := split_ws (trim_copy raw)).
  assert (Hst : forall s, Ok (w, set_status s e, false) = Ok (w', e', quit) ->
            (dirty_ e' = true /\ (quit = true -> part parts 0 = str "q!")) \/
            (part parts 0 = str "w" /\ quit = false /\
             buffer_ e' = buffer_ e /\
             files w' !! filename_ e' = Some (join_lines (buffer_ e)))).
  { intros s [= <- <- <-]. left. split; [exact Hd | discriminate]. }
  assert (Hkeep : forall w1 e1, dirty_ e1 = true ->
            Ok (w1, e1, false) = Ok (w', e', quit) ->
            (dirty_ e' = true /\ (quit = true -> part parts 0 = str "q!")) \/
            (part parts 0 = str "w" /\ quit = false /\
             buffer_ e' = buffer_ e /\
             files w' !! filename_ e' = Some (join_lines (buffer_ e)))).
  { intros w1 e1 Hd1 [= <- <- <-]. left. split; [exact Hd1 | discriminate]. }
  destruct (decide (trim_copy raw = [])) as [?Hc|?Hc]; [apply Hst|].
  destruct (decide (part parts 0 = str "q")) as [?Hc|?Hc]; [rewrite Hd; apply Hst|].
  destruct (decide (part parts 0 = str "q!")) as [Hq|_].
  { intros [= <- <- <-]. left. split; [exact Hd | now intros _]. }
  destruct (decide (part parts 0 = str "w")) as [Hw|_].
  { clear Hst Hkeep. unfold save_file, write_text_file.
    destruct (writable w _); intros [= <- <- <-].
    - right. cbn. rewrite lookup_insert_eq. now repeat split.
    - left. split; [exact Hd | discriminate]. }
  destruct (decide (part parts 0 = str "o")) as [?Hc|?Hc].
  { destruct (length parts <? 2)%nat; [apply Hst|]. rewrite Hd. apply Hst. }
  destruct (decide (part parts 0 = str "help")) as [?Hc|?Hc]; [now apply Hkeep|].
  destruct (decide (part parts 0 = str "cpp")) as [?Hc|?Hc].
  { destruct (command_cpp w e) as [[w1 e1]| |] eqn:Hrun1; cbn; try discriminate.
    apply Hkeep. eapply command_cpp_dirty; eauto. }
  destruct (bool_decide _).
  { destruct (command_shell _ w e) as [e1| |] eqn:Hrun1; cbn; try discriminate.
    apply Hkeep. eapply command_shell_dirty; eauto. }
  destruct (decide (part parts 0 = str "tok")) as [?Hc|?Hc]; [|apply Hst].
  destruct (length parts =? 1)%nat; [apply Hst|].
  destruct (decide (part parts 1 = str "stats")) as [?Hc|?Hc].
  { destruct (tok_stats _ w e) as [e1| |] eqn:Hrun1; cbn; try discriminate.
    apply Hkeep. eapply tok_stats_dirty; eauto. }
  destruct (decide (part parts 1 = str "ngram")) as [?Hc|?Hc].
  { destruct (if (3 <=? length parts)%nat then _ else _) as [N| |]; cbn;
      try discriminate.
    destruct (if (4 <=? length parts)%nat then _ else _) as [K| |]; cbn;
      try discriminate.
    destruct (tok_ngram N K e) as [e1| |] eqn:Hrun1; cbn; try discriminate.
    apply Hkeep. eapply tok_ngram_dirty; eauto. }
  destruct (decide (part parts 1 = str "export")) as [?Hc|?Hc].
  { destruct (length parts <? 3)%nat; [apply Hst|].
    unfold tok_export. destruct (write_text_file _ _ w) as [[] w1];
      apply Hkeep; exact Hd. }
  destruct (decide (part parts 1 = str "perm")) as [?Hc|?Hc]; [|apply Hst].
  destruct (length parts <? 4)%nat; [apply Hst|].
  destruct (stoull (part parts 2)) as [len| |]; cbn; try discriminate.
  destruct (stoull (part parts 3)) as [limit| |]; cbn; try discriminate.
  destruct (tok_perm len limit e) as [e1| |] eqn:Hrun1; cbn; try discriminate.
  apply Hkeep. eapply tok_perm_dirty; eauto.
Qed.

Lemma unsaved_changes_kept_witness :
  let e := set_dirty true sample_editor in
  let e' := set_status (str "Unsaved changes! Save with :w first.") e in
  let cmd := part (split_ws (trim_copy (str "o other.txt"))) 0 in
  (dirty_ e' = true /\ (false = true -> cmd = str "q!")) \/
  (cmd = str "w" /\ false = false /\ buffer_ e' = buffer_ e /\
   files sample_world !! filename_ e' = Some (join_lines (buffer_ e))).
Proof.
  apply (unsaved_changes_kept (str "o other.txt") sample_world sample_world
           (set_dirty true sample_editor)
           (set_status (str "Unsaved changes! Save with :w first.")
              (set_dirty true sample_editor))
           false);
    reflexivity.
Defined.
